(** * Scryfall API explorer: a shallow embedding of [notebooks/api_explorer.py]

    The explorer is a Python class with three working methods
    ([_make_request], [explore_sets], [explore_cards]) and a persister
    ([save_exploration_results]).  The code is dynamically typed and runs
    on whatever JSON value the remote service answers with, so the
    embedding comes in layers:

    - [Py]: the Python values that [json] produces, and the handful of
      built-in operations the explorer applies to them, each with the
      exception it raises on a value of the wrong type;
    - [Eff]: a reader/state/error monad: the outside world (network, file
      system, iteration order of [set]) is read from an environment, the
      effects performed are appended to a trace, exceptions short-circuit;
    - [Explorer]: the methods of [ScryfallExplorer], statement by statement;
    - [Json]: what [json.dump] writes to the file the persister opens, and
      what [json.load] reads back from it.

    The environment checker, [scripts/test_environment.py], is embedded in
    [TestEnvironment] in the same way.
*)

From Stdlib Require Import List ZArith NArith Bool Lia String Ascii Permutation.
From Stdlib Require Import Floats.SpecFloat.
From Stdlib Require Decimal DecimalFacts DecimalPos DecimalZ.
Import ListNotations.

Set Implicit Arguments.
Set Warnings "-register-all".


(* ================================================================= *)
(** ** Python values and built-in operations *)

Module Py.

(** A Python [str] is a sequence of Unicode code points. *)
Definition pystr := list N.

(** Source literals are UTF-8 text; [u] decodes one into a [pystr], the way
    the interpreter reads the source file. *)
Fixpoint utf8_decode (bs : list N) : pystr :=
  match bs with
  | [] => []
  | b0 :: r0 =>
      if (b0 <? 128)%N then b0 :: utf8_decode r0
      else if (b0 <? 224)%N then
        match r0 with
        | b1 :: r1 => ((b0 - 192) * 64 + (b1 - 128))%N :: utf8_decode r1
        | _ => [65533%N]
        end
      else if (b0 <? 240)%N then
        match r0 with
        | b1 :: b2 :: r2 =>
            ((b0 - 224) * 4096 + (b1 - 128) * 64 + (b2 - 128))%N
              :: utf8_decode r2
        | _ => [65533%N]
        end
      else
        match r0 with
        | b1 :: b2 :: b3 :: r3 =>
            ((b0 - 240) * 262144 + (b1 - 128) * 4096
             + (b2 - 128) * 64 + (b3 - 128))%N :: utf8_decode r3
        | _ => [65533%N]
        end
  end.

Definition u (s : string) : pystr :=
  utf8_decode (map N_of_ascii (list_ascii_of_string s)).

Fixpoint str_eqb (s t : pystr) : bool :=
  match s, t with
  | [], [] => true
  | a :: s', b :: t' => (a =? b)%N && str_eqb s' t'
  | _, _ => false
  end.

(** [s < t] on [str]: lexicographic on code points. *)
Fixpoint str_ltb (s t : pystr) : bool :=
  match s, t with
  | _, [] => false
  | [], _ :: _ => true
  | a :: s', b :: t' =>
      if (a <? b)%N then true
      else if (a =? b)%N then str_ltb s' t' else false
  end.

Definition str_leb (s t : pystr) : bool := negb (str_ltb t s).

(** [str.isspace] on one code point, as [str.strip()] with no argument
    uses it. *)
Definition is_space (c : N) : bool :=
  ((9 <=? c) && (c <=? 13) || (28 <=? c) && (c <=? 32)
   || (c =? 133) || (c =? 160) || (c =? 5760)
   || (8192 <=? c) && (c <=? 8202)
   || (c =? 8232) || (c =? 8233) || (c =? 8239) || (c =? 8287)
   || (c =? 12288))%N.

Fixpoint lstrip (s : pystr) : pystr :=
  match s with
  | c :: s' => if is_space c then lstrip s' else s
  | [] => []
  end.

Definition rstrip (s : pystr) : pystr := rev (lstrip (rev s)).

Definition strip (s : pystr) : pystr := rstrip (lstrip s).

(** [s.split(sep)] for a one-character separator: never empty. *)
Fixpoint split (sep : N) (s : pystr) : list pystr :=
  match s with
  | [] => [[]]
  | c :: s' =>
      if (c =? sep)%N then [] :: split sep s'
      else match split sep s' with
           | p :: ps => (c :: p) :: ps
           | [] => [[c]]
           end
  end.

(** What [json.loads] builds: [None], [bool], [int], [float], [str],
    [list], and [dict] with [str] keys in insertion order. *)
Inductive value : Type :=
| VNone
| VBool (b : bool)
| VInt (z : Z)
| VFloat (f : spec_float)
| VStr (s : pystr)
| VList (l : list value)
| VDict (d : list (pystr * value)).

Definition dict := list (pystr * value).

Fixpoint lookup (k : pystr) (d : dict) : option value :=
  match d with
  | [] => None
  | (k', v) :: d' => if str_eqb k' k then Some v else lookup k d'
  end.

Definition keys (d : dict) : list value := map (fun kv => VStr (fst kv)) d.

(** The exceptions that can occur, by class. *)
Inductive exn : Type :=
| AttributeError | TypeError | KeyError | IndexError | ValueError
| UnicodeEncodeError
| OSError | PermissionError | FileExistsError
| JSONDecodeError               (* json.JSONDecodeError *)
| RequestException | ConnectionError | Timeout | HTTPError
| RequestsJSONDecodeError       (* requests.exceptions.JSONDecodeError *)
| KeyboardInterrupt.

Inductive exn_base : Type :=
| BException | BRequestException | BJSONDecodeError.

(** [isinstance e base] for the three classes named in [except] clauses. *)
Definition isinstance (e : exn) (b : exn_base) : bool :=
  match b, e with
  | BException, KeyboardInterrupt => false
  | BException, _ => true
  | BRequestException,
    (RequestException | ConnectionError | Timeout | HTTPError
     | RequestsJSONDecodeError) => true
  | BRequestException, _ => false
  | BJSONDecodeError, (JSONDecodeError | RequestsJSONDecodeError) => true
  | BJSONDecodeError, _ => false
  end.

Inductive outcome (A : Type) : Type :=
| Returned (a : A)
| Raised (e : exn).
Arguments Raised {A} e.

Definition obind {A B} (o : outcome A) (k : A -> outcome B) : outcome B :=
  match o with
  | Returned a => k a
  | Raised e => Raised e
  end.

(** *** Numbers *)

(** Exact comparison of an [int] with a [float]. *)
Definition int_float_compare (z : Z) (f : spec_float) : option comparison :=
  match f with
  | S754_zero _ => Some (Z.compare z 0)
  | S754_infinity s => Some (if s then Gt else Lt)
  | S754_nan => None
  | S754_finite s m e =>
      let fm := if s then Zneg m else Zpos m in
      Some (if (0 <=? e)%Z then Z.compare z (fm * 2 ^ e)
            else Z.compare (z * 2 ^ (- e)) fm)
  end.

Inductive num : Type := NInt (z : Z) | NFloat (f : spec_float).

Definition as_num (v : value) : option num :=
  match v with
  | VBool b => Some (NInt (if b then 1 else 0))
  | VInt z => Some (NInt z)
  | VFloat f => Some (NFloat f)
  | _ => None
  end.

(** [None] when a NaN is involved.  Floats are binary64 values in
    canonical form, as [SFcompare] expects them. *)
Definition num_compare (a b : num) : option comparison :=
  match a, b with
  | NInt x, NInt y => Some (Z.compare x y)
  | NInt x, NFloat g => int_float_compare x g
  | NFloat f, NInt y => option_map CompOpp (int_float_compare y f)
  | NFloat f, NFloat g => SFcompare f g
  end.

Definition is_nan (a : num) : bool :=
  match a with NFloat S754_nan => true | _ => false end.

(** Equality as containers test it ([x is y or x == y]).  Every NaN that
    [json] decodes is the one module constant, so NaN is identical to NaN. *)
Definition num_eqb (a b : num) : bool :=
  match num_compare a b with
  | Some Eq => true
  | Some _ => false
  | None => is_nan a && is_nan b
  end.

(** *** Truth value, equality, ordering *)

Definition truthy (v : value) : bool :=
  match v with
  | VNone => false
  | VBool b => b
  | VInt z => negb (z =? 0)%Z
  | VFloat (S754_zero _) => false
  | VFloat _ => true
  | VStr s => match s with [] => false | _ => true end
  | VList l => match l with [] => false | _ => true end
  | VDict d => match d with [] => false | _ => true end
  end.

Fixpoint py_eqb (a b : value) {struct a} : bool :=
  match a, b with
  | VNone, VNone => true
  | VStr s, VStr t => str_eqb s t
  | VList l, VList m =>
      (fix go (l m : list value) : bool :=
         match l, m with
         | [], [] => true
         | x :: l', y :: m' => py_eqb x y && go l' m'
         | _, _ => false
         end) l m
  | VDict d, VDict e =>
      (List.length d =? List.length e)%nat &&
      (fix go (d : dict) : bool :=
         match d with
         | [] => true
         | (k, v) :: d' =>
             match lookup k e with
             | Some w => py_eqb v w
             | None => false
             end && go d'
         end) d
  | _, _ =>
      match as_num a, as_num b with
      | Some x, Some y => num_eqb x y
      | _, _ => false
      end
  end.

Inductive cmpop : Type := OpLt | OpGt.

Definition cmp_holds (op : cmpop) (c : option comparison) : bool :=
  match op, c with
  | OpLt, Some Lt => true
  | OpGt, Some Gt => true
  | _, _ => false
  end.

(** [a < b] and [a > b]; [TypeError] where the operand types do not
    support the ordering. *)
Fixpoint py_compare (op : cmpop) (a b : value) {struct a} : outcome bool :=
  match a, b with
  | VStr s, VStr t =>
      Returned (match op with OpLt => str_ltb s t | OpGt => str_ltb t s end)
  | VList l, VList m =>
      (fix go (l m : list value) : outcome bool :=
         match l, m with
         | x :: l', y :: m' =>
             if py_eqb x y then go l' m' else py_compare op x y
         | _, _ =>
             Returned (match op with
                       | OpLt => (List.length l <? List.length m)%nat
                       | OpGt => (List.length m <? List.length l)%nat
                       end)
         end) l m
  | _, _ =>
      match as_num a, as_num b with
      | Some x, Some y => Returned (cmp_holds op (num_compare x y))
      | _, _ => Raised TypeError
      end
  end.

(** *** Attribute and container protocol *)

(** [o.get(k, default)] *)
Definition get (o : value) (k : pystr) (default : value) : outcome value :=
  match o with
  | VDict d =>
      Returned (match lookup k d with Some v => v | None => default end)
  | _ => Raised AttributeError
  end.

(** [list(o.keys())] *)
Definition list_keys (o : value) : outcome value :=
  match o with
  | VDict d => Returned (VList (keys d))
  | _ => Raised AttributeError
  end.

(** [len(o)] *)
Definition len (o : value) : outcome Z :=
  match o with
  | VStr s => Returned (Z.of_nat (List.length s))
  | VList l => Returned (Z.of_nat (List.length l))
  | VDict d => Returned (Z.of_nat (List.length d))
  | _ => Raised TypeError
  end.

(** [len(o.keys())] *)
Definition len_keys (o : value) : outcome Z :=
  match o with
  | VDict d => Returned (Z.of_nat (List.length d))
  | _ => Raised AttributeError
  end.

(** The number of items [xs[:stop]] keeps: a negative [stop] counts from
    the end. *)
Definition slice_stop (n : nat) (stop : Z) : nat :=
  if (0 <=? stop)%Z then Nat.min n (Z.to_nat stop)
  else Z.to_nat (Z.of_nat n + stop).

Definition slice_to {A} (xs : list A) (stop : Z) : list A :=
  firstn (slice_stop (List.length xs) stop) xs.

(** [o[:stop]]: sequences are sliced; a [dict] looks the slice up as a key
    (a slice is hashable from Python 3.12 on, the version the nested quotes
    in the f-strings of the source require); the other types are not
    subscriptable. *)
Definition getslice (o : value) (stop : Z) : outcome value :=
  match o with
  | VList l => Returned (VList (slice_to l stop))
  | VStr s => Returned (VStr (slice_to s stop))
  | VDict _ => Raised KeyError
  | _ => Raised TypeError
  end.

(** The items a [for] loop draws from [o]. *)
Definition iter (o : value) : outcome (list value) :=
  match o with
  | VList l => Returned l
  | VStr s => Returned (map (fun c => VStr [c]) s)
  | VDict d => Returned (keys d)
  | _ => Raised TypeError
  end.

(** [o.split(sep)[0].strip()] *)
Definition split_first_strip (o : value) (sep : N) : outcome value :=
  match o with
  | VStr s =>
      match split sep s with
      | p :: _ => Returned (VStr (strip p))
      | [] => Raised IndexError
      end
  | _ => Raised AttributeError
  end.

(** *** Sets *)

(** A [set] under accumulation: its members, pairwise unequal. *)
Definition pyset := list value.

Definition hashable (v : value) : bool :=
  match v with
  | VList _ | VDict _ => false
  | _ => true
  end.

Definition member (v : value) (s : pyset) : bool :=
  existsb (fun w => py_eqb w v) s.

(** [s.add(v)] *)
Definition set_add (s : pyset) (v : value) : outcome pyset :=
  if hashable v then Returned (if member v s then s else s ++ [v])
  else Raised TypeError.

Fixpoint set_add_all (s : pyset) (vs : list value) : outcome pyset :=
  match vs with
  | [] => Returned s
  | v :: vs' => obind (set_add s v) (fun s' => set_add_all s' vs')
  end.

(** [s.update(o)] *)
Definition set_update (s : pyset) (o : value) : outcome pyset :=
  obind (iter o) (set_add_all s).

(** [list(s)] enumerates the members in an order the language leaves to
    the implementation (it varies with the hash seed): any enumeration
    that is a permutation of the members. *)
Record set_order : Type := SetOrder {
  enumerate : pyset -> list value;
  enumerate_perm : forall s, Permutation (enumerate s) s
}.

Definition insertion_order : set_order :=
  {| enumerate := fun s => s; enumerate_perm := @Permutation_refl value |}.

End Py.

(* ================================================================= *)
(** ** Effects: environment, trace, exceptions *)

Module Eff.
Import Py.

(** What [session.get] hands back: the status line and what
    [response.json()] will do with the body. *)
Record response : Type := Response {
  status_code : Z;
  json_body : outcome value
}.

Inductive level : Type := INFO | SUCCESS | ERROR.

(** A formatted message: literal text and [str] fields as text, other
    fields by the object formatted. *)
Inductive part : Type :=
| T (s : pystr)
| V (v : value)
| X (e : exn).

Inductive event : Type :=
| Log (lvl : level) (msg : list part)
| Print (msg : list part)
| Sleep (seconds : spec_float)
| HttpGet (url : pystr) (headers : list (pystr * pystr)) (params : value)
          (timeout : Z)
| Mkdir (path : pystr) (parents exist_ok : bool)
| OpenWrite (path encoding : pystr)
| JsonDump (path : pystr) (obj : value) (indent : Z) (ensure_ascii : bool).

(** The world outside the process. *)
Record env : Type := Env {
  http : pystr -> value -> Z -> outcome response;
  fs_mkdir : pystr -> bool -> bool -> option exn;
  fs_open : pystr -> option exn;
  fs_dump : pystr -> value -> option exn;
  order : set_order
}.

Definition trace := list event.

Definition M (A : Type) : Type := env -> trace -> outcome A * trace.

Definition ret {A} (a : A) : M A := fun _ t => (Returned a, t).

Definition bind {A B} (m : M A) (k : A -> M B) : M B :=
  fun w t =>
    match m w t with
    | (Returned a, t') => k a w t'
    | (Raised e, t') => (Raised e, t')
    end.

Definition lift {A} (o : outcome A) : M A := fun _ t => (o, t).

Definition emit (ev : event) : M unit := fun _ t => (Returned tt, t ++ [ev]).

Definition ask : M env := fun w t => (Returned w, t).

(** [try: body  except ...: handler]: [handler e] is [None] when no
    clause matches [e]. *)
Definition try_except {A} (body : M A) (handler : exn -> option (M A))
  : M A :=
  fun w t =>
    match body w t with
    | (Raised e, t') =>
        match handler e with
        | Some h => h w t'
        | None => (Raised e, t')
        end
    | r => r
    end.

Definition throw_if (r : option exn) : M unit :=
  match r with
  | Some e => lift (Raised e)
  | None => ret tt
  end.

Declare Scope eff_scope.
Delimit Scope eff_scope with eff.
Notation "x <- c1 ;; c2" := (bind c1 (fun x => c2))
  (at level 61, c1 at next level, right associativity) : eff_scope.
Notation "c1 ;; c2" := (bind c1 (fun _ => c2))
  (at level 61, right associativity) : eff_scope.
#[local] Open Scope eff_scope.

Definition log (lvl : level) (msg : list part) : M unit := emit (Log lvl msg).

Definition print (msg : list part) : M unit := emit (Print msg).

Definition sleep (seconds : spec_float) : M unit := emit (Sleep seconds).

(** [Path(path).mkdir(parents=..., exist_ok=...)] *)
Definition mkdir (path : pystr) (parents exist_ok : bool) : M unit :=
  emit (Mkdir path parents exist_ok);;
  w <- ask;;
  throw_if (fs_mkdir w path parents exist_ok).

(** [open(path, 'w', encoding=...)] *)
Definition open_write (path encoding : pystr) : M unit :=
  emit (OpenWrite path encoding);;
  w <- ask;;
  throw_if (fs_open w path).

(** [json.dump(obj, f, indent=..., ensure_ascii=...)], up to the close of
    the file. *)
Definition json_dump (path : pystr) (obj : value) (indent : Z)
           (ensure_ascii : bool) : M unit :=
  emit (JsonDump path obj indent ensure_ascii);;
  w <- ask;;
  throw_if (fs_dump w path obj).

(** [session.get(url, params=..., timeout=...)] *)
Definition session_get (headers : list (pystr * pystr)) (url : pystr)
           (params : value) (timeout : Z) : M response :=
  emit (HttpGet url headers params timeout);;
  w <- ask;;
  lift (http w url params timeout).

(** [response.raise_for_status()]: 4xx and 5xx raise [HTTPError]. *)
Definition raise_for_status (r : response) : M unit :=
  if ((400 <=? status_code r) && (status_code r <? 600))%Z
  then lift (Raised HTTPError)
  else ret tt.

(** [response.json()] *)
Definition response_json (r : response) : M value := lift (json_body r).

(** A bounded [for] loop: the body threads the accumulators, an exception
    leaves the loop. *)
Fixpoint for_each {S} (body : S -> value -> outcome S) (acc : S)
         (items : list value) : outcome S :=
  match items with
  | [] => Returned acc
  | x :: items' => obind (body acc x) (fun acc' => for_each body acc' items')
  end.

End Eff.

(* ================================================================= *)
(** ** The explorer *)

Module Explorer.
Import Py Eff.
#[local] Open Scope eff_scope.

Record ScryfallExplorer : Type := {
  base_url : pystr;
  headers : list (pystr * pystr);
  request_delay : spec_float
}.

(** The [float] literal [0.1]. *)
Definition float_0_1 : spec_float :=
  S754_finite false 7205759403792794 (-56).

(** *** The session's headers

    [requests.Session()] starts from the library's default headers, a
    case-insensitive mapping that keeps insertion order.  [update] assigns
    name by name, and assigning to a name already present, in whatever
    case, replaces the name and the value where they stand.  Header names
    are ASCII, so [lower] folds [A]-[Z] only. *)
Definition lower (s : pystr) : pystr :=
  map (fun c => if ((65 <=? c) && (c <=? 90))%N then (c + 32)%N else c) s.

Fixpoint header_set (hs : list (pystr * pystr)) (k v : pystr)
         : list (pystr * pystr) :=
  match hs with
  | [] => [(k, v)]
  | (k', v') :: rest =>
      if str_eqb (lower k') (lower k) then (k, v) :: rest
      else (k', v') :: header_set rest k v
  end.

Definition headers_update (hs new : list (pystr * pystr))
           : list (pystr * pystr) :=
  fold_left (fun acc kv => header_set acc (fst kv) (snd kv)) new hs.

(** [requests.utils.default_headers()].  The library appends its version
    to the user agent, and the codecs it names depend on what is
    installed beside it ([gzip, deflate] at least); [__init__] replaces
    the first, and nothing here reads the second. *)
Definition default_headers : list (pystr * pystr) :=
  [(u"User-Agent", u"python-requests");
   (u"Accept-Encoding", u"gzip, deflate");
   (u"Accept", u"*/*");
   (u"Connection", u"keep-alive")].

Definition __init__ : M ScryfallExplorer :=
  let self :=
    {| base_url := u"https://api.scryfall.com";
       headers :=
         headers_update default_headers
           [(u"User-Agent",
             u"KyberCorax-DataPipeline/1.0 (Educational Purpose)");
            (u"Accept", u"application/json")];
       request_delay := float_0_1 |} in
  log INFO [T (u"ScryfallExplorer inicializado")];;
  ret self.

Definition _make_request (self : ScryfallExplorer) (endpoint : pystr)
           (params : value) : M value :=
  let url := (base_url self ++ endpoint)%list in
  try_except
    (log INFO [T (u"Fazendo requisição para: "); T url];;
     (if truthy params then log INFO [T (u"Parâmetros: "); V params]
      else ret tt);;
     sleep (request_delay self);;
     response <- session_get (headers self) url params 30;;
     raise_for_status response;;
     log SUCCESS [T (u"Requisição bem-sucessida - Status: ");
                  V (VInt (status_code response))];;
     response_json response)
    (fun e =>
       if isinstance e BRequestException then
         Some (log ERROR [T (u"Erro na requisição para "); T url;
                          T (u": "); X e];;
               ret VNone)
       else if isinstance e BJSONDecodeError then
         Some (log ERROR [T (u"Erro ao decodificar JSON de "); T url;
                          T (u": "); X e];;
               ret VNone)
       else None).

(** *** [explore_sets] *)

(** The parts of [analysis] that the loop updates. *)
Record sets_acc : Type := SetsAcc {
  sample_sets : list value;
  set_types : pyset;
  oldest : value;
  newest : value
}.

(** [not bound or release_date <op> bound] *)
Definition improves (op : cmpop) (release_date bound : value)
  : outcome bool :=
  if negb (truthy bound) then Returned true
  else py_compare op release_date bound.

Definition set_info_of (set_data : value) : outcome value :=
  obind (get set_data (u"object") VNone) (fun object =>
  obind (get set_data (u"code") VNone) (fun code =>
  obind (get set_data (u"name") VNone) (fun name =>
  obind (get set_data (u"set_type") VNone) (fun set_type =>
  obind (get set_data (u"card_count") VNone) (fun card_count =>
  obind (get set_data (u"released_at") VNone) (fun released_at =>
  obind (list_keys set_data) (fun ks =>
  Returned (VDict [(u"object", object);
                   (u"code", code);
                   (u"name", name);
                   (u"set_type", set_type);
                   (u"card_count", card_count);
                   (u"released_at", released_at);
                   (u"keys", ks)])))))))).

(** The body of the [for] loop of [explore_sets]. *)
Definition sets_body (acc : sets_acc) (set_data : value)
  : outcome sets_acc :=
  obind (set_info_of set_data) (fun set_info =>
  let samples := (sample_sets acc ++ [set_info])%list in
  obind (get set_data (u"set_type") VNone) (fun set_type =>
  obind (set_add (set_types acc) set_type) (fun types =>
  obind (get set_data (u"released_at") VNone) (fun release_date =>
  if truthy release_date then
    obind (improves OpLt release_date (oldest acc)) (fun lower =>
    let oldest' := if lower then release_date else oldest acc in
    obind (improves OpGt release_date (newest acc)) (fun higher =>
    let newest' := if higher then release_date else newest acc in
    Returned (SetsAcc samples types oldest' newest')))
  else
    Returned (SetsAcc samples types (oldest acc) (newest acc)))))).

Definition sets_error : value :=
  VDict [(u"error", VStr (u"Falha ao obter dados dos sets"))].

Definition explore_sets (self : ScryfallExplorer) (limit : Z) : M value :=
  log INFO [T (u"Explorando endpoint /sets")];;
  sets_data <- _make_request self (u"/sets") VNone;;
  if negb (truthy sets_data) then ret sets_error
  else
    data <- lift (get sets_data (u"data") (VList []));;
    total_sets <- lift (len data);;
    structure_keys <- lift (list_keys sets_data);;
    data <- lift (get sets_data (u"data") (VList []));;
    front <- lift (getslice data limit);;
    items <- lift (iter front);;
    acc <- lift (for_each sets_body (SetsAcc [] [] VNone VNone) items);;
    w <- ask;;
    let analysis :=
      VDict [(u"total_sets", VInt total_sets);
             (u"structure_keys", structure_keys);
             (u"sample_sets", VList (sample_sets acc));
             (u"set_types", VList (enumerate (order w) (set_types acc)));
             (u"date_range",
              VDict [(u"oldest", oldest acc); (u"newest", newest acc)])] in
    log INFO [T (u"Análise dos sets: ");
              V (VInt (Z.of_nat (List.length (sample_sets acc))));
              T (u" sets análisados")];;
    log INFO [T (u"Análise completa: "); V (VInt total_sets);
              T (u" sets encontrados")];;
    ret analysis.

(** *** [explore_cards] *)

Record cards_acc : Type := CardsAcc {
  sample_cards : list value;
  card_types : pyset;
  colors : pyset;
  rarities : pyset;
  languages : pyset
}.

Definition card_info_of (card : value) : outcome value :=
  obind (get card (u"name") VNone) (fun name =>
  obind (get card (u"mana_cost") VNone) (fun mana_cost =>
  obind (get card (u"type_line") VNone) (fun type_line =>
  obind (get card (u"rarity") VNone) (fun rarity =>
  obind (get card (u"colors") (VList [])) (fun cols =>
  obind (get card (u"set") VNone) (fun set_code =>
  obind (get card (u"lang") VNone) (fun lang =>
  obind (list_keys card) (fun ks =>
  obind (len_keys card) (fun total_keys =>
  Returned (VDict [(u"name", name);
                   (u"mana_cost", mana_cost);
                   (u"type_line", type_line);
                   (u"rarity", rarity);
                   (u"colors", cols);
                   (u"set", set_code);
                   (u"lang", lang);
                   (u"keys", ks);
                   (u"total_keys", VInt total_keys)])))))))))).

(** The code point of ['-'], the argument of [split]. *)
Definition hyphen : N := 45.

(** [if card.get(field): s.add(card.get(field))] *)
Definition add_field (card : value) (field : pystr) (s : pyset)
  : outcome pyset :=
  obind (get card field VNone) (fun v =>
  if truthy v then obind (get card field VNone) (set_add s)
  else Returned s).

(** The body of the [for] loop of [explore_cards]. *)
Definition cards_body (acc : cards_acc) (card : value)
  : outcome cards_acc :=
  obind (card_info_of card) (fun card_info =>
  let samples := (sample_cards acc ++ [card_info])%list in
  obind (get card (u"type_line") VNone) (fun type_line =>
  obind (if truthy type_line then
           obind (get card (u"type_line") VNone) (fun tl =>
           obind (split_first_strip tl hyphen) (set_add (card_types acc)))
         else Returned (card_types acc)) (fun types =>
  obind (add_field card (u"rarity") (rarities acc)) (fun rars =>
  obind (get card (u"colors") VNone) (fun cs =>
  obind (if truthy cs then
           obind (get card (u"colors") VNone) (set_update (colors acc))
         else Returned (colors acc)) (fun cols =>
  obind (add_field card (u"lang") (languages acc)) (fun langs =>
  Returned (CardsAcc samples types cols rars langs)))))))).

Definition cards_error (set_core : pystr) : value :=
  VDict [(u"error",
          VStr (u"Falha ao obter cartas do set " ++ set_core)%list)].

Definition explore_cards (self : ScryfallExplorer) (set_core : pystr)
           (limit : Z) : M value :=
  log INFO [T (u"Explorando cartas do set: "); T set_core];;
  let params :=
    VDict [(u"q", VStr (u"set:" ++ set_core)%list); (u"page", VInt 1)] in
  cards_data <- _make_request self (u"/cards/search") params;;
  if negb (truthy cards_data) then ret (cards_error set_core)
  else
    total_cards <- lift (get cards_data (u"total_cards") (VInt 0));;
    has_more <- lift (get cards_data (u"has_more") (VBool false));;
    structure_keys <- lift (list_keys cards_data);;
    data <- lift (get cards_data (u"data") (VList []));;
    front <- lift (getslice data limit);;
    items <- lift (iter front);;
    acc <- lift (for_each cards_body (CardsAcc [] [] [] [] []) items);;
    w <- ask;;
    let analysis :=
      VDict [(u"total_cards", total_cards);
             (u"has_more", has_more);
             (u"structure_keys", structure_keys);
             (u"sample_cards", VList (sample_cards acc));
             (u"card_types", VList (enumerate (order w) (card_types acc)));
             (u"colors", VList (enumerate (order w) (colors acc)));
             (u"rarities", VList (enumerate (order w) (rarities acc)));
             (u"languages", VList (enumerate (order w) (languages acc)))] in
    log INFO [T (u"Análise completa: "); V total_cards;
              T (u" cartas no set "); T set_core];;
    ret analysis.

(** *** [save_exploration_results] *)

Definition save_exploration_results (self : ScryfallExplorer)
           (results : value) (filename : pystr) : M value :=
  mkdir (u"data/exploration") true true;;
  let filepath := (u"data/exploration/" ++ filename)%list in
  try_except
    (open_write filepath (u"utf-8");;
     json_dump filepath results 2 false;;
     log SUCCESS [T (u"Resultados salvos em: "); T filepath])
    (fun e =>
       if isinstance e BException then
         Some (log ERROR [T (u"Erro ao salvar "); T filepath; T (u": ");
                          X e])
       else None);;
  ret VNone.

(** *** [main] *)

Definition main : M value :=
  log INFO [T (u"Iniciando exploração da API Scryfall")];;
  mkdir (u"logs") false true;;
  explorer <- __init__;;
  print [T (u"Explorando Sets...")];;
  sets_analysis <- explore_sets explorer 20;;
  save_exploration_results explorer sets_analysis (u"sets_analysis.json");;
  print [T (u"Explorando Cartas...")];;
  cards_analysis <- explore_cards explorer (u"inr") 5;;
  print [V cards_analysis];;
  ret VNone.

(** The result of running [m] in world [w] from an empty trace. *)
Definition run {A} (m : M A) (w : env) : outcome A * trace := m w [].

Definition result {A} (m : M A) (w : env) : outcome A := fst (run m w).

(** [analysis[k]] on a returned summary. *)
Definition field (k : string) (analysis : value) : option value :=
  match analysis with
  | VDict d => lookup (u k) d
  | _ => None
  end.

(** *** Worlds for the examples *)

(** A world by what it answers: the order in which it enumerates sets,
    the GET, and the three file operations. *)
Definition world (ord : set_order) (answer : outcome response)
           (mk op du : option exn) : env :=
  {| http := fun _ _ _ => answer;
     fs_mkdir := fun _ _ _ => mk;
     fs_open := fun _ => op;
     fs_dump := fun _ _ => du;
     order := ord |}.

(** A service that answers every request with status 200 and [body]. *)
Definition serving (ord : set_order) (body : value) : env :=
  world ord (Returned (Response 200 (Returned body))) None None None.

(** A service that cannot be reached. *)
Definition unreachable (e : exn) : env :=
  world insertion_order (Raised e) None None None.

(** A disk on which the three file operations answer [mk], [op], [du]. *)
Definition disk (mk op du : option exn) : env :=
  world insertion_order (Raised ConnectionError) mk op du.

Definition explorer0 : ScryfallExplorer :=
  {| base_url := u"https://api.scryfall.com";
     headers :=
       headers_update default_headers
         [(u"User-Agent",
           u"KyberCorax-DataPipeline/1.0 (Educational Purpose)");
          (u"Accept", u"application/json")];
     request_delay := float_0_1 |}.

(** Literals for payloads. *)
Definition str (s : string) : value := VStr (u s).

Definition obj (fields : list (string * value)) : value :=
  VDict (map (fun kv => (u (fst kv), snd kv)) fields).

(** *** Classifying what a fetch meets *)

(** The exceptions the two [except] clauses of [_make_request] name. *)
Definition caught (e : exn) : bool :=
  isinstance e BRequestException || isinstance e BJSONDecodeError.

Definition error_status (code : Z) : bool :=
  ((400 <=? code) && (code <? 600))%Z.

(** The failure a GET to [url] runs into and an [except] clause of
    [_make_request] catches, if any: the transport raises, the status is
    an error status, or the body does not decode. *)
Definition fetch_failure (w : env) (url : pystr) (params : value)
  : option exn :=
  match http w url params 30 with
  | Raised e => if caught e then Some e else None
  | Returned r =>
      if error_status (status_code r) then Some HTTPError
      else match json_body r with
           | Raised e => if caught e then Some e else None
           | Returned _ => None
           end
  end.

(** The failure the write of [obj] to [path] runs into, if any. *)
Definition write_failure (w : env) (path : pystr) (obj : value)
  : option exn :=
  match fs_open w path with
  | Some e => Some e
  | None => fs_dump w path obj
  end.

(** The two analyzers behind one interface. *)
Inductive analyzer : Type :=
| Sets (limit : Z)
| Cards (set_core : pystr) (limit : Z).

Definition endpoint_of (a : analyzer) : pystr :=
  match a with
  | Sets _ => u"/sets"
  | Cards _ _ => u"/cards/search"
  end.

Definition params_of (a : analyzer) : value :=
  match a with
  | Sets _ => VNone
  | Cards set_core _ =>
      VDict [(u"q", VStr (u"set:" ++ set_core)%list); (u"page", VInt 1)]
  end.

Definition explore (self : ScryfallExplorer) (a : analyzer) : M value :=
  match a with
  | Sets limit => explore_sets self limit
  | Cards set_core limit => explore_cards self set_core limit
  end.

Definition fetch_error (a : analyzer) : value :=
  match a with
  | Sets _ => sets_error
  | Cards set_core _ => cards_error set_core
  end.

End Explorer.

(* ================================================================= *)
(** ** The environment checker, [scripts/test_environment.py] *)

Module TestEnvironment.
Import Py.

(** The exceptions the checker can meet, by class. *)
Inductive error : Type :=
| FileNotFoundError | PermissionError | OSError
| ImportError | ModuleNotFoundError
| RequestException | ValueError
| KeyboardInterrupt.

Inductive error_base : Type :=
| BException | BFileNotFoundError | BImportError.

(** [isinstance e base] for the classes named in [except] clauses. *)
Definition isinstance (e : error) (b : error_base) : bool :=
  match b, e with
  | BException, KeyboardInterrupt => false
  | BException, _ => true
  | BFileNotFoundError, FileNotFoundError => true
  | BFileNotFoundError, _ => false
  | BImportError, (ImportError | ModuleNotFoundError) => true
  | BImportError, _ => false
  end.

Inductive answer (A : Type) : Type :=
| Done (a : A)
| Failed (e : error).
Arguments Failed {A} e.

(** The machine the checker runs on. *)
Record machine : Type := Machine {
  version_info : Z * Z * Z;            (* major, minor, micro *)
  platform_system : pystr;
  platform_release : pystr;
  platform_machine : pystr;
  cwd : answer pystr;                  (* Path.cwd() *)
  poetry_version : answer (Z * pystr); (* returncode and stdout of the run *)
  import_module : pystr -> option error;
  path_exists : pystr -> answer bool;
  get_status : pystr -> Z -> answer Z  (* status_code of requests.get *)
}.

Inductive piece : Type :=
| Txt (s : pystr)
| Num (z : Z)
| Err (e : error).

Inductive effect : Type :=
| Printed (msg : list piece)
| Ran (command : list pystr)
| Imported (name : pystr)
| Probed (path : pystr)
| Got (url : pystr) (timeout : Z).

Definition IO (A : Type) : Type :=
  machine -> list effect -> answer A * list effect.

Definition ret {A} (a : A) : IO A := fun _ t => (Done a, t).

Definition bind {A B} (m : IO A) (k : A -> IO B) : IO B :=
  fun mc t =>
    match m mc t with
    | (Done a, t') => k a mc t'
    | (Failed e, t') => (Failed e, t')
    end.

Definition perform (ef : effect) : IO unit :=
  fun _ t => (Done tt, t ++ [ef]).

Definition query {A} (f : machine -> answer A) : IO A :=
  fun mc t => (f mc, t).

Definition read {A} (f : machine -> A) : IO A :=
  fun mc t => (Done (f mc), t).

(** [try: body  except base: handler] *)
Definition try_except {A} (body : IO A) (base : error_base)
           (handler : error -> IO A) : IO A :=
  fun mc t =>
    match body mc t with
    | (Failed e, t') =>
        if isinstance e base then handler e mc t' else (Failed e, t')
    | r => r
    end.

Declare Scope io_scope.
Delimit Scope io_scope with io.
Notation "x <- c1 ;; c2" := (bind c1 (fun x => c2))
  (at level 61, c1 at next level, right associativity) : io_scope.
Notation "c1 ;; c2" := (bind c1 (fun _ => c2))
  (at level 61, right associativity) : io_scope.
#[local] Open Scope io_scope.

Definition print (msg : list piece) : IO unit := perform (Printed msg).

(** [for x in xs: body(x)] *)
Fixpoint for_in (xs : list pystr) (body : pystr -> IO unit) : IO unit :=
  match xs with
  | [] => ret tt
  | x :: xs' => body x ;; for_in xs' body
  end.

(** [subprocess.run(['poetry', '--version'], capture_output=True,
    text=True)] *)
Definition run_poetry : IO (Z * pystr) :=
  perform (Ran [u"poetry"; u"--version"]);;
  query poetry_version.

(** [__import__(name)] *)
Definition import (name : pystr) : IO unit :=
  perform (Imported name);;
  r <- read (fun mc => import_module mc name);;
  match r with
  | Some e => query (fun _ => Failed e)
  | None => ret tt
  end.

(** [Path(path).exists()] *)
Definition exists_ (path : pystr) : IO bool :=
  perform (Probed path);;
  query (fun mc => path_exists mc path).

(** [requests.get(url, timeout=...)], read for its [status_code] *)
Definition requests_get (url : pystr) (timeout : Z) : IO Z :=
  perform (Got url timeout);;
  query (fun mc => get_status mc url timeout).

Definition check_python_version : IO value :=
  version <- read version_info;;
  let '(major, minor, micro) := version in
  print [Txt (u"Python "); Num major; Txt (u"."); Num minor; Txt (u".");
         Num micro];;
  if ((major <? 3) || ((major =? 3) && (minor <? 8)))%Z then
    print [Txt (u"Python 3.8+ é requirido!")];;
    ret (VBool false)
  else
    print [Txt (u"Versão Python OK")];;
    ret (VBool true).

Definition check_system_info : IO value :=
  system <- read platform_system;;
  release <- read platform_release;;
  print [Txt (u"Sistema: "); Txt system; Txt (u" "); Txt release];;
  arch <- read platform_machine;;
  print [Txt (u"Arquitetura: "); Txt arch];;
  here <- query cwd;;
  print [Txt (u"Diretório atual: "); Txt here];;
  ret VNone.

Definition check_poetry : IO value :=
  try_except
    (result <- run_poetry;;
     let '(returncode, stdout) := result in
     if (returncode =? 0)%Z then
       print [Txt (strip stdout)];;
       print [Txt (u"Poetry instado corretamente")];;
       ret (VBool true)
     else
       print [Txt (u"Poetry não encontrado no PATH")];;
       ret VNone)
    BFileNotFoundError
    (fun _ =>
       print [Txt (u"Poetry não encontrado no PATH")];;
       ret (VBool false)).

Definition dependencies : list pystr :=
  [u"requests"; u"pandas"; u"dotenv"; u"loguru"].

Definition check_dependencies : IO value :=
  for_in dependencies (fun dep =>
    try_except
      (import dep;;
       print [Txt dep; Txt (u" instalado")])
      BImportError
      (fun _ => print [Txt dep; Txt (u" não instalado")]));;
  ret VNone.

Definition required_dirs : list pystr :=
  [u"dags"; u"dbt"; u"docker"; u"data"; u"streamlit"; u"notebooks";
   u"tests"; u"docs"; u"scripts"].

Definition newline : N := 10.

Definition check_project_structure : IO value :=
  print [Txt (newline :: u" Estrutura do projeto:")];;
  for_in required_dirs (fun dir_name =>
    found <- exists_ dir_name;;
    if (found : bool) then print [Txt dir_name; Txt (u"/")]
    else print [Txt dir_name; Txt (u"/ (não encontrado)")]);;
  ret VNone.

Definition test_api_connection : IO value :=
  try_except
    (import (u"requests");;
     status_code <- requests_get (u"https://api.scryfall.com/sets") 10;;
     if (status_code =? 200)%Z then
       print [Txt (u"Conexão com API Scrufall OK")];;
       print [Txt (u"Status: "); Num status_code];;
       ret (VBool true)
     else
       print [Txt (u"API retornou status "); Num status_code];;
       ret (VBool false))
    BException
    (fun e =>
       print [Txt (u"Erro na conexão: "); Err e];;
       ret (VBool false)).

(** ["=" * 50] *)
Definition rule : pystr := repeat 61%N 50.

Definition main : IO value :=
  print [Txt (u" KyberCorax - Teste de Ambiente")];;
  print [Txt rule];;
  print [Txt (newline :: u" Verificações do Sistema:")];;
  check_system_info;;
  print [Txt (newline :: u" Verificações de Software")];;
  python_ok <- check_python_version;;
  poetry_ok <- check_poetry;;
  (if truthy (if truthy python_ok then poetry_ok else python_ok) then
     print [Txt (newline :: u" Verificações de Dependências:")];;
     check_dependencies;;
     print [Txt (newline :: u" Teste de Conectividade:")];;
     test_api_connection;;
     ret tt
   else ret tt);;
  check_project_structure;;
  print [Txt (newline :: rule)];;
  print [Txt (u"Teste completo!")];;
  print [Txt (u"Se houver erro,  resolva antes de continuar")];;
  ret VNone.

(** What [m] returns and does on machine [mc]. *)
Definition outcome_of {A} (m : IO A) (mc : machine) : answer A :=
  fst (m mc []).

Definition effects_of {A} (m : IO A) (mc : machine) : list effect :=
  snd (m mc []).

(** A machine for the examples: Python 3.12 on Linux, and the rest as
    given. *)
Definition machine0 (poetry : answer (Z * pystr))
           (imports : pystr -> option error) (status : answer Z) : machine :=
  {| version_info := (3, 12, 1)%Z;
     platform_system := u"Linux";
     platform_release := u"6.1";
     platform_machine := u"x86_64";
     cwd := Done (u"/work");
     poetry_version := poetry;
     import_module := imports;
     path_exists := fun _ => Done true;
     get_status := fun _ _ => status |}.

End TestEnvironment.

(* ================================================================= *)
(** ** The JSON file: [json.dump], UTF-8, [json.load]

    The persister hands its summary to [json.dump], which writes to a
    file opened in text mode with the [utf-8] encoding.  This part
    follows the library: the encoder of [json.encoder], chunk by chunk as
    [json.dump] writes them; the strict UTF-8 codec of text files; and the
    decoder of [json.decoder] and [json.scanner], which reads the file
    back.

    Two conversions of [float] are taken from the interpreter as they
    are: [float.__repr__], which the encoder calls on a finite float, and
    [float], which the decoder calls on the text of a number that has a
    fraction or an exponent.  The limits of the machine (memory, the
    depth of recursion) are left out. *)

Module Json.
Import Py.
#[local] Open Scope N_scope.
#[local] Open Scope list_scope.

Record float_text : Type := {
  float_repr : spec_float -> pystr;
  float_of : pystr -> spec_float
}.

(** *** Characters *)

Definition is_digit (c : N) : bool := (48 <=? c) && (c <=? 57).

(** [" \t\n\r"] *)
Definition is_ws (c : N) : bool :=
  (c =? 32) || (c =? 9) || (c =? 10) || (c =? 13).

Definition hex_digit (d : N) : N := if d <? 10 then 48 + d else 87 + d.

Definition hex_value (c : N) : option N :=
  if is_digit c then Some (c - 48)
  else if (97 <=? c) && (c <=? 102) then Some (c - 87)
  else if (65 <=? c) && (c <=? 70) then Some (c - 55)
  else None.

(** *** [int.__repr__] and [int(text)]

    Both refuse a number of more than [sys.int_info.default_max_str_digits]
    digits with a [ValueError]. *)

Definition max_str_digits : nat := 4300.

Fixpoint uint_text (d : Decimal.uint) : pystr :=
  match d with
  | Decimal.Nil => []
  | Decimal.D0 d => 48 :: uint_text d
  | Decimal.D1 d => 49 :: uint_text d
  | Decimal.D2 d => 50 :: uint_text d
  | Decimal.D3 d => 51 :: uint_text d
  | Decimal.D4 d => 52 :: uint_text d
  | Decimal.D5 d => 53 :: uint_text d
  | Decimal.D6 d => 54 :: uint_text d
  | Decimal.D7 d => 55 :: uint_text d
  | Decimal.D8 d => 56 :: uint_text d
  | Decimal.D9 d => 57 :: uint_text d
  end.

Definition int_repr (z : Z) : outcome pystr :=
  match Z.to_int z with
  | Decimal.Pos d =>
      if (max_str_digits <? List.length (uint_text d))%nat
      then Raised ValueError
      else Returned (uint_text d)
  | Decimal.Neg d =>
      if (max_str_digits <? List.length (uint_text d))%nat
      then Raised ValueError
      else Returned (45 :: uint_text d)
  end.

(** The digits of a text that the scanner has matched as digits. *)
Fixpoint text_uint (s : pystr) : Decimal.uint :=
  match s with
  | [] => Decimal.Nil
  | c :: r =>
      let d := text_uint r in
      if c =? 48 then Decimal.D0 d
      else if c =? 49 then Decimal.D1 d
      else if c =? 50 then Decimal.D2 d
      else if c =? 51 then Decimal.D3 d
      else if c =? 52 then Decimal.D4 d
      else if c =? 53 then Decimal.D5 d
      else if c =? 54 then Decimal.D6 d
      else if c =? 55 then Decimal.D7 d
      else if c =? 56 then Decimal.D8 d
      else Decimal.D9 d
  end.

(** [int(text)] on the integer part of a number, [None] for the
    [ValueError] of the digit limit. *)
Definition int_of_text (s : pystr) : option Z :=
  match s with
  | c :: ds =>
      if c =? 45 then
        if (max_str_digits <? List.length ds)%nat then None
        else Some (Z.of_int (Decimal.Neg (text_uint ds)))
      else
        if (max_str_digits <? List.length s)%nat then None
        else Some (Z.of_int (Decimal.Pos (text_uint s)))
  | [] => None
  end.

(** *** The encoder *)

(** ['\\u{0:04x}'.format(n)] *)
Definition u_escape (n : N) : pystr :=
  [92; 117; hex_digit (n / 4096); hex_digit ((n / 256) mod 16);
   hex_digit ((n / 16) mod 16); hex_digit (n mod 16)].

(** [ESCAPE_DCT]: the short escapes, and [\u00XX] for the other control
    characters. *)
Definition escape_dct (c : N) : option pystr :=
  if c =? 92 then Some [92; 92]
  else if c =? 34 then Some [92; 34]
  else if c =? 8 then Some [92; 98]
  else if c =? 12 then Some [92; 102]
  else if c =? 10 then Some [92; 110]
  else if c =? 13 then Some [92; 114]
  else if c =? 9 then Some [92; 116]
  else if c <? 32 then Some (u_escape c)
  else None.

(** [encode_basestring], the encoder of [ensure_ascii=False]: what
    [ESCAPE] matches is replaced, the rest is kept. *)
Definition escape_char (c : N) : pystr :=
  match escape_dct c with
  | Some e => e
  | None => [c]
  end.

Definition encode_basestring (s : pystr) : pystr :=
  34 :: flat_map escape_char s ++ [34].

(** [encode_basestring_ascii], the encoder of [ensure_ascii=True]: what
    is outside [' '..'~'] is escaped too, by a surrogate pair beyond the
    basic plane. *)
Definition escape_char_ascii (c : N) : pystr :=
  match escape_dct c with
  | Some e => e
  | None =>
      if (32 <=? c) && (c <=? 126) then [c]
      else if c <? 65536 then u_escape c
      else
        let n := c - 65536 in
        u_escape (N.lor 55296 (N.land (N.shiftr n 10) 1023))
        ++ u_escape (N.lor 56320 (N.land n 1023))
  end.

Definition encode_basestring_ascii (s : pystr) : pystr :=
  34 :: flat_map escape_char_ascii s ++ [34].

Section Encoder.

Variable codec : float_text.
Variable ensure_ascii : bool.

(** The width of [indent]: [_indent = ' ' * indent]. *)
Variable indent : nat.

Definition encoder (s : pystr) : pystr :=
  if ensure_ascii then encode_basestring_ascii s else encode_basestring s.

(** [floatstr], with [allow_nan] at its default. *)
Definition floatstr (f : spec_float) : pystr :=
  match f with
  | S754_nan => [78; 97; 78]
  | S754_infinity false => [73; 110; 102; 105; 110; 105; 116; 121]
  | S754_infinity true => [45; 73; 110; 102; 105; 110; 105; 116; 121]
  | _ => float_repr codec f
  end.

(** ['\n' + _indent * level] *)
Definition newline_indent (level : nat) : pystr :=
  10 :: repeat 32 (indent * level)%nat.

(** The values that make one chunk. *)
Definition atom (o : value) : option (outcome pystr) :=
  match o with
  | VStr s => Some (Returned (encoder s))
  | VNone => Some (Returned [110; 117; 108; 108])
  | VBool true => Some (Returned [116; 114; 117; 101])
  | VBool false => Some (Returned [102; 97; 108; 115; 101])
  | VInt z => Some (int_repr z)
  | VFloat f => Some (Returned (floatstr f))
  | VList _ | VDict _ => None
  end.

Definition prepend (buf : pystr) (c : outcome pystr) : outcome pystr :=
  match c with
  | Returned t => Returned (buf ++ t)
  | Raised e => Raised e
  end.

(** The loop of [_iterencode_list]: [buf] is yielded with an item that
    makes one chunk, and ahead of the chunks of a list or a dict. *)
Fixpoint list_chunks (enc : value -> list (outcome pystr))
         (sep : pystr) (buf : pystr) (lst : list value)
  : list (outcome pystr) :=
  match lst with
  | [] => []
  | value :: rest =>
      match atom value with
      | Some c => [prepend buf c]
      | None => Returned buf :: enc value
      end ++ list_chunks enc sep sep rest
  end.

(** The loop of [_iterencode_dict]. *)
Fixpoint dict_chunks (enc : value -> list (outcome pystr))
         (sep : pystr) (first : bool) (dct : list (pystr * value))
  : list (outcome pystr) :=
  match dct with
  | [] => []
  | kv :: rest =>
      (if first then [] else [Returned sep])
      ++ Returned (encoder (fst kv)) :: Returned [58; 32] :: enc (snd kv)
      ++ dict_chunks enc sep false rest
  end.

(** [_iterencode(o, level)], the chunks in the order they are yielded.
    A chunk that is [Raised] is the exception the generator stops with:
    what comes after it in the list is never asked for. *)
Fixpoint iterencode (level : nat) (o : value) {struct o}
  : list (outcome pystr) :=
  match o with
  | VList [] => [Returned [91; 93]]
  | VList lst =>
      list_chunks (iterencode (S level))
                  (44 :: newline_indent (S level))
                  (91 :: newline_indent (S level)) lst
      ++ [Returned (newline_indent level); Returned [93]]
  | VDict [] => [Returned [123; 125]]
  | VDict dct =>
      Returned [123] :: Returned (newline_indent (S level))
      :: dict_chunks (iterencode (S level))
                     (44 :: newline_indent (S level)) true dct
      ++ [Returned (newline_indent level); Returned [125]]
  | _ =>
      match atom o with
      | Some c => [c]
      | None => []
      end
  end.

End Encoder.

(** *** The text file, written *)

(** A code point that UTF-8 encodes: any but a surrogate. *)
Definition encodable (c : N) : bool :=
  (c <? 55296) || ((57343 <? c) && (c <? 1114112)).

Definition utf8_char (c : N) : list N :=
  if c <? 128 then [c]
  else if c <? 2048 then [192 + c / 64; 128 + c mod 64]
  else if c <? 65536 then
    [224 + c / 4096; 128 + (c / 64) mod 64; 128 + c mod 64]
  else
    [240 + c / 262144; 128 + (c / 4096) mod 64; 128 + (c / 64) mod 64;
     128 + c mod 64].

(** [text.encode('utf-8')], [None] for [UnicodeEncodeError]. *)
Definition encode_utf8 (s : pystr) : option (list N) :=
  if forallb encodable s then Some (flat_map utf8_char s) else None.

(** [for chunk in iterable: fp.write(chunk)] on a file opened with
    [encoding='utf-8'], up to its close: the bytes that reach the file
    and the exception that ended the loop, if one did.  A chunk is
    encoded as a whole when it is written, so what a failing chunk holds
    is not written, and what was written before it stays.  ([newline] is
    left at its default, on a system whose line separator is ['\n'].) *)
Fixpoint write_chunks (chunks : list (outcome pystr))
  : list N * option exn :=
  match chunks with
  | [] => ([], None)
  | Raised e :: _ => ([], Some e)
  | Returned t :: rest =>
      match encode_utf8 t with
      | None => ([], Some UnicodeEncodeError)
      | Some bytes =>
          let r := write_chunks rest in (bytes ++ fst r, snd r)
      end
  end.

(** [json.dump(obj, f, indent=indent, ensure_ascii=ensure_ascii)] on such
    a file, when the disk takes every write. *)
Definition dump (codec : float_text) (obj : value) (indent : Z)
           (ensure_ascii : bool) : list N * option exn :=
  write_chunks (iterencode codec ensure_ascii (Z.to_nat indent) 0 obj).

(** *** The text file, read *)

Definition continuation (b : N) : bool := (128 <=? b) && (b <? 192).

(** [bytes.decode('utf-8')], [None] for [UnicodeDecodeError]: no stray
    or missing continuation byte, no overlong form, no surrogate, nothing
    beyond U+10FFFF. *)
Fixpoint decode_utf8 (bs : list N) : option pystr :=
  match bs with
  | [] => Some []
  | b0 :: r0 =>
      if b0 <? 128 then option_map (cons b0) (decode_utf8 r0)
      else if b0 <? 194 then None
      else if b0 <? 224 then
        match r0 with
        | b1 :: r1 =>
            if continuation b1
            then option_map (cons ((b0 - 192) * 64 + (b1 - 128)))
                            (decode_utf8 r1)
            else None
        | _ => None
        end
      else if b0 <? 240 then
        match r0 with
        | b1 :: b2 :: r2 =>
            let c := (b0 - 224) * 4096 + (b1 - 128) * 64 + (b2 - 128) in
            if continuation b1 && continuation b2
               && (2048 <=? c) && encodable c
            then option_map (cons c) (decode_utf8 r2)
            else None
        | _ => None
        end
      else if b0 <? 245 then
        match r0 with
        | b1 :: b2 :: b3 :: r3 =>
            let c := (b0 - 240) * 262144 + (b1 - 128) * 4096
                     + (b2 - 128) * 64 + (b3 - 128) in
            if continuation b1 && continuation b2 && continuation b3
               && (65536 <=? c) && (c <? 1114112)
            then option_map (cons c) (decode_utf8 r3)
            else None
        | _ => None
        end
      else None
  end.

(** Reading in text mode with [newline] at its default: ['\r\n'] and
    ['\r'] come out as ['\n']. *)
Fixpoint universal_newlines (s : pystr) : pystr :=
  match s with
  | [] => []
  | c :: r =>
      if c =? 13 then
        match r with
        | d :: r' =>
            if d =? 10 then 10 :: universal_newlines r'
            else 10 :: universal_newlines r
        | [] => [10]
        end
      else c :: universal_newlines r
  end.

(** [open(path, encoding='utf-8').read()] *)
Definition read_text (bytes : list N) : option pystr :=
  option_map universal_newlines (decode_utf8 bytes).

(** *** The decoder *)

(** [WHITESPACE.match(s, end).end()] *)
Fixpoint skip_ws (s : pystr) : pystr :=
  match s with
  | c :: r => if is_ws c then skip_ws r else s
  | [] => []
  end.

(** The longest run of digits at the head of [s], and what follows. *)
Fixpoint span_digits (s : pystr) : pystr * pystr :=
  match s with
  | c :: r =>
      if is_digit c
      then let p := span_digits r in (c :: fst p, snd p)
      else ([], s)
  | [] => ([], [])
  end.

(** The integer part: [0], or a digit from [1] to [9] and the digits
    after it. *)
Definition scan_int (s : pystr) : option (pystr * pystr) :=
  match s with
  | c :: r =>
      if c =? 48 then Some ([48], r)
      else if is_digit c then Some (span_digits s)
      else None
  | [] => None
  end.

(** The fraction, if there is one: a point and the digits after it, one
    at least. *)
Definition scan_frac (s : pystr) : pystr * pystr :=
  match s with
  | c :: d :: r =>
      if (c =? 46) && is_digit d
      then let p := span_digits (d :: r) in (46 :: fst p, snd p)
      else ([], s)
  | _ => ([], s)
  end.

(** The exponent, if there is one: [e] or [E], a sign or none, and
    digits, one at least. *)
Definition scan_exp (s : pystr) : pystr * pystr :=
  match s with
  | c :: r =>
      if (c =? 101) || (c =? 69) then
        let signed :=
          match r with
          | g :: r' => if (g =? 45) || (g =? 43) then ([g], r') else ([], r)
          | [] => ([], r)
          end in
        let p := span_digits (snd signed) in
        match fst p with
        | [] => ([], s)
        | _ => (c :: fst signed ++ fst p, snd p)
        end
      else ([], s)
  | [] => ([], s)
  end.

(** [NUMBER_RE.match]: the text of the integer part, of the fraction and
    of the exponent, and what follows the number. *)
Definition scan_number (s : pystr)
  : option (pystr * pystr * pystr * pystr) :=
  let signed :=
    match s with
    | c :: r => if c =? 45 then ([45], r) else ([], s)
    | [] => ([], s)
    end in
  match scan_int (snd signed) with
  | None => None
  | Some (digits, s1) =>
      let f := scan_frac s1 in
      let e := scan_exp (snd f) in
      Some (fst signed ++ digits, fst f, fst e, snd e)
  end.

Definition is_nil (s : pystr) : bool :=
  match s with [] => true | _ => false end.

(** Four hexadecimal digits. *)
Definition hex4 (h1 h2 h3 h4 : N) : option N :=
  match hex_value h1, hex_value h2, hex_value h3, hex_value h4 with
  | Some a, Some b, Some c, Some d => Some (a * 4096 + b * 256 + c * 16 + d)
  | _, _, _, _ => None
  end.

(** [BACKSLASH] *)
Definition backslash (e : N) : option N :=
  if e =? 34 then Some 34
  else if e =? 92 then Some 92
  else if e =? 47 then Some 47
  else if e =? 98 then Some 8
  else if e =? 102 then Some 12
  else if e =? 110 then Some 10
  else if e =? 114 then Some 13
  else if e =? 116 then Some 9
  else None.

Definition high_surrogate (c : N) : bool := (55296 <=? c) && (c <=? 56319).
Definition low_surrogate (c : N) : bool := (56320 <=? c) && (c <=? 57343).

(** [scanstring(s, end, strict=True)], from the character after the
    opening quote: the string and what follows its closing quote. *)
Fixpoint scanstring (s : pystr) : option (pystr * pystr) :=
  match s with
  | [] => None
  | c :: r =>
      if c =? 34 then Some ([], r)
      else if c =? 92 then
        match r with
        | [] => None
        | e :: r1 =>
            if e =? 117 then
              match r1 with
              | h1 :: h2 :: h3 :: h4 :: r2 =>
                  match hex4 h1 h2 h3 h4 with
                  | None => None
                  | Some uni =>
                      let single :=
                        match scanstring r2 with
                        | Some (t, rest) => Some (uni :: t, rest)
                        | None => None
                        end in
                      if high_surrogate uni then
                        match r2 with
                        | b :: v :: r3 =>
                            if (b =? 92) && (v =? 117) then
                              match r3 with
                              | l1 :: l2 :: l3 :: l4 :: r4 =>
                                  match hex4 l1 l2 l3 l4 with
                                  | None => None
                                  | Some uni2 =>
                                      if low_surrogate uni2 then
                                        match scanstring r4 with
                                        | Some (t, rest) =>
                                            Some (65536
                                                  + (uni - 55296) * 1024
                                                  + (uni2 - 56320) :: t,
                                                  rest)
                                        | None => None
                                        end
                                      else single
                                  end
                              | _ => None
                              end
                            else single
                        | _ => single
                        end
                      else single
                  end
              | _ => None
              end
            else
              match backslash e with
              | None => None
              | Some ch =>
                  match scanstring r1 with
                  | Some (t, rest) => Some (ch :: t, rest)
                  | None => None
                  end
              end
        end
      else if c <? 32 then None
      else
        match scanstring r with
        | Some (t, rest) => Some (c :: t, rest)
        | None => None
        end
  end.

(** [dict(pairs)]: a key met again keeps its place and takes the new
    value. *)
Fixpoint dict_set (d : dict) (k : pystr) (v : value) : dict :=
  match d with
  | [] => [(k, v)]
  | (k', v') :: rest =>
      if str_eqb k' k then (k', v) :: rest
      else (k', v') :: dict_set rest k v
  end.

Definition dict_of_pairs (pairs : list (pystr * value)) : dict :=
  fold_left (fun d kv => dict_set d (fst kv) (snd kv)) pairs [].

Definition starts_with (prefix s : pystr) : option pystr :=
  if str_eqb (firstn (List.length prefix) s) prefix
  then Some (skipn (List.length prefix) s)
  else None.

Section Decoder.

Variable codec : float_text.

(** The constants, which the scanner tries when no number matches. *)
Definition scan_constant (s : pystr) : option (value * pystr) :=
  match starts_with [78; 97; 78] s with
  | Some r => Some (VFloat S754_nan, r)
  | None =>
  match starts_with [73; 110; 102; 105; 110; 105; 116; 121] s with
  | Some r => Some (VFloat (S754_infinity false), r)
  | None =>
  match starts_with [45; 73; 110; 102; 105; 110; 105; 116; 121] s with
  | Some r => Some (VFloat (S754_infinity true), r)
  | None => None
  end end end.

(** A number: [float] of its text when it has a fraction or an exponent,
    [int] of it otherwise. *)
Definition scan_numeric (s : pystr) : option (value * pystr) :=
  match scan_number s with
  | Some (integer, frac, exp, rest) =>
      if is_nil frac && is_nil exp then
        match int_of_text integer with
        | Some z => Some (VInt z, rest)
        | None => None
        end
      else Some (VFloat (float_of codec (integer ++ frac ++ exp)), rest)
  | None => scan_constant s
  end.

(** [scan_once], [JSONArray] from its first value on and [JSONObject]
    from the character after the opening quote of a key.  [None] stands
    for the exception raised.  The three call one another along the
    nesting of the text; [fuel] bounds the depth of the calls, and the
    length of the text is always enough. *)
Fixpoint scan_once (fuel : nat) (s : pystr) {struct fuel}
  : option (value * pystr) :=
  match fuel with
  | O => None
  | S fuel' =>
      match s with
      | [] => None
      | c :: r =>
          if c =? 34 then
            match scanstring r with
            | Some (t, rest) => Some (VStr t, rest)
            | None => None
            end
          else if c =? 123 then
            match skip_ws r with
            | c1 :: r1 =>
                if c1 =? 125 then Some (VDict [], r1)
                else if c1 =? 34 then
                  match json_object fuel' r1 with
                  | Some (pairs, rest) =>
                      Some (VDict (dict_of_pairs pairs), rest)
                  | None => None
                  end
                else None
            | [] => None
            end
          else if c =? 91 then
            match skip_ws r with
            | c1 :: r1 =>
                if c1 =? 93 then Some (VList [], r1)
                else
                  match json_array fuel' (c1 :: r1) with
                  | Some (values, rest) => Some (VList values, rest)
                  | None => None
                  end
            | [] => None
            end
          else
            match starts_with [110; 117; 108; 108] s with
            | Some rest => Some (VNone, rest)
            | None =>
            match starts_with [116; 114; 117; 101] s with
            | Some rest => Some (VBool true, rest)
            | None =>
            match starts_with [102; 97; 108; 115; 101] s with
            | Some rest => Some (VBool false, rest)
            | None => scan_numeric s
            end end end
      end
  end

with json_array (fuel : nat) (s : pystr) {struct fuel}
  : option (list value * pystr) :=
  match fuel with
  | O => None
  | S fuel' =>
      match scan_once fuel' s with
      | None => None
      | Some (v, r) =>
          match skip_ws r with
          | c :: r1 =>
              if c =? 93 then Some ([v], r1)
              else if c =? 44 then
                match json_array fuel' (skip_ws r1) with
                | Some (values, rest) => Some (v :: values, rest)
                | None => None
                end
              else None
          | [] => None
          end
      end
  end

with json_object (fuel : nat) (s : pystr) {struct fuel}
  : option (list (pystr * value) * pystr) :=
  match fuel with
  | O => None
  | S fuel' =>
      match scanstring s with
      | None => None
      | Some (key, r) =>
          match skip_ws r with
          | c :: r1 =>
              if c =? 58 then
                match scan_once fuel' (skip_ws r1) with
                | None => None
                | Some (v, r2) =>
                    match skip_ws r2 with
                    | c2 :: r3 =>
                        if c2 =? 125 then Some ([(key, v)], r3)
                        else if c2 =? 44 then
                          match skip_ws r3 with
                          | c3 :: r4 =>
                              if c3 =? 34 then
                                match json_object fuel' r4 with
                                | Some (pairs, rest) =>
                                    Some ((key, v) :: pairs, rest)
                                | None => None
                                end
                              else None
                          | [] => None
                          end
                        else None
                    | [] => None
                    end
                end
              else None
          | [] => None
          end
      end
  end.

(** [json.loads(s)]: no byte order mark, one value, and nothing but
    white space around it. *)
Definition loads (s : pystr) : option value :=
  match s with
  | 65279 :: _ => None
  | _ =>
      match scan_once (S (List.length s)) (skip_ws s) with
      | Some (v, rest) =>
          match skip_ws rest with
          | [] => Some v
          | _ => None
          end
      | None => None
      end
  end.

(** [json.load(open(path, encoding='utf-8'))] on a file that holds
    [bytes]. *)
Definition load (bytes : list N) : option value :=
  match read_text bytes with
  | Some s => loads s
  | None => None
  end.

End Decoder.

(** *** What is written whole and read back

    [text] is what [json.dumps(o, indent=indent, ensure_ascii=False)]
    returns, the chunks joined, for an object whose integers are within
    the digit limit. *)

Section Text.

Variable codec : float_text.
Variable indent : nat.

Definition int_text (z : Z) : pystr :=
  match int_repr z with
  | Returned t => t
  | Raised _ => []
  end.

Fixpoint text (level : nat) (o : value) {struct o} : pystr :=
  match o with
  | VNone => [110; 117; 108; 108]
  | VBool true => [116; 114; 117; 101]
  | VBool false => [102; 97; 108; 115; 101]
  | VInt z => int_text z
  | VFloat f => floatstr codec f
  | VStr s => encode_basestring s
  | VList [] => [91; 93]
  | VList (x :: xs) =>
      91 :: newline_indent indent (S level) ++ text (S level) x
      ++ flat_map (fun y => 44 :: newline_indent indent (S level)
                            ++ text (S level) y) xs
      ++ newline_indent indent level ++ [93]
  | VDict [] => [123; 125]
  | VDict (kv :: d) =>
      123 :: newline_indent indent (S level)
      ++ encode_basestring (fst kv) ++ [58; 32] ++ text (S level) (snd kv)
      ++ flat_map (fun kv => 44 :: newline_indent indent (S level)
                             ++ encode_basestring (fst kv) ++ [58; 32]
                             ++ text (S level) (snd kv)) d
      ++ newline_indent indent level ++ [125]
  end.

End Text.

Definition float_same (a b : spec_float) : bool :=
  match a, b with
  | S754_zero s, S754_zero t => Bool.eqb s t
  | S754_infinity s, S754_infinity t => Bool.eqb s t
  | S754_nan, S754_nan => true
  | S754_finite s m e, S754_finite t n x =>
      Bool.eqb s t && (m =? n)%positive && (e =? x)%Z
  | _, _ => false
  end.

(** The two conversions agree on [f]: [repr(f)] is the text of a number
    with a fraction or an exponent, and [float(repr(f))] is [f]. *)
Definition float_ok (codec : float_text) (f : spec_float) : bool :=
  match f with
  | S754_nan | S754_infinity _ => true
  | _ =>
      match scan_number (float_repr codec f) with
      | Some (_, frac, exp, []) => negb (is_nil frac && is_nil exp)
      | _ => false
      end
      && float_same (float_of codec (float_repr codec f)) f
  end.

Fixpoint distinct_keys (d : list (pystr * value)) : bool :=
  match d with
  | [] => true
  | kv :: rest =>
      negb (existsb (fun kv' => str_eqb (fst kv') (fst kv)) rest)
      && distinct_keys rest
  end.

(** An object that [json.dump] writes whole to a UTF-8 file and that
    [json.load] reads back: no surrogate in a string or in a key,
    integers within the digit limit, and floats on which the two
    conversions agree.  (That the keys of a [dict] differ, and that a code
    point is below 1114112, Python sees to.) *)
Fixpoint storable (codec : float_text) (o : value) {struct o} : bool :=
  match o with
  | VNone | VBool _ => true
  | VInt z => match int_repr z with Returned _ => true | Raised _ => false end
  | VFloat f => float_ok codec f
  | VStr s => forallb encodable s
  | VList l => forallb (storable codec) l
  | VDict d =>
      distinct_keys d
      && forallb (fun kv => forallb encodable (fst kv)
                            && storable codec (snd kv)) d
  end.

(** *** The file, after a run

    The file at [path] as the events of a run in the world [w] leave it.
    [open(path, 'w', encoding='utf-8')] makes it or empties it, unless
    the world refuses the opening.  [json.dump] adds what it writes: all
    of the text when the world reports no failure, and what comes before
    the failing chunk when the failure is the library's own.  [None] is a
    file that no event has opened, and also a file of which this model
    does not tell the content: one opened with another encoding, or one
    on which the disk gave way at a point that is not known. *)
Definition file_step (codec : float_text) (w : Eff.env) (path : pystr)
           (content : option (list N)) (ev : Eff.event)
  : option (list N) :=
  match ev with
  | Eff.OpenWrite p encoding =>
      if str_eqb p path then
        match Eff.fs_open w p with
        | Some _ => content
        | None => if str_eqb encoding (u"utf-8") then Some [] else None
        end
      else content
  | Eff.JsonDump p obj indent ensure_ascii =>
      if str_eqb p path then
        match Eff.fs_dump w p obj, snd (dump codec obj indent ensure_ascii)
        with
        | None, None | Some _, Some _ =>
            option_map
              (fun old => old ++ fst (dump codec obj indent ensure_ascii))
              content
        | _, _ => None
        end
      else content
  | _ => content
  end.

Definition file_after (codec : float_text) (w : Eff.env) (path : pystr)
           (t : Eff.trace) : option (list N) :=
  fold_left (file_step codec w path) t None.

(** *** Examples *)

(** The two conversions on the floats of the examples ([0.0], [-0.0],
    [0.5], [1.0]); elsewhere [float_ok] does not hold of this table. *)
Definition float_half : spec_float := S754_finite false 4503599627370496 (-53).

Definition float_one : spec_float := S754_finite false 4503599627370496 (-52).

Definition few_floats : float_text :=
  {| float_repr := fun f =>
       match f with
       | S754_zero true => [45; 48; 46; 48]
       | S754_finite false 4503599627370496 (-53)%Z => [48; 46; 53]
       | S754_finite false 4503599627370496 (-52)%Z => [49; 46; 48]
       | _ => [48; 46; 48]
       end;
     float_of := fun s =>
       if str_eqb s [45; 48; 46; 48] then S754_zero true
       else if str_eqb s [48; 46; 53] then float_half
       else if str_eqb s [49; 46; 48] then float_one
       else S754_zero false |}.

(** A world whose service answers with [body] and whose disk takes every
    write, so that [json.dump] fails when the library itself does, and
    then only. *)
Definition library_disk (codec : float_text) (body : value) : Eff.env :=
  {| Eff.http := fun _ _ _ =>
       Returned {| Eff.status_code := 200; Eff.json_body := Returned body |};
     Eff.fs_mkdir := fun _ _ _ => None;
     Eff.fs_open := fun _ => None;
     Eff.fs_dump := fun _ obj => snd (dump codec obj 2 false);
     Eff.order := insertion_order |}.

(** One set, whose name is the lone surrogate U+D800 (the JSON text
    ["\ud800"], decoded). *)
Definition lone_surrogate : value :=
  VDict [(u"data",
          VList [VDict [(u"code", VStr (u"inr"));
                        (u"name", VStr [55296])]])].

(** A summary with text beyond ASCII, a float, and nesting. *)
Definition small_summary : value :=
  VDict [(u"total_sets", VInt 2);
         (u"structure_keys", VList [VStr (u"data"); VStr (u"has_more")]);
         (u"sample_sets",
          VList [VDict [(u"name", VStr (u"Æther Revolt — promo"));
                        (u"card_count", VInt 184);
                        (u"price", VFloat float_half);
                        (u"digital", VBool false);
                        (u"block", VNone)]]);
         (u"set_types", VList []);
         (u"date_range", VDict [])].

End Json.

(* ================================================================= *)
(** ** Properties *)

Import Py Eff Explorer.
Unset Implicit Arguments.
Open Scope string_scope.
Open Scope list_scope.
Open Scope eff_scope.

Arguments u : simpl never.

(** *** Vocabulary of the statements *)

(** **** The methods without their log lines *)

(** What [_make_request] returns is decided by the world alone. *)
Definition fetched (w : env) (url : pystr) (params : value)
  : outcome value :=
  match http w url params 30 with
  | Raised e => if caught e then Returned VNone else Raised e
  | Returned r =>
      if error_status (status_code r) then Returned VNone
      else match json_body r with
           | Raised e => if caught e then Returned VNone else Raised e
           | Returned v => Returned v
           end
  end.

(** The trace of one call: the prologue of the [try] block, then what the
    answer leads to. *)
Definition prologue (self : ScryfallExplorer) (url : pystr) (params : value)
  : trace :=
  Log INFO [T (u"Fazendo requisição para: "); T url]
  :: (if truthy params then [Log INFO [T (u"Parâmetros: "); V params]]
      else [])
  ++ [Sleep (request_delay self);
      HttpGet url (headers self) params 30].

Definition handled (url : pystr) (e : exn) : trace :=
  if isinstance e BRequestException then
    [Log ERROR [T (u"Erro na requisição para "); T url; T (u": "); X e]]
  else if isinstance e BJSONDecodeError then
    [Log ERROR [T (u"Erro ao decodificar JSON de "); T url; T (u": "); X e]]
  else [].

Definition epilogue (w : env) (url : pystr) (params : value) : trace :=
  match http w url params 30 with
  | Raised e => handled url e
  | Returned r =>
      if error_status (status_code r) then handled url HTTPError
      else
        Log SUCCESS [T (u"Requisição bem-sucessida - Status: ");
                     V (VInt (status_code r))]
        :: match json_body r with
           | Raised e => handled url e
           | Returned _ => []
           end
  end.

(** [explore_sets] after the fetch, without its log lines. *)
Definition analyse_sets (ord : set_order) (sets_data : value) (limit : Z)
  : outcome value :=
  obind (get sets_data (u"data") (VList [])) (fun data =>
  obind (len data) (fun total_sets =>
  obind (list_keys sets_data) (fun structure_keys =>
  obind (getslice data limit) (fun front =>
  obind (iter front) (fun items =>
  obind (for_each sets_body (SetsAcc [] [] VNone VNone) items) (fun acc =>
  Returned
    (VDict [(u"total_sets", VInt total_sets);
            (u"structure_keys", structure_keys);
            (u"sample_sets", VList (sample_sets acc));
            (u"set_types", VList (enumerate ord (set_types acc)));
            (u"date_range",
             VDict [(u"oldest", oldest acc); (u"newest", newest acc)])]))))))).

(** [explore_cards] after the fetch, without its log lines. *)
Definition analyse_cards (ord : set_order) (cards_data : value) (limit : Z)
  : outcome value :=
  obind (get cards_data (u"total_cards") (VInt 0)) (fun total_cards =>
  obind (get cards_data (u"has_more") (VBool false)) (fun has_more =>
  obind (list_keys cards_data) (fun structure_keys =>
  obind (get cards_data (u"data") (VList [])) (fun data =>
  obind (getslice data limit) (fun front =>
  obind (iter front) (fun items =>
  obind (for_each cards_body (CardsAcc [] [] [] [] []) items) (fun acc =>
  Returned
    (VDict [(u"total_cards", total_cards);
            (u"has_more", has_more);
            (u"structure_keys", structure_keys);
            (u"sample_cards", VList (sample_cards acc));
            (u"card_types", VList (enumerate ord (card_types acc)));
            (u"colors", VList (enumerate ord (colors acc)));
            (u"rarities", VList (enumerate ord (rarities acc)));
            (u"languages", VList (enumerate ord (languages acc)))])))))))).

Definition analyse (ord : set_order) (a : analyzer) (payload : value)
  : outcome value :=
  match a with
  | Sets limit => analyse_sets ord payload limit
  | Cards _ limit => analyse_cards ord payload limit
  end.

(** **** Sample worlds and payloads *)

(** A 300 answer with a JSON body. *)
Definition multiple_choices : env :=
  world insertion_order
        (Returned (Response 300 (Returned (obj [("object", str "list")]))))
        None None None.

(** A 200 answer whose body holds an integer of more than 4300 digits:
    [json] refuses the conversion with a plain [ValueError], which is not
    a [JSONDecodeError], and [Response.json] rewraps the latter only. *)
Definition oversized_number : env :=
  world insertion_order (Returned (Response 200 (Raised ValueError)))
        None None None.

(** One set that has no [set_type]. *)
Definition untyped_set : value :=
  obj [("data", VList [obj [("code", str "inr")]])].

(** One card, typed with the dash that Scryfall uses (U+2014). *)
Definition wizard : value :=
  obj [("data",
        VList [obj [("name", str "Apprentice");
                    ("type_line", str "Creature — Human Wizard")]])].

(** **** Payloads the analyzers are written for *)

Definition is_str (v : value) : bool :=
  match v with VStr _ => true | _ => false end.

(** [e.get(k)] on an entry. *)
Definition entry_get (k : string) (e : value) : value :=
  match e with
  | VDict d => match lookup (u k) d with Some v => v | None => VNone end
  | _ => VNone
  end.

(** The collection field of a payload, [[]] when the key is absent. *)
Definition collection (d : dict) : option (list value) :=
  match lookup (u"data") d with
  | None => Some []
  | Some (VList l) => Some l
  | Some _ => None
  end.

(** A set entry: an object whose [set_type] can go into a set and whose
    [released_at], when it counts, is a string. *)
Definition set_entry_ok (e : value) : bool :=
  match e with
  | VDict _ =>
      hashable (entry_get "set_type" e)
      && (negb (truthy (entry_get "released_at" e))
          || is_str (entry_get "released_at" e))
  | _ => false
  end.

(** [oldest] and [newest] are unset, or non-empty strings. *)
Definition bound_ok (v : value) : Prop :=
  v = VNone \/ exists s, v = VStr s /\ s <> [].

Definition range_ok (acc : sets_acc) : Prop :=
  bound_ok (oldest acc) /\ bound_ok (newest acc).

(** [oldest <= s <= newest] *)
Definition within (o n : value) (s : pystr) : Prop :=
  exists so sn,
    o = VStr so /\ n = VStr sn /\
    str_leb so s = true /\ str_leb s sn = true.

(** The payload of two sets. *)
Definition set_inr : value :=
  obj [("code", str "inr"); ("set_type", str "expansion");
       ("released_at", str "2023-01-01")].

Definition set_mh1 : value :=
  obj [("code", str "mh1"); ("set_type", str "masters");
       ("released_at", str "2019-03-15")].

Definition two_sets : dict := [(u"data", VList [set_inr; set_mh1])].

(** A set whose release date is the empty string, then a dated one. *)
Definition blank_date : dict :=
  [(u"data", VList [obj [("code", str "tst"); ("released_at", VStr [])];
                    obj [("code", str "inr");
                         ("released_at", str "2023-01-01")]])].

Definition all_str (s : list value) : Prop :=
  Forall (fun v => is_str v = true) s.

Definition addable (v : value) : bool := negb (truthy v) || hashable v.

Definition color_list_ok (v : value) : bool :=
  negb (truthy v)
  || match v with VList l => forallb is_str l | _ => false end.

(** A card: an object whose [type_line], when it counts, is a string,
    whose [colors], when they count, are a list of strings, and whose
    [rarity] and [lang], when they count, can go into a set. *)
Definition card_ok (c : value) : bool :=
  match c with
  | VDict _ =>
      (negb (truthy (entry_get "type_line" c))
       || is_str (entry_get "type_line" c))
      && addable (entry_get "rarity" c)
      && color_list_ok (entry_get "colors" c)
      && addable (entry_get "lang" c)
  | _ => false
  end.

(** The color list of a card, empty when the card has none. *)
Definition colors_of (c : value) : list value :=
  match entry_get "colors" c with
  | VList l => l
  | _ => []
  end.

(** A payload of three cards: red, colorless, red and green. *)
Definition card_bolt : value :=
  obj [("name", str "Bolt"); ("type_line", str "Instant");
       ("rarity", str "common"); ("colors", VList [str "R"]);
       ("lang", str "en")].

Definition card_ring : value :=
  obj [("name", str "Ring"); ("type_line", str "Artifact");
       ("colors", VList [])].

Definition card_charm : value :=
  obj [("name", str "Charm"); ("colors", VList [str "R"; str "G"])].

Definition three_cards : dict :=
  [(u"object", str "list"); (u"total_cards", VInt 3);
   (u"data", VList [card_bolt; card_ring; card_charm])].

(** **** Events by kind, and what a fetch lets through *)


Definition is_log (ev : event) : bool :=
  match ev with Log _ _ => true | _ => false end.

Definition is_error_log (ev : event) : bool :=
  match ev with Log ERROR _ => true | _ => false end.

(** The exception a GET to [url] lets through to the caller, if any: one
    raised by the transport or by the decoder that neither [except]
    clause names. *)
Definition escaping (w : env) (url : pystr) (params : value)
  : option exn :=
  match http w url params 30 with
  | Raised e => if caught e then None else Some e
  | Returned r =>
      if error_status (status_code r) then None
      else match json_body r with
           | Raised e => if caught e then None else Some e
           | Returned _ => None
           end
  end.

(** [m] only adds events that satisfy [P] to the trace, in every world. *)
Definition emits {A} (P : event -> Prop) (m : M A) : Prop :=
  forall w t, exists evs, snd (m w t) = t ++ evs /\ Forall P evs.

(** **** Payloads the analyzers are not written for *)

Definition is_dict (v : value) : bool :=
  match v with VDict _ => true | _ => false end.

(** What [data[:limit]] raises when [data] is no sequence. *)
Definition slice_error (data : value) : option exn :=
  match data with
  | VNone | VBool _ | VInt _ | VFloat _ => Some TypeError
  | VDict _ => Some KeyError
  | VStr _ | VList _ => None
  end.

(** What the loop of [explore_sets] raises on an entry that is no object,
    or whose [set_type] cannot go into a set. *)
Definition set_entry_error (e : value) : option exn :=
  match e with
  | VDict _ =>
      if hashable (entry_get "set_type" e) then None else Some TypeError
  | _ => Some AttributeError
  end.

(** What the loop of [explore_cards] raises on a card that is no object,
    or whose [type_line] counts and is no string. *)
Definition card_error (c : value) : option exn :=
  match c with
  | VDict _ =>
      if truthy (entry_get "type_line" c)
         && negb (is_str (entry_get "type_line" c))
      then Some AttributeError else None
  | _ => Some AttributeError
  end.

(** **** What sets of plain values hold *)

(** [None] or a string: the values whose membership in a set is
    membership in its list of members. *)
Definition simple (v : value) : bool :=
  match v with VNone | VStr _ => true | _ => false end.

Definition all_simple (s : list value) : Prop :=
  Forall (fun v => simple v = true) s.

(** A set entry whose [set_type] is a string or missing. *)
Definition set_entry_plain (e : value) : bool :=
  set_entry_ok e && simple (entry_get "set_type" e).

(** The entries whose [released_at] counts. *)
Definition dated (e : value) : bool := truthy (entry_get "released_at" e).

(** [d.get(k, default)] on the fields of an object. *)
Definition entry_or (default : value) (k : string) (d : dict) : value :=
  match lookup (u k) d with Some v => v | None => default end.

(** A bound after the loop is the bound before it, or the release date
    of one of the dated items. *)
Definition reached (before after : value) (items : list value) : Prop :=
  after = before \/
  exists e, In e items /\ dated e = true /\
            after = entry_get "released_at" e.

(** **** What a card contributes to the sets *)

(** [type_line.split('-')[0].strip()] *)
Definition bucket_of (t : pystr) : pystr := strip (hd [] (split hyphen t)).

(** The bucket of a card: one, when its [type_line] counts. *)
Definition type_buckets (c : value) : list value :=
  match entry_get "type_line" c with
  | VStr t => if truthy (VStr t) then [VStr (bucket_of t)] else []
  | _ => []
  end.

(** The value of field [k] of a card, when it counts. *)
Definition counted (k : string) (c : value) : list value :=
  if truthy (entry_get k c) then [entry_get k c] else [].

(** A card whose [rarity] and [lang], when they count, are strings. *)
Definition card_plain (c : value) : bool :=
  card_ok c
  && (negb (truthy (entry_get "rarity" c)) || is_str (entry_get "rarity" c))
  && (negb (truthy (entry_get "lang" c)) || is_str (entry_get "lang" c)).

(** **** Events that open or dump a file

    The logger has sinks of its own (the module adds
    [logs/api_exploration.log] when it is loaded), so a [Log] event does
    reach a file; what follows speaks of the files the code itself opens
    with [open] and hands to [json.dump]. *)

(** An event of the network or of the log: nothing is made, opened or
    dumped by the code. *)
Definition quiet (ev : event) : Prop :=
  match ev with
  | Log _ _ | Sleep _ | HttpGet _ _ _ _ => True
  | _ => False
  end.

(** An event that opens with [open] or dumps with [json.dump] no file
    but [path]. *)
Definition writes_only (path : pystr) (ev : event) : Prop :=
  match ev with
  | OpenWrite p _ => p = path
  | JsonDump p _ _ _ => p = path
  | _ => True
  end.

Definition is_dump (ev : event) : bool :=
  match ev with JsonDump _ _ _ _ => true | _ => false end.

(** The one file [main] writes. *)
Definition sets_path : pystr :=
  u"data/exploration/" ++ u"sets_analysis.json".

(** *** The monad, run *)

Section Running.
Context {A B : Type}.

Lemma run_bind_lift (o : outcome A) (k : A -> M B) w t :
  bind (lift o) k w t =
  match o with
  | Returned a => k a w t
  | Raised e => (Raised e, t)
  end.
Proof. unfold bind, lift. destruct o; reflexivity. Qed.

Lemma run_bind_returned (a : A) (k : A -> M B) w t :
  bind (lift (Returned a)) k w t = k a w t.
Proof. reflexivity. Qed.

Lemma run_bind_log lvl msg (k : unit -> M B) w t :
  bind (log lvl msg) k w t = k tt w (t ++ [Log lvl msg]).
Proof. reflexivity. Qed.

End Running.

(** *** [_make_request] *)

Lemma make_request_run self endpoint params w t :
  let url := (base_url self ++ endpoint)%list in
  _make_request self endpoint params w t =
  (fetched w url params,
   t ++ prologue self url params ++ epilogue w url params)%list.
Proof.
  unfold fetched, epilogue, prologue, error_status, _make_request, try_except,
    session_get, raise_for_status, response_json, sleep, log, bind, emit,
    ask, lift, ret.
  cbv zeta.
  destruct (truthy params);
    (destruct (http w _ params 30) as [r | e];
     [ destruct ((400 <=? status_code r)%Z && (status_code r <? 600)%Z);
       [ | destruct (json_body r) as [v | e]; [ | destruct e ] ]
     | destruct e ]);
    cbn; repeat rewrite <- app_assoc; reflexivity.
Qed.

Lemma make_request_fetched self endpoint params w t :
  fst (_make_request self endpoint params w t) =
  fetched w (base_url self ++ endpoint)%list params.
Proof. rewrite make_request_run. reflexivity. Qed.

Lemma handled_caught url e :
  caught e = true ->
  exists msg, handled url e = [Log ERROR msg] /\ In (X e) msg.
Proof.
  unfold caught, handled. intros H.
  destruct e; try discriminate H;
    eexists; (split; [reflexivity | simpl; tauto]).
Qed.

(** C6, as the code has it.  When the transport raises a
    [RequestException] (connection error, timeout), or the status is an
    error status (4xx, 5xx: those [raise_for_status] raises for), or
    decoding the body raises a [JSONDecodeError] ([json]'s or the one of
    [requests]), [_make_request] returns [None]; the last event of the
    call is an ERROR log line that carries the exception; nothing is
    raised.  These are the failures [fetch_failure] names. *)
Theorem make_request_fails_soft self endpoint params w t e :
  fetch_failure w (base_url self ++ endpoint)%list params = Some e ->
  exists mid msg,
    _make_request self endpoint params w t =
      (Returned VNone, t ++ mid ++ [Log ERROR msg])%list /\
    In (X e) msg.
Proof.
  intros H. rewrite make_request_run. cbv zeta.
  unfold fetch_failure in H. unfold fetched, epilogue.
  set (url := (base_url self ++ endpoint)%list) in *.
  destruct (http w url params 30) as [r | e0].
  - destruct (error_status (status_code r)).
    + injection H as <-.
      destruct (handled_caught url HTTPError eq_refl) as (msg & -> & Hin).
      exists (prologue self url params), msg. split; [reflexivity | exact Hin].
    + destruct (json_body r) as [v | e0]; [discriminate |].
      destruct (caught e0) eqn:Hc; [| discriminate]. injection H as <-.
      destruct (handled_caught url _ Hc) as (msg & -> & Hin).
      exists (prologue self url params ++
              [Log SUCCESS [T (u"Requisição bem-sucessida - Status: ");
                            V (VInt (status_code r))]])%list, msg.
      split; [| exact Hin].
      rewrite <- app_assoc. reflexivity.
  - destruct (caught e0) eqn:Hc; [| discriminate]. injection H as <-.
    destruct (handled_caught url _ Hc) as (msg & -> & Hin).
    exists (prologue self url params), msg. split; [reflexivity | exact Hin].
Qed.

(** *** The analyzers as reductions of the payload *)

Ltac step_lift :=
  first
    [ rewrite run_bind_returned
    | rewrite run_bind_lift;
      match goal with
      | |- context [match ?o with Returned _ => _ | Raised _ => _ end] =>
          destruct o; cbn [obind fst]; [| reflexivity]
      end ].

Lemma explore_sets_result self limit w t :
  fst (explore_sets self limit w t) =
  obind (fetched w (base_url self ++ u"/sets")%list VNone) (fun v =>
    if negb (truthy v) then Returned sets_error
    else analyse_sets (order w) v limit).
Proof.
  unfold explore_sets, analyse_sets. rewrite run_bind_log.
  unfold bind at 1. rewrite make_request_run. cbv zeta.
  destruct (fetched w _ VNone) as [v | e]; [| reflexivity].
  cbn [obind]. destruct (truthy v); [| reflexivity]. cbn [negb].
  repeat step_lift. reflexivity.
Qed.

Lemma explore_cards_result self set_core limit w t :
  fst (explore_cards self set_core limit w t) =
  obind (fetched w (base_url self ++ u"/cards/search")%list
           (params_of (Cards set_core limit))) (fun v =>
    if negb (truthy v) then Returned (cards_error set_core)
    else analyse_cards (order w) v limit).
Proof.
  unfold explore_cards, analyse_cards. rewrite run_bind_log.
  unfold bind at 1. rewrite make_request_run. cbv zeta.
  unfold params_of.
  destruct (fetched w _ _) as [v | e]; [| reflexivity].
  cbn [obind]. destruct (truthy v); [| reflexivity]. cbn [negb].
  repeat step_lift. reflexivity.
Qed.

(** Both analyzers: fetch, test the payload for truth, reduce it. *)
Lemma explore_result self a w :
  result (explore self a) w =
  obind (result (_make_request self (endpoint_of a) (params_of a)) w)
    (fun v => if negb (truthy v) then Returned (fetch_error a)
              else analyse (order w) a v).
Proof.
  unfold result, run. rewrite make_request_fetched.
  destruct a; cbn [explore endpoint_of fetch_error analyse].
  - apply explore_sets_result.
  - apply explore_cards_result.
Qed.

(** *** Failed and empty fetches *)

Lemma explore_falsy self a w v :
  result (_make_request self (endpoint_of a) (params_of a)) w = Returned v ->
  truthy v = false ->
  result (explore self a) w = Returned (fetch_error a).
Proof.
  intros Hv Hf. rewrite explore_result, Hv. cbn [obind].
  rewrite Hf. reflexivity.
Qed.

Lemma fetch_error_shape a :
  exists msg, fetch_error a = VDict [(u"error", VStr msg)] /\ msg <> [].
Proof.
  destruct a; eexists; (split; [reflexivity |]).
  - vm_compute. discriminate.
  - unfold u. cbn. discriminate.
Qed.

(** C5.  When the fetch returns [None], [explore_sets] and
    [explore_cards] return (they do not raise) a dictionary whose one
    key is ["error"], with a non-empty text as its value. *)
Theorem explore_fetch_failed self a w :
  result (_make_request self (endpoint_of a) (params_of a)) w
    = Returned VNone ->
  exists msg,
    result (explore self a) w = Returned (VDict [(u"error", VStr msg)]) /\
    msg <> [].
Proof.
  intros H. destruct (fetch_error_shape a) as (msg & E & Hne).
  exists msg. split; [| exact Hne].
  rewrite <- E. apply explore_falsy with (v := VNone); [exact H | reflexivity].
Qed.

Lemma explore_fetch_failed_witness :
  exists msg,
    result (explore_sets explorer0 5) (unreachable Timeout)
      = Returned (VDict [(u"error", VStr msg)]) /\ msg <> [].
Proof.
  apply (@explore_fetch_failed explorer0 (Sets 5) (unreachable Timeout)).
  reflexivity.
Defined.



(** *** [_make_request] fails soft *)

Lemma make_request_fails_soft_witness :
  exists mid msg,
    _make_request explorer0 (u"/sets") VNone (unreachable ConnectionError) []
      = (Returned VNone, [] ++ mid ++ [Log ERROR msg])%list /\
    In (X ConnectionError) msg.
Proof.
  apply (@make_request_fails_soft explorer0 (u"/sets") VNone
           (unreachable ConnectionError) [] ConnectionError).
  reflexivity.
Defined.

(** C6 as stated fails twice.  Status 300 is not a 2xx status, yet
    [raise_for_status] lets it pass: the body is returned and no ERROR
    line is logged.  And a body whose decoding fails with an exception
    that is not a [JSONDecodeError] meets neither [except] clause: the
    exception leaves [_make_request]. *)
Lemma make_request_status_300 :
  ~ (200 <= 300 < 300)%Z /\
  http multiple_choices (u"https://api.scryfall.com/sets") VNone 30
    = Returned (Response 300 (Returned (obj [("object", str "list")]))) /\
  result (_make_request explorer0 (u"/sets") VNone) multiple_choices
    = Returned (obj [("object", str "list")]) /\
  (forall msg,
     ~ In (Log ERROR msg)
          (snd (run (_make_request explorer0 (u"/sets") VNone)
                    multiple_choices))) /\
  http oversized_number (u"https://api.scryfall.com/sets") VNone 30
    = Returned (Response 200 (Raised ValueError)) /\
  result (_make_request explorer0 (u"/sets") VNone) oversized_number
    = Raised ValueError.
Proof.
  split; [lia |]. split; [reflexivity |]. split; [reflexivity |].
  split; [| split; reflexivity].
  intros msg. vm_compute.
  intros [H | [H | [H | [H | []]]]]; discriminate H.
Qed.

(** *** [save_exploration_results] *)

(** C2, as the code has it.  The first effect is the creation of
    [data/exploration] with [parents=True, exist_ok=True].  Once the
    directory is there, a failure to open or to write the file (any
    [Exception]) is logged at level ERROR and nothing is raised; the
    method returns [None] then, as it does after a successful write. *)
Theorem save_results_soft self results filename w t :
  fs_mkdir w (u"data/exploration") true true = None ->
  (forall e,
     write_failure w (u"data/exploration/" ++ filename) results = Some e ->
     isinstance e BException = true) ->
  exists mid,
    save_exploration_results self results filename w t =
    (Returned VNone,
     t ++ Mkdir (u"data/exploration") true true :: mid ++
       [match write_failure w (u"data/exploration/" ++ filename) results with
        | Some e =>
            Log ERROR [T (u"Erro ao salvar ");
                       T (u"data/exploration/" ++ filename); T (u": "); X e]
        | None =>
            Log SUCCESS [T (u"Resultados salvos em: ");
                         T (u"data/exploration/" ++ filename)]
        end]).
Proof.
  intros Hmk Hexn.
  unfold save_exploration_results, write_failure, mkdir, open_write,
    json_dump, try_except, throw_if, log, bind, emit, ask, lift, ret in *.
  rewrite Hmk.
  set (filepath := u"data/exploration/" ++ filename) in *.
  destruct (fs_open w filepath) as [e |] eqn:Hop.
  - rewrite (Hexn e eq_refl).
    exists [OpenWrite filepath (u"utf-8")].
    cbn. repeat rewrite <- app_assoc. reflexivity.
  - destruct (fs_dump w filepath results) as [e |] eqn:Hdu.
    + rewrite (Hexn e eq_refl).
      exists [OpenWrite filepath (u"utf-8"); JsonDump filepath results 2 false].
      cbn. repeat rewrite <- app_assoc. reflexivity.
    + exists [OpenWrite filepath (u"utf-8"); JsonDump filepath results 2 false].
      cbn. repeat rewrite <- app_assoc. reflexivity.
Qed.

Lemma save_results_soft_witness :
  exists mid,
    save_exploration_results explorer0 sets_error (u"sets_analysis.json")
      (disk None (Some PermissionError) None) [] =
    (Returned VNone,
     [] ++ Mkdir (u"data/exploration") true true :: mid ++
       [Log ERROR [T (u"Erro ao salvar ");
                   T (u"data/exploration/" ++ u"sets_analysis.json");
                   T (u": "); X PermissionError]]).
Proof.
  apply (@save_results_soft explorer0 sets_error (u"sets_analysis.json")
           (disk None (Some PermissionError) None) []).
  - reflexivity.
  - intros e H. vm_compute in H. injection H as <-. reflexivity.
Defined.

(** C2 as stated fails twice over.  A failure of the directory creation
    is raised to the caller: [mkdir] stands before the [try].  And a
    failed write returns what a successful write returns, [None]: the
    caller is given no failure indicator. *)
Lemma save_results_no_indicator :
  result (save_exploration_results explorer0 sets_error
            (u"sets_analysis.json"))
         (disk (Some PermissionError) None None)
    = Raised PermissionError /\
  result (save_exploration_results explorer0 sets_error
            (u"sets_analysis.json"))
         (disk None (Some PermissionError) None)
    = result (save_exploration_results explorer0 sets_error
                (u"sets_analysis.json"))
             (disk None None None).
Proof. split; reflexivity. Qed.

(** *** Evaluations *)

Lemma enumerate_singleton (ord : set_order) v : enumerate ord [v] = [v].
Proof.
  apply Permutation_length_1_inv, Permutation_sym, enumerate_perm.
Qed.

(** C8 fails on the code.  [explore_sets] adds [set_data.get('set_type')]
    to [set_types] without testing it, so an entry that has no [set_type]
    puts [None] among the set types: here [set_types] is [[None]], whatever
    the enumeration order. *)
Theorem explore_sets_untyped (ord : set_order) :
  exists a,
    result (explore_sets explorer0 5) (serving ord untyped_set) = Returned a /\
    field "set_types" a = Some (VList [VNone]) /\
    (forall s, VNone <> VStr s).
Proof.
  eexists. split; [| split].
  - change (explore_sets explorer0 5) with (explore explorer0 (Sets 5)).
    rewrite explore_result. cbv -[enumerate].
    rewrite enumerate_singleton. reflexivity.
  - reflexivity.
  - discriminate.
Qed.

(** C1 fails on the code.  [split('-')] splits at the hyphen-minus
    (U+002D) and at nothing else: a type line that uses the em dash is not
    split, so ["Creature — Human Wizard"] is bucketed under itself, not
    under ["Creature"], and the bucket contains the dash. *)
Theorem explore_cards_em_dash (ord : set_order) :
  exists a,
    result (explore_cards explorer0 (u"inr") 5) (serving ord wizard)
      = Returned a /\
    field "card_types" a = Some (VList [str "Creature — Human Wizard"]) /\
    str "Creature — Human Wizard" <> str "Creature" /\
    In 8212%N (u"Creature — Human Wizard").
Proof.
  eexists. split; [| split; [| split]].
  - change (explore_cards explorer0 (u"inr") 5)
      with (explore explorer0 (Cards (u"inr") 5)).
    rewrite explore_result. cbv -[enumerate].
    rewrite enumerate_singleton. reflexivity.
  - reflexivity.
  - vm_compute. discriminate.
  - vm_compute. tauto.
Qed.

(** *** Order on strings *)

Lemma str_ltb_irrefl s : str_ltb s s = false.
Proof.
  induction s as [| a s IH]; [reflexivity |].
  simpl. rewrite N.ltb_irrefl, N.eqb_refl. exact IH.
Qed.

Lemma str_ltb_trans a b c :
  str_ltb a b = true -> str_ltb b c = true -> str_ltb a c = true.
Proof.
  revert b c. induction a as [| x a IH]; intros [| y b] [| z c];
    simpl; try discriminate; try reflexivity.
  destruct (N.ltb_spec x y) as [Hxy | Hxy].
  - intros _. destruct (N.ltb_spec y z) as [Hyz | Hyz].
    + intros _. destruct (N.ltb_spec x z); [reflexivity | lia].
    + destruct (N.eqb_spec y z) as [-> | _]; [| discriminate].
      intros _. destruct (N.ltb_spec x z); [reflexivity | lia].
  - destruct (N.eqb_spec x y) as [-> | _]; [| discriminate].
    intros Hab. destruct (N.ltb_spec y z) as [Hyz | Hyz]; [reflexivity |].
    destruct (N.eqb_spec y z) as [-> | _]; [| discriminate].
    apply IH. exact Hab.
Qed.

Lemma str_leb_refl s : str_leb s s = true.
Proof. unfold str_leb. rewrite str_ltb_irrefl. reflexivity. Qed.

Lemma str_lt_le_trans a b c :
  str_ltb a b = true -> str_leb b c = true -> str_leb a c = true.
Proof.
  unfold str_leb. intros Hab Hbc.
  destruct (str_ltb c a) eqn:Hca; [| reflexivity].
  rewrite (str_ltb_trans _ _ _ Hca Hab) in Hbc. discriminate.
Qed.

Lemma str_le_lt_trans a b c :
  str_leb a b = true -> str_ltb b c = true -> str_leb a c = true.
Proof.
  unfold str_leb. intros Hab Hbc.
  destruct (str_ltb c a) eqn:Hca; [| reflexivity].
  rewrite (str_ltb_trans _ _ _ Hbc Hca) in Hab. discriminate.
Qed.

(** *** Slices *)

Lemma slice_stop_le n stop : (slice_stop n stop <= n)%nat.
Proof. unfold slice_stop. destruct (0 <=? stop)%Z eqn:E; lia. Qed.

Lemma slice_to_length {A} (xs : list A) stop :
  List.length (slice_to xs stop) = slice_stop (List.length xs) stop.
Proof.
  unfold slice_to. rewrite length_firstn.
  pose proof (slice_stop_le (List.length xs) stop). lia.
Qed.

Lemma slice_stop_spec n stop :
  Z.of_nat (slice_stop n stop) =
  if (0 <=? stop)%Z then Z.min (Z.of_nat n) stop
  else Z.max 0 (Z.of_nat n + stop).
Proof.
  unfold slice_stop. destruct (Z.leb_spec 0 stop); lia.
Qed.

(** *** One turn of the loop of [explore_sets] *)

Lemma truthy_str s : s <> [] -> truthy (VStr s) = true.
Proof. destruct s; [congruence | reflexivity]. Qed.

Lemma get_entry d k :
  get (VDict d) (u k) VNone = Returned (entry_get k (VDict d)).
Proof. reflexivity. Qed.

Lemma set_info_of_dict d :
  set_info_of (VDict d) =
  Returned (VDict [(u"object", entry_get "object" (VDict d));
                   (u"code", entry_get "code" (VDict d));
                   (u"name", entry_get "name" (VDict d));
                   (u"set_type", entry_get "set_type" (VDict d));
                   (u"card_count", entry_get "card_count" (VDict d));
                   (u"released_at", entry_get "released_at" (VDict d));
                   (u"keys", VList (keys d))]).
Proof. reflexivity. Qed.

(** The new bounds after a dated entry. *)
Lemma improves_bound op d bound :
  d <> [] -> bound_ok bound ->
  exists b,
    improves op (VStr d) bound = Returned b /\
    bound_ok (if b then VStr d else bound) /\
    match bound with
    | VStr o =>
        b = match op with OpLt => str_ltb d o | OpGt => str_ltb o d end
    | _ => b = true
    end.
Proof.
  intros Hd [-> | (o & -> & Ho)].
  - exists true. repeat split. right. exists d. auto.
  - unfold improves. rewrite (truthy_str o Ho). cbn [negb py_compare].
    eexists. split; [reflexivity |]. split; [| reflexivity].
    destruct op; match goal with |- bound_ok (if ?c then _ else _) =>
      destruct c end; right; eauto.
Qed.

Lemma within_dated o n d (bo bn : bool) :
  bound_ok o -> bound_ok n ->
  match o with VStr so => bo = str_ltb d so | _ => bo = true end ->
  match n with VStr sn => bn = str_ltb sn d | _ => bn = true end ->
  within (if bo then VStr d else o) (if bn then VStr d else n) d.
Proof.
  unfold within.
  intros [-> | (so & -> & _)] [-> | (sn & -> & _)] Hbo Hbn; subst.
  - exists d, d. rewrite str_leb_refl. auto.
  - exists d. destruct (str_ltb sn d) eqn:E.
    + exists d. rewrite str_leb_refl. auto.
    + exists sn. rewrite str_leb_refl. unfold str_leb. rewrite E. auto.
  - exists (if str_ltb d so then d else so), d.
    destruct (str_ltb d so) eqn:E; rewrite str_leb_refl.
    + auto.
    + unfold str_leb. rewrite E. auto.
  - exists (if str_ltb d so then d else so), (if str_ltb sn d then d else sn).
    destruct (str_ltb d so) eqn:E1, (str_ltb sn d) eqn:E2;
      unfold str_leb; rewrite ?str_ltb_irrefl, ?E1, ?E2; auto.
Qed.

Lemma within_widened o n d (bo bn : bool) s :
  match o with VStr so => bo = str_ltb d so | _ => bo = true end ->
  match n with VStr sn => bn = str_ltb sn d | _ => bn = true end ->
  within o n s ->
  within (if bo then VStr d else o) (if bn then VStr d else n) s.
Proof.
  intros Hbo Hbn (so & sn & -> & -> & Hlo & Hhi). subst. unfold within.
  exists (if str_ltb d so then d else so), (if str_ltb sn d then d else sn).
  destruct (str_ltb d so) eqn:E1, (str_ltb sn d) eqn:E2;
    repeat split; auto;
    first [ exact (str_lt_le_trans _ _ _ E1 Hlo)
          | exact (str_le_lt_trans _ _ _ Hhi E2) ].
Qed.

(** One turn of the loop of [explore_sets] on an entry it is written for. *)
Lemma sets_body_step acc e :
  set_entry_ok e = true -> range_ok acc ->
  exists acc' info,
    sets_body acc e = Returned acc' /\
    set_info_of e = Returned info /\
    sample_sets acc' = sample_sets acc ++ [info] /\
    range_ok acc' /\
    (forall s, within (oldest acc) (newest acc) s ->
               within (oldest acc') (newest acc') s) /\
    (forall s, entry_get "released_at" e = VStr s -> s <> [] ->
               within (oldest acc') (newest acc') s).
Proof.
  destruct e as [| | | | | | d]; try discriminate.
  intros Hok [Ho Hn]. unfold set_entry_ok in Hok.
  apply andb_prop in Hok. destruct Hok as [Hhash Hdate].
  unfold sets_body. rewrite set_info_of_dict. cbn [obind].
  rewrite !get_entry. cbn [obind].
  unfold set_add. rewrite Hhash. cbn [obind].
  destruct (truthy (entry_get "released_at" (VDict d))) eqn:Ht.
  - cbn [negb orb] in Hdate.
    destruct (entry_get "released_at" (VDict d)) as [| | | | r | |] eqn:Er;
      try discriminate Hdate.
    assert (Hr : r <> []) by (intros ->; discriminate Ht).
    destruct (improves_bound OpLt r _ Hr Ho) as (bo & -> & Ho' & Hbo).
    destruct (improves_bound OpGt r _ Hr Hn) as (bn & -> & Hn' & Hbn).
    cbn [obind]. eexists. eexists. split; [reflexivity |].
    split; [reflexivity |]. cbn [sample_sets oldest newest].
    split; [reflexivity |]. split; [split; assumption |]. split.
    + intros s. apply within_widened; assumption.
    + intros s Hs _. injection Hs as <-.
      apply within_dated; assumption.
  - eexists. eexists. split; [reflexivity |]. split; [reflexivity |].
    cbn [sample_sets oldest newest].
    split; [reflexivity |]. split; [split; assumption |]. split.
    + auto.
    + intros s Hs Hne. rewrite Hs, (truthy_str s Hne) in Ht. discriminate.
Qed.

(** An entry without a date that counts leaves the range as it was. *)
Lemma sets_body_undated acc e acc' :
  truthy (entry_get "released_at" e) = false ->
  sets_body acc e = Returned acc' ->
  oldest acc' = oldest acc /\ newest acc' = newest acc.
Proof.
  destruct e as [| | | | | | d]; try discriminate.
  intros Ht. unfold sets_body. rewrite set_info_of_dict. cbn [obind].
  rewrite !get_entry. cbn [obind]. rewrite Ht.
  destruct (set_add (set_types acc) (entry_get "set_type" (VDict d)));
    cbn [obind]; [| discriminate].
  intros H. injection H as <-. split; reflexivity.
Qed.

(** *** The loop of [explore_sets] *)

Lemma sets_loop items : forall acc,
  forallb set_entry_ok items = true -> range_ok acc ->
  exists acc' infos,
    for_each sets_body acc items = Returned acc' /\
    Forall2 (fun e info => set_info_of e = Returned info) items infos /\
    sample_sets acc' = sample_sets acc ++ infos /\
    range_ok acc' /\
    (forall s, within (oldest acc) (newest acc) s ->
               within (oldest acc') (newest acc') s) /\
    (forall e s, In e items ->
                 entry_get "released_at" e = VStr s -> s <> [] ->
                 within (oldest acc') (newest acc') s).
Proof.
  induction items as [| e items IH]; intros acc Hok Hr.
  - exists acc, []. simpl. rewrite app_nil_r.
    split; [reflexivity |]. split; [constructor |].
    split; [reflexivity |]. split; [exact Hr |]. split; [auto |].
    intros e s [].
  - simpl in Hok. apply andb_prop in Hok. destruct Hok as [He Hrest].
    destruct (sets_body_step acc e He Hr)
      as (acc1 & info & Hbody & Hinfo & Hs1 & Hr1 & Hkeep1 & Hnew1).
    destruct (IH acc1 Hrest Hr1)
      as (acc' & infos & Hloop & Hinfos & Hs' & Hr' & Hkeep' & Hnew').
    exists acc', (info :: infos). simpl. rewrite Hbody. cbn [obind].
    split; [exact Hloop |]. split; [constructor; assumption |].
    split; [rewrite Hs', Hs1, <- app_assoc; reflexivity |].
    split; [exact Hr' |]. split; [auto |].
    intros e' s [<- | Hin] Hd Hne.
    + apply Hkeep'. apply Hnew1; assumption.
    + apply (Hnew' e' s Hin Hd Hne).
Qed.

Lemma collection_get d entries :
  collection d = Some entries ->
  get (VDict d) (u"data") (VList []) = Returned (VList entries).
Proof.
  unfold collection, get.
  destruct (lookup (u"data") d) as [[| | | | | l |] |];
    intros H; try discriminate H; injection H as <-; reflexivity.
Qed.

(** The summary [explore_sets] returns on a set-collection payload. *)
Lemma explore_sets_summary self limit w d entries :
  result (_make_request self (u"/sets") VNone) w = Returned (VDict d) ->
  truthy (VDict d) = true ->
  collection d = Some entries ->
  forallb set_entry_ok (slice_to entries limit) = true ->
  exists acc infos,
    result (explore_sets self limit) w =
      Returned
        (VDict [(u"total_sets", VInt (Z.of_nat (List.length entries)));
                (u"structure_keys", VList (keys d));
                (u"sample_sets", VList infos);
                (u"set_types", VList (enumerate (order w) (set_types acc)));
                (u"date_range",
                 VDict [(u"oldest", oldest acc); (u"newest", newest acc)])])
    /\
    Forall2 (fun e info => set_info_of e = Returned info)
            (slice_to entries limit) infos /\
    (forall e s, In e (slice_to entries limit) ->
                 entry_get "released_at" e = VStr s -> s <> [] ->
                 within (oldest acc) (newest acc) s).
Proof.
  intros Hfetch Hd Hcoll Hok.
  destruct (sets_loop (slice_to entries limit)
              (SetsAcc [] [] VNone VNone) Hok)
    as (acc & infos & Hloop & Hinfos & Hs & _ & _ & Hnew).
  { split; left; reflexivity. }
  exists acc, infos. split; [| split; assumption].
  change (explore_sets self limit) with (explore self (Sets limit)).
  rewrite explore_result. cbn [endpoint_of params_of].
  rewrite Hfetch. cbn [obind]. rewrite Hd. cbn [negb].
  cbn [analyse]. unfold analyse_sets.
  rewrite (collection_get d entries Hcoll).
  cbn [obind len list_keys getslice iter].
  rewrite Hloop. cbn [obind]. rewrite Hs. reflexivity.
Qed.

(** The sample follows the slice [data[:limit]], whatever the sign of
    [limit]: the first [min(N, limit)] entries for [limit >= 0], and for a
    negative [limit] all but the last [-limit]. *)
Lemma explore_sets_slice self limit w d entries :
  result (_make_request self (u"/sets") VNone) w = Returned (VDict d) ->
  truthy (VDict d) = true ->
  collection d = Some entries ->
  forallb set_entry_ok (slice_to entries limit) = true ->
  exists a samples,
    result (explore_sets self limit) w = Returned a /\
    field "total_sets" a = Some (VInt (Z.of_nat (List.length entries))) /\
    field "sample_sets" a = Some (VList samples) /\
    Forall2 (fun e info => set_info_of e = Returned info)
            (firstn (List.length samples) entries) samples /\
    Z.of_nat (List.length samples) =
      if (0 <=? limit)%Z then Z.min (Z.of_nat (List.length entries)) limit
      else Z.max 0 (Z.of_nat (List.length entries) + limit).
Proof.
  intros Hfetch Hd Hcoll Hok.
  destruct (explore_sets_summary self limit w d entries Hfetch Hd Hcoll Hok)
    as (acc & infos & Hrun & Hinfos & _).
  assert (Hlen : List.length infos
                 = slice_stop (List.length entries) limit).
  { rewrite <- (Forall2_length Hinfos). apply slice_to_length. }
  eexists. exists infos. split; [exact Hrun |].
  split; [reflexivity |]. split; [reflexivity |]. split.
  - rewrite Hlen. exact Hinfos.
  - rewrite Hlen. apply slice_stop_spec.
Qed.

(** C3, as the code has it.  On a payload that is a non-empty object
    whose collection holds [N] entries (none, when the key is absent),
    and for a limit [L >= 0], [total_sets] is [N] and [sample_sets]
    describes, in order, the first [min(N, L)] entries of the
    collection. *)
Theorem explore_sets_sample self limit w d entries :
  result (_make_request self (u"/sets") VNone) w = Returned (VDict d) ->
  truthy (VDict d) = true ->
  collection d = Some entries ->
  (0 <= limit)%Z ->
  forallb set_entry_ok (slice_to entries limit) = true ->
  exists a samples,
    result (explore_sets self limit) w = Returned a /\
    field "total_sets" a = Some (VInt (Z.of_nat (List.length entries))) /\
    field "sample_sets" a = Some (VList samples) /\
    Forall2 (fun e info => set_info_of e = Returned info)
            (firstn (List.length samples) entries) samples /\
    Z.of_nat (List.length samples)
      = Z.min (Z.of_nat (List.length entries)) limit.
Proof.
  intros Hfetch Hd Hcoll Hlimit Hok.
  destruct (explore_sets_slice self limit w d entries Hfetch Hd Hcoll Hok)
    as (a & samples & Hrun & Htotal & Hsample & Hfront & Hlen).
  exists a, samples. repeat (split; [assumption |]).
  rewrite Hlen. destruct (Z.leb_spec 0 limit); [reflexivity | lia].
Qed.

Lemma explore_sets_sample_witness :
  exists a samples,
    result (explore_sets explorer0 1)
           (serving insertion_order (VDict two_sets)) = Returned a /\
    field "total_sets" a = Some (VInt (Z.of_nat 2)) /\
    field "sample_sets" a = Some (VList samples) /\
    Forall2 (fun e info => set_info_of e = Returned info)
            (firstn (List.length samples) [set_inr; set_mh1]) samples /\
    Z.of_nat (List.length samples) = Z.min (Z.of_nat 2) 1.
Proof.
  apply (explore_sets_sample explorer0 1
           (serving insertion_order (VDict two_sets)) two_sets
           [set_inr; set_mh1]); [reflexivity .. | lia | reflexivity].
Defined.

(** C3 as stated fails on the empty object [{}]: its collection field is
    absent, so [N = 0], yet [{}] tests false and [explore_sets] answers
    with the error record of a failed fetch, which has no [total_sets]. *)
Lemma explore_sets_empty_object :
  collection [] = Some [] /\
  result (_make_request explorer0 (u"/sets") VNone)
         (serving insertion_order (VDict [])) = Returned (VDict []) /\
  result (explore_sets explorer0 5) (serving insertion_order (VDict []))
    = Returned sets_error /\
  field "total_sets" sets_error = None /\
  field "sample_sets" sets_error = None.
Proof.
  repeat split; reflexivity.
Qed.

(** C4, as the code has it.  Every sampled entry whose [released_at] is
    a non-empty string lies within the range:
    [oldest <= released_at <= newest] in the order of [str].  A sampled
    entry whose [released_at] is absent, [null] or empty goes through
    the loop body and leaves [oldest] and [newest] as they were. *)
Theorem explore_sets_date_range self limit w d entries :
  result (_make_request self (u"/sets") VNone) w = Returned (VDict d) ->
  truthy (VDict d) = true ->
  collection d = Some entries ->
  forallb set_entry_ok (slice_to entries limit) = true ->
  exists a o n,
    result (explore_sets self limit) w = Returned a /\
    field "date_range" a = Some (VDict [(u"oldest", o); (u"newest", n)]) /\
    (forall e s, In e (slice_to entries limit) ->
                 entry_get "released_at" e = VStr s -> s <> [] ->
                 exists so sn,
                   o = VStr so /\ n = VStr sn /\
                   str_leb so s = true /\ str_leb s sn = true) /\
    (forall e, In e (slice_to entries limit) ->
               truthy (entry_get "released_at" e) = false ->
               forall acc, exists acc',
                 sets_body acc e = Returned acc' /\
                 oldest acc' = oldest acc /\ newest acc' = newest acc).
Proof.
  intros Hfetch Hd Hcoll Hok.
  destruct (explore_sets_summary self limit w d entries Hfetch Hd Hcoll Hok)
    as (acc & infos & Hrun & _ & Hin).
  eexists. exists (oldest acc), (newest acc).
  split; [exact Hrun |]. split; [reflexivity |]. split; [exact Hin |].
  intros e He Hund acc0.
  rewrite forallb_forall in Hok. specialize (Hok e He).
  destruct e as [| | | | | | fields]; try discriminate Hok.
  unfold set_entry_ok in Hok. apply andb_prop in Hok.
  destruct Hok as [Hhash _].
  unfold sets_body. rewrite set_info_of_dict. cbn [obind].
  rewrite !get_entry. cbn [obind]. unfold set_add. rewrite Hhash, Hund.
  cbn [obind]. eexists. split; [reflexivity |]. split; reflexivity.
Qed.

Lemma explore_sets_date_range_witness :
  exists a o n,
    result (explore_sets explorer0 2)
           (serving insertion_order (VDict two_sets)) = Returned a /\
    field "date_range" a = Some (VDict [(u"oldest", o); (u"newest", n)]) /\
    (forall e s, In e (slice_to [set_inr; set_mh1] 2) ->
                 entry_get "released_at" e = VStr s -> s <> [] ->
                 exists so sn,
                   o = VStr so /\ n = VStr sn /\
                   str_leb so s = true /\ str_leb s sn = true) /\
    (forall e, In e (slice_to [set_inr; set_mh1] 2) ->
               truthy (entry_get "released_at" e) = false ->
               forall acc, exists acc',
                 sets_body acc e = Returned acc' /\
                 oldest acc' = oldest acc /\ newest acc' = newest acc).
Proof.
  apply (explore_sets_date_range explorer0 2
           (serving insertion_order (VDict two_sets)) two_sets
           [set_inr; set_mh1]); reflexivity.
Defined.

(** C4 as stated fails on a release date that is the empty string: it is
    a string and not [null], the test [if release_date:] skips it, and
    [oldest] ends above it. *)
Lemma explore_sets_blank_date :
  exists a e,
    result (explore_sets explorer0 5)
           (serving insertion_order (VDict blank_date)) = Returned a /\
    field "date_range" a
      = Some (VDict [(u"oldest", str "2023-01-01");
                     (u"newest", str "2023-01-01")]) /\
    collection blank_date = Some [e; obj [("code", str "inr");
                                  ("released_at", str "2023-01-01")]] /\
    entry_get "released_at" e = VStr [] /\
    str_leb (u"2023-01-01") [] = false.
Proof.
  eexists. eexists. split; [vm_compute; reflexivity |].
  split; [reflexivity |]. split; [reflexivity |]. split; reflexivity.
Qed.

(** *** Sets of strings *)

Lemma str_eqb_eq s t : str_eqb s t = true <-> s = t.
Proof.
  revert t. induction s as [| a s IH]; intros [| b t]; simpl;
    try (split; [discriminate | congruence]); [tauto |].
  rewrite andb_true_iff, N.eqb_eq, IH. split.
  - intros [-> ->]. reflexivity.
  - intros H. injection H as -> ->. auto.
Qed.

Lemma py_eqb_str w s : py_eqb w (VStr s) = true <-> w = VStr s.
Proof.
  destruct w as [| b | z | f | t | l | d]; simpl;
    try (split; [discriminate | congruence]).
  rewrite str_eqb_eq. split; congruence.
Qed.

Lemma member_str s x : member (VStr x) s = true <-> In (VStr x) s.
Proof.
  unfold member. rewrite existsb_exists. split.
  - intros (w & Hin & Heq). apply py_eqb_str in Heq. subst. exact Hin.
  - intros Hin. exists (VStr x). split; [exact Hin |].
    apply py_eqb_str. reflexivity.
Qed.

(** Adding the strings [l] to a set of strings. *)
Lemma set_add_all_str l : forall s,
  forallb is_str l = true -> all_str s -> NoDup s ->
  exists s',
    set_add_all s l = Returned s' /\
    all_str s' /\ NoDup s' /\
    (forall x, In x s' <-> In x s \/ In x l).
Proof.
  induction l as [| v l IH]; intros s Hl Hs Hnd.
  - exists s. simpl. repeat split; auto. tauto.
  - simpl in Hl. apply andb_prop in Hl. destruct Hl as [Hv Hl].
    destruct v as [| | | | x | |]; try discriminate Hv.
    simpl. unfold set_add. cbn [hashable obind].
    destruct (member (VStr x) s) eqn:Hm.
    + destruct (IH s Hl Hs Hnd) as (s' & Hrun & Hs' & Hnd' & Hin).
      exists s'. repeat split; auto.
      * intros H. apply Hin in H. simpl. tauto.
      * intros [H | [<- | H]]; apply Hin; auto.
        left. apply member_str. exact Hm.
    + assert (Hnot : ~ In (VStr x) s).
      { intros H. apply member_str in H. congruence. }
      destruct (IH (s ++ [VStr x]) Hl) as (s' & Hrun & Hs' & Hnd' & Hin).
      { apply Forall_app. split; [exact Hs |]. constructor; auto. }
      { apply NoDup_app; [exact Hnd | repeat constructor; simpl; tauto |].
        intros y Hy [<- | []]. exact (Hnot Hy). }
      exists s'. repeat split; auto.
      * intros H. apply Hin in H. rewrite in_app_iff in H. simpl in *. tauto.
      * intros H. apply Hin. rewrite in_app_iff. simpl in *. tauto.
Qed.

(** *** The loop of [explore_cards] *)

Lemma split_nonempty sep s : exists p ps, split sep s = p :: ps.
Proof.
  induction s as [| c s (p & ps & IH)]; simpl; [eauto |].
  destruct (c =? sep)%N; [eauto |]. rewrite IH. eauto.
Qed.

Lemma card_info_of_dict d : exists info, card_info_of (VDict d) = Returned info.
Proof. eexists. reflexivity. Qed.

Lemma add_field_addable d k s :
  addable (entry_get k (VDict d)) = true ->
  exists s', add_field (VDict d) (u k) s = Returned s'.
Proof.
  unfold add_field, addable. rewrite get_entry. cbn [obind].
  destruct (truthy (entry_get k (VDict d))); cbn [negb orb obind].
  - intros H. unfold set_add. rewrite H. eauto.
  - eauto.
Qed.

Lemma type_bucket_added d (types : pyset) :
  negb (truthy (entry_get "type_line" (VDict d)))
  || is_str (entry_get "type_line" (VDict d)) = true ->
  exists types',
    (if truthy (entry_get "type_line" (VDict d)) then
       obind (get (VDict d) (u"type_line") VNone) (fun tl =>
       obind (split_first_strip tl hyphen) (set_add types))
     else Returned types) = Returned types'.
Proof.
  rewrite get_entry. cbn [obind].
  destruct (truthy (entry_get "type_line" (VDict d))); cbn [negb orb];
    [| eauto].
  destruct (entry_get "type_line" (VDict d)) as [| | | | t | |];
    try discriminate.
  intros _. unfold split_first_strip.
  destruct (split_nonempty hyphen t) as (p & ps & ->).
  cbn [obind]. unfold set_add. cbn [hashable]. eauto.
Qed.

Lemma colors_updated d (cols : pyset) :
  color_list_ok (entry_get "colors" (VDict d)) = true ->
  all_str cols -> NoDup cols ->
  exists cols',
    (if truthy (entry_get "colors" (VDict d)) then
       obind (get (VDict d) (u"colors") VNone) (set_update cols)
     else Returned cols) = Returned cols' /\
    all_str cols' /\ NoDup cols' /\
    (forall x, In x cols' <-> In x cols \/ In x (colors_of (VDict d))).
Proof.
  unfold color_list_ok, colors_of. rewrite get_entry. cbn [obind].
  intros Hok Hs Hnd.
  destruct (truthy (entry_get "colors" (VDict d))) eqn:Ht;
    cbn [negb orb] in Hok.
  - destruct (entry_get "colors" (VDict d)) as [| | | | | l |];
      try discriminate Hok.
    unfold set_update. cbn [iter obind].
    apply set_add_all_str; assumption.
  - exists cols. repeat split; auto.
    intros [H | H]; [exact H |].
    destruct (entry_get "colors" (VDict d)) as [| | | | | l |];
      try contradiction.
    destruct l; [contradiction | discriminate Ht].
Qed.

(** One turn of the loop of [explore_cards] on a card it is written for. *)
Lemma cards_body_step acc c :
  card_ok c = true -> all_str (colors acc) -> NoDup (colors acc) ->
  exists acc',
    cards_body acc c = Returned acc' /\
    all_str (colors acc') /\ NoDup (colors acc') /\
    (forall x, In x (colors acc') <-> In x (colors acc) \/ In x (colors_of c)).
Proof.
  destruct c as [| | | | | | d]; try discriminate.
  intros Hok Hs Hnd. unfold card_ok in Hok.
  apply andb_prop in Hok. destruct Hok as [Hok Hlang].
  apply andb_prop in Hok. destruct Hok as [Hok Hcol].
  apply andb_prop in Hok. destruct Hok as [Htype Hrar].
  unfold cards_body.
  destruct (card_info_of_dict d) as [info ->]. cbn [obind].
  change (get (VDict d) (u"type_line") VNone)
    with (Returned (entry_get "type_line" (VDict d))) at 1.
  cbn [obind].
  destruct (type_bucket_added d (card_types acc) Htype) as [types ->].
  cbn [obind].
  destruct (add_field_addable d "rarity" (rarities acc) Hrar) as [rars ->].
  cbn [obind].
  change (get (VDict d) (u"colors") VNone)
    with (Returned (entry_get "colors" (VDict d))) at 1.
  cbn [obind].
  destruct (colors_updated d (colors acc) Hcol Hs Hnd)
    as (cols & -> & Hs' & Hnd' & Hin).
  cbn [obind].
  destruct (add_field_addable d "lang" (languages acc) Hlang) as [langs ->].
  cbn [obind]. eexists. split; [reflexivity |]. cbn [colors]. auto.
Qed.

Lemma cards_loop items : forall acc,
  forallb card_ok items = true -> all_str (colors acc) -> NoDup (colors acc) ->
  exists acc',
    for_each cards_body acc items = Returned acc' /\
    NoDup (colors acc') /\
    (forall x, In x (colors acc') <->
               In x (colors acc) \/
               exists c, In c items /\ In x (colors_of c)).
Proof.
  induction items as [| c items IH]; intros acc Hok Hs Hnd.
  - exists acc. simpl. split; [reflexivity |]. split; [exact Hnd |].
    intros x. split; [auto |]. intros [H | (c & [] & _)]. exact H.
  - simpl in Hok. apply andb_prop in Hok. destruct Hok as [Hc Hrest].
    destruct (cards_body_step acc c Hc Hs Hnd)
      as (acc1 & Hbody & Hs1 & Hnd1 & Hin1).
    destruct (IH acc1 Hrest Hs1 Hnd1) as (acc' & Hloop & Hnd' & Hin').
    exists acc'. simpl. rewrite Hbody. cbn [obind].
    split; [exact Hloop |]. split; [exact Hnd' |].
    intros x. rewrite Hin', Hin1. split.
    + intros [[H | H] | (c' & Hc' & H)]; eauto 6.
    + intros [H | (c' & [<- | Hc'] & H)]; eauto 6.
Qed.

(** C9.  On a card payload, [colors] lists without repetition exactly
    the members of the color lists of the sampled cards: a member of
    [colors] is in the color list of some sampled card, and conversely.
    A sampled card whose color list is empty or absent has no member to
    contribute. *)
Theorem explore_cards_colors self set_core limit w d cards :
  result (_make_request self (u"/cards/search")
            (params_of (Cards set_core limit))) w = Returned (VDict d) ->
  truthy (VDict d) = true ->
  collection d = Some cards ->
  forallb card_ok (slice_to cards limit) = true ->
  exists a cs,
    result (explore_cards self set_core limit) w = Returned a /\
    field "colors" a = Some (VList cs) /\
    NoDup cs /\
    (forall x, In x cs <->
               exists c, In c (slice_to cards limit) /\ In x (colors_of c)) /\
    (forall c, In c (slice_to cards limit) ->
               truthy (entry_get "colors" c) = false -> colors_of c = []).
Proof.
  intros Hfetch Hd Hcoll Hok.
  destruct (cards_loop (slice_to cards limit) (CardsAcc [] [] [] [] []) Hok)
    as (acc & Hloop & Hnd & Hin); [constructor | constructor |].
  eexists. exists (enumerate (order w) (colors acc)). split.
  - change (explore_cards self set_core limit)
      with (explore self (Cards set_core limit)).
    rewrite explore_result. cbn [endpoint_of].
    rewrite Hfetch. cbn [obind]. rewrite Hd. cbn [negb analyse].
    unfold analyse_cards. cbn [get obind list_keys].
    change (match lookup (u"data") d with
            | Some v => v
            | None => VList []
            end) with
      (match get (VDict d) (u"data") (VList []) with
       | Returned v => v
       | Raised _ => VNone
       end).
    rewrite (collection_get d cards Hcoll). cbn [getslice iter obind].
    rewrite Hloop. cbn [obind]. reflexivity.
  - split; [reflexivity |]. split; [| split].
    + apply (Permutation_NoDup (Permutation_sym (enumerate_perm _ _))).
      exact Hnd.
    + intros x. split.
      * intros H. apply (Permutation_in x (enumerate_perm _ _)) in H.
        apply Hin in H. destruct H as [[] | H]. exact H.
      * intros H.
        apply (Permutation_in x (Permutation_sym (enumerate_perm _ _))).
        apply Hin. right. exact H.
    + intros c _ Ht. unfold colors_of.
      destruct (entry_get "colors" c) as [| | | | | l |]; try reflexivity.
      destruct l; [reflexivity | discriminate Ht].
Qed.

Lemma explore_cards_colors_witness :
  exists a cs,
    result (explore_cards explorer0 (u"inr") 5)
           (serving insertion_order (VDict three_cards)) = Returned a /\
    field "colors" a = Some (VList cs) /\
    NoDup cs /\
    (forall x, In x cs <->
               exists c, In c (slice_to [card_bolt; card_ring; card_charm] 5)
                         /\ In x (colors_of c)) /\
    (forall c, In c (slice_to [card_bolt; card_ring; card_charm] 5) ->
               truthy (entry_get "colors" c) = false -> colors_of c = []).
Proof.
  apply (explore_cards_colors explorer0 (u"inr") 5
           (serving insertion_order (VDict three_cards)) three_cards
           [card_bolt; card_ring; card_charm]); reflexivity.
Defined.

(** On that payload [colors] is [R], [G], each once. *)
Example three_cards_colors :
  exists a,
    result (explore_cards explorer0 (u"inr") 5)
           (serving insertion_order (VDict three_cards)) = Returned a /\
    field "colors" a = Some (VList [str "R"; str "G"]).
Proof. eexists. split; [vm_compute; reflexivity | reflexivity]. Qed.

(** The two examples of the specification. *)
Example two_sets_summary :
  exists a,
    result (explore_sets explorer0 2)
           (serving insertion_order (VDict two_sets)) = Returned a /\
    field "total_sets" a = Some (VInt 2) /\
    field "set_types" a = Some (VList [str "expansion"; str "masters"]) /\
    field "date_range" a
      = Some (VDict [(u"oldest", str "2019-03-15");
                     (u"newest", str "2023-01-01")]).
Proof.
  eexists. split; [vm_compute; reflexivity |]. repeat split; reflexivity.
Qed.

Example bolt_summary :
  exists a,
    result (explore_cards explorer0 (u"inr") 5)
           (serving insertion_order (obj [("data", VList [card_bolt])]))
      = Returned a /\
    field "card_types" a = Some (VList [str "Instant"]) /\
    field "colors" a = Some (VList [str "R"]) /\
    field "rarities" a = Some (VList [str "common"]) /\
    field "languages" a = Some (VList [str "en"]).
Proof.
  eexists. split; [vm_compute; reflexivity |]. repeat split; reflexivity.
Qed.

(** A payload without [data]: no failure, [total_sets] is [0]. *)
Example absent_collection_summary :
  exists a,
    result (explore_sets explorer0 5)
           (serving insertion_order (obj [("object", str "list")]))
      = Returned a /\
    field "total_sets" a = Some (VInt 0) /\
    field "sample_sets" a = Some (VList []).
Proof.
  eexists. split; [vm_compute; reflexivity |]. split; reflexivity.
Qed.

(** A service that cannot be reached does not stop [main]: both analyses
    come back error-tagged, the first one is persisted, [main] returns. *)
Example main_survives_failed_fetch :
  result main (unreachable ConnectionError) = Returned VNone /\
  In (JsonDump (u"data/exploration/sets_analysis.json") sets_error 2 false)
     (snd (run main (unreachable ConnectionError))).
Proof. split; [reflexivity |]. vm_compute. tauto. Qed.

(* ================================================================= *)
(** ** More of the explorer *)

(** *** [_make_request]: the request it sends and what comes back *)

Lemma handled_logs url e : Forall (fun ev => is_log ev = true) (handled url e).
Proof.
  unfold handled.
  destruct (isinstance e BRequestException);
    [| destruct (isinstance e BJSONDecodeError)];
    repeat constructor.
Qed.

Lemma epilogue_logs w url params :
  Forall (fun ev => is_log ev = true) (epilogue w url params).
Proof.
  unfold epilogue. destruct (http w url params 30) as [r | e].
  - destruct (error_status (status_code r)); [apply handled_logs |].
    constructor; [reflexivity |].
    destruct (json_body r); [constructor | apply handled_logs].
  - apply handled_logs.
Qed.



(** A response whose status is no error status and whose body decodes
    is returned as decoded; the call logs the request, pauses, sends
    the GET and logs the status at level SUCCESS, and that is all. *)
Theorem make_request_success self endpoint params w t r v :
  http w (base_url self ++ endpoint) params 30 = Returned r ->
  error_status (status_code r) = false ->
  json_body r = Returned v ->
  _make_request self endpoint params w t =
    (Returned v,
     t ++ prologue self (base_url self ++ endpoint) params
       ++ [Log SUCCESS [T (u"Requisição bem-sucessida - Status: ");
                        V (VInt (status_code r))]]).
Proof.
  intros Hget Hstatus Hbody. rewrite make_request_run. cbv zeta.
  unfold fetched, epilogue. rewrite Hget, Hstatus, Hbody. reflexivity.
Qed.

Lemma make_request_success_witness :
  _make_request explorer0 (u"/sets") VNone
    (serving insertion_order (VDict two_sets)) [] =
    (Returned (VDict two_sets),
     [] ++ prologue explorer0 (base_url explorer0 ++ u"/sets") VNone
        ++ [Log SUCCESS [T (u"Requisição bem-sucessida - Status: ");
                         V (VInt 200)]]).
Proof.
  apply (make_request_success explorer0 (u"/sets") VNone
           (serving insertion_order (VDict two_sets)) []
           (Response 200 (Returned (VDict two_sets))) (VDict two_sets));
    reflexivity.
Defined.

(** [_make_request] raises exactly the exceptions that neither [except]
    clause names: it raises [e] if and only if the transport or the
    decoder raised [e] and [e] is neither a [RequestException] nor a
    [JSONDecodeError]. *)
Theorem make_request_raises_iff self endpoint params w t e :
  fst (_make_request self endpoint params w t) = Raised e <->
  escaping w (base_url self ++ endpoint) params = Some e.
Proof.
  rewrite make_request_fetched. unfold fetched, escaping.
  destruct (http w _ params 30) as [r | e0].
  - destruct (error_status (status_code r)); [split; discriminate |].
    destruct (json_body r) as [v | e0]; [split; discriminate |].
    destruct (caught e0); split; intros H; try discriminate H;
      injection H as <-; reflexivity.
  - destruct (caught e0); split; intros H; try discriminate H;
      injection H as <-; reflexivity.
Qed.

(** [None] does not tell a failure from an answer: [_make_request]
    returns [None] if and only if the fetch met a failure it handles,
    or the body decoded to [null]. *)
Theorem make_request_none_iff self endpoint params w t :
  fst (_make_request self endpoint params w t) = Returned VNone <->
  (exists e, fetch_failure w (base_url self ++ endpoint) params = Some e) \/
  (exists r, http w (base_url self ++ endpoint) params 30 = Returned r /\
             error_status (status_code r) = false /\
             json_body r = Returned VNone).
Proof.
  rewrite make_request_fetched. unfold fetched, fetch_failure.
  destruct (http w _ params 30) as [r | e0].
  - destruct (error_status (status_code r)) eqn:Hs.
    + split; [eauto | reflexivity].
    + destruct (json_body r) as [v | e0] eqn:Hb.
      * split.
        -- intros H. injection H as ->. right. eauto.
        -- intros [[e H] | (r' & Hr & _ & Hb')]; [discriminate H |].
           injection Hr as <-. rewrite Hb in Hb'. exact Hb'.
      * destruct (caught e0); split; eauto; try discriminate.
        intros [[e H] | (r' & Hr & _ & Hb')]; [discriminate H |].
        injection Hr as <-. rewrite Hb in Hb'. discriminate Hb'.
  - destruct (caught e0); split; eauto; try discriminate.
    intros [[e H] | (r' & Hr & _)]; discriminate.
Qed.

(** *** What a method adds to the trace *)

Section Emitting.
Context (P : event -> Prop).

Lemma emits_ret {A} (a : A) : emits P (ret a).
Proof. intros w t. exists []. rewrite app_nil_r. auto. Qed.

Lemma emits_lift {A} (o : outcome A) : emits P (lift o).
Proof. intros w t. exists []. rewrite app_nil_r. auto. Qed.

Lemma emits_ask : emits P ask.
Proof. intros w t. exists []. rewrite app_nil_r. auto. Qed.

Lemma emits_emit ev : P ev -> emits P (emit ev).
Proof. intros H w t. exists [ev]. auto. Qed.

Lemma emits_throw_if r : emits P (throw_if r).
Proof. destruct r; [apply emits_lift | apply emits_ret]. Qed.

Lemma emits_bind {A B} (m : M A) (k : A -> M B) :
  emits P m -> (forall a, emits P (k a)) -> emits P (bind m k).
Proof.
  intros Hm Hk w t. unfold bind.
  destruct (Hm w t) as (evs & Ht & Hevs).
  destruct (m w t) as [[a | e] t1]; cbn [snd] in Ht; subst t1.
  - destruct (Hk a w (t ++ evs)) as (evs' & Ht' & Hevs').
    exists (evs ++ evs'). rewrite Ht', app_assoc.
    split; [reflexivity | apply Forall_app; auto].
  - exists evs. auto.
Qed.

Lemma emits_try {A} (body : M A) (handler : exn -> option (M A)) :
  emits P body ->
  (forall e h, handler e = Some h -> emits P h) ->
  emits P (try_except body handler).
Proof.
  intros Hb Hh w t. unfold try_except.
  destruct (Hb w t) as (evs & Ht & Hevs).
  destruct (body w t) as [[a | e] t1]; cbn [snd] in Ht; subst t1.
  - exists evs. auto.
  - destruct (handler e) as [h |] eqn:He.
    + destruct (Hh e h He w (t ++ evs)) as (evs' & Ht' & Hevs').
      exists (evs ++ evs'). rewrite Ht', app_assoc.
      split; [reflexivity | apply Forall_app; auto].
    + exists evs. auto.
Qed.

End Emitting.

Lemma emits_weaken {A} (P Q : event -> Prop) (m : M A) :
  (forall ev, P ev -> Q ev) -> emits P m -> emits Q m.
Proof.
  intros HPQ Hm w t. destruct (Hm w t) as (evs & Ht & Hevs).
  exists evs. split; [exact Ht |].
  apply (Forall_impl Q HPQ Hevs).
Qed.

Ltac emits_step :=
  first
    [ apply emits_ret | apply emits_lift | apply emits_ask
    | apply emits_throw_if
    | apply emits_emit
    | apply emits_bind; [| intros ?]
    | match goal with
      | |- emits _ (if ?c then _ else _) => destruct c
      end ].

(** After the fetch the analyzers only log. *)
Lemma explore_after_fetch self a w t :
  exists logs,
    snd (explore self a w t) =
      snd (_make_request self (endpoint_of a) (params_of a) w
             (t ++ [Log INFO
                      match a with
                      | Sets _ => [T (u"Explorando endpoint /sets")]
                      | Cards set_core _ =>
                          [T (u"Explorando cartas do set: "); T set_core]
                      end]))
      ++ logs /\
    Forall (fun ev => is_log ev = true) logs.
Proof.
  destruct a as [limit | set_core limit];
    cbn [explore endpoint_of params_of];
    [unfold explore_sets | unfold explore_cards];
    rewrite run_bind_log; unfold bind at 1;
    match goal with
    | |- context [_make_request ?s ?e ?p w ?t0] =>
        destruct (_make_request s e p w t0) as [[v | e0] t1]
    end; cbn [snd];
    try (exists []; rewrite app_nil_r; split; [reflexivity | constructor]);
    match goal with
    | |- exists logs, snd (?k w ?t2) = _ /\ _ =>
        cut (emits (fun ev => is_log ev = true) k);
          [intros H; apply H |]
    end;
    unfold log; repeat emits_step; reflexivity.
Qed.


(** *** Payloads of the wrong shape *)

(** A payload that tests true and is no object (an array, a number, a
    string, [true]) makes both analyzers raise [AttributeError]: the
    error-tagged result is for payloads that test false only. *)
Theorem explore_non_object self a w v :
  result (_make_request self (endpoint_of a) (params_of a)) w = Returned v ->
  truthy v = true ->
  is_dict v = false ->
  result (explore self a) w = Raised AttributeError.
Proof.
  intros Hfetch Ht Hd. rewrite explore_result, Hfetch. cbn [obind].
  rewrite Ht. cbn [negb].
  destruct v; try discriminate Hd; destruct a; reflexivity.
Qed.

Lemma explore_non_object_witness :
  result (explore_sets explorer0 5)
         (serving insertion_order (VList [set_inr])) = Raised AttributeError.
Proof.
  apply (explore_non_object explorer0 (Sets 5)
           (serving insertion_order (VList [set_inr])) (VList [set_inr]));
    reflexivity.
Defined.

(** An object whose [data] is no sequence makes both analyzers raise:
    [TypeError] for [null], a boolean or a number, [KeyError] for an
    object. *)
Theorem explore_data_not_sequence self a w d data e :
  result (_make_request self (endpoint_of a) (params_of a)) w
    = Returned (VDict d) ->
  lookup (u"data") d = Some data ->
  slice_error data = Some e ->
  result (explore self a) w = Raised e.
Proof.
  intros Hfetch Hdata He. rewrite explore_result, Hfetch. cbn [obind].
  assert (Ht : truthy (VDict d) = true).
  { destruct d; [discriminate Hdata | reflexivity]. }
  rewrite Ht. cbn [negb].
  destruct a; cbn [analyse]; unfold analyse_sets, analyse_cards, get;
    rewrite Hdata; cbn [obind list_keys];
    destruct data; try discriminate He; injection He as <-; reflexivity.
Qed.

Lemma explore_data_not_sequence_witness :
  result (explore_cards explorer0 (u"inr") 5)
         (serving insertion_order (obj [("data", VNone)])) = Raised TypeError.
Proof.
  apply (explore_data_not_sequence explorer0 (Cards (u"inr") 5)
           (serving insertion_order (obj [("data", VNone)]))
           [(u"data", VNone)] VNone TypeError);
    reflexivity.
Defined.

(** *** The analyzers, reduced to their loops *)

Lemma for_each_app {S} (body : S -> value -> outcome S) xs ys : forall acc,
  for_each body acc (xs ++ ys) =
  obind (for_each body acc xs) (fun acc' => for_each body acc' ys).
Proof.
  induction xs as [| x xs IH]; intros acc; simpl; [reflexivity |].
  destruct (body acc x); simpl; [apply IH | reflexivity].
Qed.

(** On an object with a collection, [explore_sets] is its loop over
    [data[:limit]], then the summary. *)
Lemma explore_sets_loop self limit w d entries :
  result (_make_request self (u"/sets") VNone) w = Returned (VDict d) ->
  truthy (VDict d) = true ->
  collection d = Some entries ->
  result (explore_sets self limit) w =
  obind (for_each sets_body (SetsAcc [] [] VNone VNone)
                  (slice_to entries limit))
    (fun acc =>
       Returned
         (VDict [(u"total_sets", VInt (Z.of_nat (List.length entries)));
                 (u"structure_keys", VList (keys d));
                 (u"sample_sets", VList (sample_sets acc));
                 (u"set_types", VList (enumerate (order w) (set_types acc)));
                 (u"date_range",
                  VDict [(u"oldest", oldest acc);
                         (u"newest", newest acc)])])).
Proof.
  intros Hfetch Hd Hcoll.
  change (explore_sets self limit) with (explore self (Sets limit)).
  rewrite explore_result. cbn [endpoint_of params_of].
  rewrite Hfetch. cbn [obind]. rewrite Hd. cbn [negb analyse].
  unfold analyse_sets. rewrite (collection_get d entries Hcoll).
  reflexivity.
Qed.

(** The same for [explore_cards]. *)
Lemma explore_cards_loop self set_core limit w d cards :
  result (_make_request self (u"/cards/search")
            (params_of (Cards set_core limit))) w = Returned (VDict d) ->
  truthy (VDict d) = true ->
  collection d = Some cards ->
  result (explore_cards self set_core limit) w =
  obind (for_each cards_body (CardsAcc [] [] [] [] [])
                  (slice_to cards limit))
    (fun acc =>
       Returned
         (VDict [(u"total_cards", entry_or (VInt 0) "total_cards" d);
                 (u"has_more", entry_or (VBool false) "has_more" d);
                 (u"structure_keys", VList (keys d));
                 (u"sample_cards", VList (sample_cards acc));
                 (u"card_types",
                  VList (enumerate (order w) (card_types acc)));
                 (u"colors", VList (enumerate (order w) (colors acc)));
                 (u"rarities", VList (enumerate (order w) (rarities acc)));
                 (u"languages",
                  VList (enumerate (order w) (languages acc)))])).
Proof.
  intros Hfetch Hd Hcoll.
  change (explore_cards self set_core limit)
    with (explore self (Cards set_core limit)).
  rewrite explore_result. cbn [endpoint_of].
  rewrite Hfetch. cbn [obind]. rewrite Hd. cbn [negb analyse].
  unfold analyse_cards. cbn [get obind list_keys].
  change (match lookup (u"data") d with
          | Some v => v
          | None => VList []
          end) with
    (match get (VDict d) (u"data") (VList []) with
     | Returned v => v
     | Raised _ => VNone
     end).
  rewrite (collection_get d cards Hcoll). reflexivity.
Qed.

(** *** Entries of the wrong shape *)

Lemma sets_body_error acc bad x :
  set_entry_error bad = Some x -> sets_body acc bad = Raised x.
Proof.
  destruct bad as [| | | | | | d]; intros H;
    try (injection H as <-; reflexivity).
  unfold set_entry_error in H. unfold sets_body.
  rewrite set_info_of_dict. cbn [obind].
  rewrite !get_entry. cbn [obind]. unfold set_add.
  destruct (hashable (entry_get "set_type" (VDict d)));
    [discriminate H | injection H as <-; reflexivity].
Qed.

(** The first sampled entry that is no object makes [explore_sets] raise
    [AttributeError], and the first whose [set_type] is an array or an
    object makes it raise [TypeError]: the entries before it were
    processed, but no summary comes back. *)
Theorem explore_sets_bad_entry self limit w d entries good bad rest x :
  result (_make_request self (u"/sets") VNone) w = Returned (VDict d) ->
  truthy (VDict d) = true ->
  collection d = Some entries ->
  slice_to entries limit = good ++ bad :: rest ->
  forallb set_entry_ok good = true ->
  set_entry_error bad = Some x ->
  result (explore_sets self limit) w = Raised x.
Proof.
  intros Hfetch Hd Hcoll Hslice Hgood Hbad.
  rewrite (explore_sets_loop self limit w d entries Hfetch Hd Hcoll).
  rewrite Hslice, for_each_app.
  destruct (sets_loop good (SetsAcc [] [] VNone VNone) Hgood)
    as (acc & infos & -> & _); [split; left; reflexivity |].
  cbn [obind for_each]. rewrite (sets_body_error acc bad x Hbad).
  reflexivity.
Qed.

Lemma explore_sets_bad_entry_witness :
  result (explore_sets explorer0 5)
         (serving insertion_order
                  (VDict [(u"data", VList [set_inr; str "mh1"; set_mh1])]))
    = Raised AttributeError.
Proof.
  apply (explore_sets_bad_entry explorer0 5
           (serving insertion_order
                    (VDict [(u"data", VList [set_inr; str "mh1"; set_mh1])]))
           [(u"data", VList [set_inr; str "mh1"; set_mh1])]
           [set_inr; str "mh1"; set_mh1] [set_inr] (str "mh1") [set_mh1]
           AttributeError); reflexivity.
Defined.

Lemma cards_body_error acc bad x :
  card_error bad = Some x -> cards_body acc bad = Raised x.
Proof.
  destruct bad as [| | | | | | d]; intros H;
    try (injection H as <-; reflexivity).
  unfold card_error in H. unfold cards_body.
  destruct (card_info_of_dict d) as [info ->]. cbn [obind].
  rewrite !get_entry. cbn [obind].
  destruct (truthy (entry_get "type_line" (VDict d)));
    [| discriminate H].
  destruct (entry_get "type_line" (VDict d)); try discriminate H;
    injection H as <-; reflexivity.
Qed.

(** The first sampled card that is no object, or whose [type_line]
    counts and is no string, makes [explore_cards] raise
    [AttributeError]. *)
Theorem explore_cards_bad_card self set_core limit w d cards good bad rest x :
  result (_make_request self (u"/cards/search")
            (params_of (Cards set_core limit))) w = Returned (VDict d) ->
  truthy (VDict d) = true ->
  collection d = Some cards ->
  slice_to cards limit = good ++ bad :: rest ->
  forallb card_ok good = true ->
  card_error bad = Some x ->
  result (explore_cards self set_core limit) w = Raised x.
Proof.
  intros Hfetch Hd Hcoll Hslice Hgood Hbad.
  rewrite (explore_cards_loop self set_core limit w d cards Hfetch Hd Hcoll).
  rewrite Hslice, for_each_app.
  destruct (cards_loop good (CardsAcc [] [] [] [] []) Hgood)
    as (acc & -> & _); [constructor | constructor |].
  cbn [obind for_each]. rewrite (cards_body_error acc bad x Hbad).
  reflexivity.
Qed.

Lemma explore_cards_bad_card_witness :
  result (explore_cards explorer0 (u"inr") 5)
         (serving insertion_order
            (VDict [(u"data",
                     VList [card_bolt; obj [("type_line", VInt 7)]])]))
    = Raised AttributeError.
Proof.
  apply (explore_cards_bad_card explorer0 (u"inr") 5
           (serving insertion_order
              (VDict [(u"data",
                       VList [card_bolt; obj [("type_line", VInt 7)]])]))
           [(u"data", VList [card_bolt; obj [("type_line", VInt 7)]])]
           [card_bolt; obj [("type_line", VInt 7)]]
           [card_bolt] (obj [("type_line", VInt 7)]) []
           AttributeError); reflexivity.
Defined.

(** *** Sets of plain values *)

Lemma py_eqb_none w : py_eqb w VNone = true <-> w = VNone.
Proof.
  destruct w as [| b | z | f | t | l | d]; simpl;
    try (split; [discriminate | congruence]).
  tauto.
Qed.

Lemma member_simple s v :
  simple v = true -> (member v s = true <-> In v s).
Proof.
  intros Hv. unfold member. rewrite existsb_exists.
  assert (Heq : forall w, py_eqb w v = true <-> w = v).
  { destruct v; try discriminate Hv; intros w;
      [apply py_eqb_none | apply py_eqb_str]. }
  split.
  - intros (w & Hin & Hw). apply Heq in Hw. subst. exact Hin.
  - intros Hin. exists v. split; [exact Hin | apply Heq; reflexivity].
Qed.

(** Adding a plain value to a set of plain values. *)
Lemma set_add_simple s v s' :
  simple v = true -> all_simple s -> NoDup s ->
  set_add s v = Returned s' ->
  all_simple s' /\ NoDup s' /\ (forall x, In x s' <-> In x s \/ x = v).
Proof.
  intros Hv Hs Hnd. unfold set_add.
  assert (Hh : hashable v = true) by (destruct v; try discriminate; auto).
  rewrite Hh. destruct (member v s) eqn:Hm; intros H; injection H as <-.
  - apply (member_simple s v Hv) in Hm.
    split; [exact Hs |]. split; [exact Hnd |].
    intros x. split; [auto |]. intros [H | ->]; assumption.
  - assert (Hnot : ~ In v s).
    { intros H. apply (member_simple s v Hv) in H. congruence. }
    split; [apply Forall_app; split; [exact Hs | constructor; auto] |].
    split.
    + apply NoDup_app; [exact Hnd | repeat constructor; simpl; tauto |].
      intros y Hy [<- | []]. exact (Hnot Hy).
    + intros x. rewrite in_app_iff. simpl. split.
      * intros [H | [<- | []]]; auto.
      * intros [H | ->]; auto.
Qed.

(** *** [explore_sets]: the set types and where the range comes from *)

Lemma sets_body_dict acc e acc' :
  sets_body acc e = Returned acc' -> exists d, e = VDict d.
Proof.
  destruct e; try discriminate. eauto.
Qed.

(** What one turn of the loop does to [set_types]. *)
Lemma sets_body_types acc e acc' :
  sets_body acc e = Returned acc' ->
  set_add (set_types acc) (entry_get "set_type" e)
    = Returned (set_types acc').
Proof.
  intros H. destruct (sets_body_dict acc e acc' H) as [d ->].
  revert H. unfold sets_body. rewrite set_info_of_dict. cbn [obind].
  rewrite !get_entry. cbn [obind].
  destruct (set_add (set_types acc) (entry_get "set_type" (VDict d)))
    as [types | x]; cbn [obind]; [| discriminate].
  destruct (truthy (entry_get "released_at" (VDict d))).
  - destruct (improves OpLt _ (oldest acc)); cbn [obind]; [| discriminate].
    destruct (improves OpGt _ (newest acc)); cbn [obind]; [| discriminate].
    intros H. injection H as <-. reflexivity.
  - intros H. injection H as <-. reflexivity.
Qed.

Lemma sets_types_loop items : forall acc acc',
  for_each sets_body acc items = Returned acc' ->
  Forall (fun e => simple (entry_get "set_type" e) = true) items ->
  all_simple (set_types acc) -> NoDup (set_types acc) ->
  NoDup (set_types acc') /\
  (forall x, In x (set_types acc') <->
             In x (set_types acc) \/
             exists e, In e items /\ entry_get "set_type" e = x).
Proof.
  induction items as [| e items IH]; intros acc acc' Hrun Hitems Hs Hnd.
  - simpl in Hrun. injection Hrun as <-. split; [exact Hnd |].
    intros x. split; [auto |]. intros [H | (e & [] & _)]. exact H.
  - simpl in Hrun. destruct (sets_body acc e) as [acc1 | ] eqn:Hbody;
      [| discriminate Hrun]. cbn [obind] in Hrun.
    inversion Hitems as [| ? ? He Hrest]; subst.
    destruct (set_add_simple _ _ _ He Hs Hnd (sets_body_types _ _ _ Hbody))
      as (Hs1 & Hnd1 & Hin1).
    destruct (IH acc1 acc' Hrun Hrest Hs1 Hnd1) as (Hnd' & Hin').
    split; [exact Hnd' |]. intros x. rewrite Hin', Hin1. split.
    + intros [[H | ->] | (e' & He' & H)].
      * auto.
      * right. exists e. simpl. auto.
      * right. exists e'. simpl. auto.
    + intros [H | (e' & [<- | He'] & H)].
      * auto.
      * left. right. symmetry. exact H.
      * right. eauto.
Qed.

(** [set_types] lists, each once, the [set_type] values of the sampled
    entries, a missing [set_type] counting as [None]. *)
Theorem explore_sets_set_types self limit w d entries :
  result (_make_request self (u"/sets") VNone) w = Returned (VDict d) ->
  truthy (VDict d) = true ->
  collection d = Some entries ->
  forallb set_entry_plain (slice_to entries limit) = true ->
  exists a ts,
    result (explore_sets self limit) w = Returned a /\
    field "set_types" a = Some (VList ts) /\
    NoDup ts /\
    (forall x, In x ts <->
               exists e, In e (slice_to entries limit) /\
                         entry_get "set_type" e = x).
Proof.
  intros Hfetch Hd Hcoll Hplain.
  assert (Hok : forallb set_entry_ok (slice_to entries limit) = true).
  { rewrite forallb_forall in *. intros e He.
    specialize (Hplain e He). unfold set_entry_plain in Hplain.
    apply andb_prop in Hplain. tauto. }
  assert (Hsimple : Forall (fun e => simple (entry_get "set_type" e) = true)
                           (slice_to entries limit)).
  { rewrite Forall_forall. rewrite forallb_forall in Hplain.
    intros e He. specialize (Hplain e He). unfold set_entry_plain in Hplain.
    apply andb_prop in Hplain. tauto. }
  destruct (sets_loop (slice_to entries limit)
              (SetsAcc [] [] VNone VNone) Hok)
    as (acc & infos & Hloop & _); [split; left; reflexivity |].
  destruct (sets_types_loop _ _ _ Hloop Hsimple) as (Hnd & Hin);
    [constructor | constructor |].
  eexists. exists (enumerate (order w) (set_types acc)). split.
  - rewrite (explore_sets_loop self limit w d entries Hfetch Hd Hcoll).
    rewrite Hloop. reflexivity.
  - split; [reflexivity |]. split.
    + apply (Permutation_NoDup (Permutation_sym (enumerate_perm _ _))).
      exact Hnd.
    + intros x. split.
      * intros H. apply (Permutation_in x (enumerate_perm _ _)) in H.
        apply Hin in H. destruct H as [[] | H]. exact H.
      * intros H.
        apply (Permutation_in x (Permutation_sym (enumerate_perm _ _))).
        apply Hin. right. exact H.
Qed.

Lemma explore_sets_set_types_witness :
  exists a ts,
    result (explore_sets explorer0 5)
           (serving insertion_order (VDict two_sets)) = Returned a /\
    field "set_types" a = Some (VList ts) /\
    NoDup ts /\
    (forall x, In x ts <->
               exists e, In e (slice_to [set_inr; set_mh1] 5) /\
                         entry_get "set_type" e = x).
Proof.
  apply (explore_sets_set_types explorer0 5
           (serving insertion_order (VDict two_sets)) two_sets
           [set_inr; set_mh1]); reflexivity.
Defined.

(** What one turn of the loop does to a bound: it takes the release
    date of the entry, or it stays; it stays only when the entry has no
    date that counts or the bound was set already. *)
Lemma improves_truthy op r bound b :
  improves op r bound = Returned b -> b = false -> truthy bound = true.
Proof.
  unfold improves. destruct (truthy bound); [reflexivity |].
  cbn [negb]. intros H ->. discriminate H.
Qed.

Lemma sets_body_range acc e acc' :
  sets_body acc e = Returned acc' ->
  if dated e then
    (oldest acc' = entry_get "released_at" e \/
     oldest acc' = oldest acc /\ truthy (oldest acc) = true) /\
    (newest acc' = entry_get "released_at" e \/
     newest acc' = newest acc /\ truthy (newest acc) = true)
  else oldest acc' = oldest acc /\ newest acc' = newest acc.
Proof.
  intros H. destruct (sets_body_dict acc e acc' H) as [d ->].
  revert H. unfold sets_body, dated. rewrite set_info_of_dict. cbn [obind].
  rewrite !get_entry. cbn [obind].
  destruct (set_add (set_types acc) (entry_get "set_type" (VDict d)))
    as [types | x]; cbn [obind]; [| discriminate].
  destruct (truthy (entry_get "released_at" (VDict d))).
  - destruct (improves OpLt _ (oldest acc)) as [lo |] eqn:Hlo;
      cbn [obind]; [| discriminate].
    destruct (improves OpGt _ (newest acc)) as [hi |] eqn:Hhi;
      cbn [obind]; [| discriminate].
    intros H. injection H as <-. cbn [oldest newest]. split.
    + destruct lo; [left; reflexivity |].
      right. split; [reflexivity |].
      exact (improves_truthy _ _ _ _ Hlo eq_refl).
    + destruct hi; [left; reflexivity |].
      right. split; [reflexivity |].
      exact (improves_truthy _ _ _ _ Hhi eq_refl).
  - intros H. injection H as <-. split; reflexivity.
Qed.

Lemma sets_range_loop items : forall acc acc',
  for_each sets_body acc items = Returned acc' ->
  reached (oldest acc) (oldest acc') items /\
  reached (newest acc) (newest acc') items /\
  (truthy (oldest acc) = true \/ (exists e, In e items /\ dated e = true) ->
   truthy (oldest acc') = true) /\
  (truthy (newest acc) = true \/ (exists e, In e items /\ dated e = true) ->
   truthy (newest acc') = true).
Proof.
  unfold reached.
  induction items as [| e items IH]; intros acc acc' Hrun.
  - simpl in Hrun. injection Hrun as <-.
    repeat split; auto; intros [H | (e & [] & _)]; exact H.
  - simpl in Hrun. destruct (sets_body acc e) as [acc1 |] eqn:Hbody;
      [| discriminate Hrun]. cbn [obind] in Hrun.
    destruct (IH acc1 acc' Hrun) as (Ho & Hn & Hto & Htn).
    pose proof (sets_body_range acc e acc1 Hbody) as Hstep.
    destruct (dated e) eqn:Hdated.
    + destruct Hstep as [Hso Hsn].
      assert (Ht1 : truthy (oldest acc1) = true).
      { destruct Hso as [-> | [-> H]]; [exact Hdated | exact H]. }
      assert (Ht2 : truthy (newest acc1) = true).
      { destruct Hsn as [-> | [-> H]]; [exact Hdated | exact H]. }
      split; [| split; [| split; intros _; auto]].
      * destruct Ho as [-> | (e' & He' & Hd' & ->)].
        -- destruct Hso as [-> | [-> _]]; [| left; reflexivity].
           right. exists e. simpl. auto.
        -- right. exists e'. simpl. auto.
      * destruct Hn as [-> | (e' & He' & Hd' & ->)].
        -- destruct Hsn as [-> | [-> _]]; [| left; reflexivity].
           right. exists e. simpl. auto.
        -- right. exists e'. simpl. auto.
    + destruct Hstep as [Hso Hsn]. rewrite Hso in *. rewrite Hsn in *.
      split; [| split; [| split]].
      * destruct Ho as [-> | (e' & He' & Hd' & ->)]; [left; reflexivity |].
        right. exists e'. simpl. auto.
      * destruct Hn as [-> | (e' & He' & Hd' & ->)]; [left; reflexivity |].
        right. exists e'. simpl. auto.
      * intros [H | (e' & [<- | He'] & Hd')]; [auto | congruence | eauto].
      * intros [H | (e' & [<- | He'] & Hd')]; [auto | congruence | eauto].
Qed.

(** The range is attained.  When no sampled entry has a release date
    that counts, [oldest] and [newest] stay [None]; otherwise each is the
    release date of a sampled entry, and [oldest <= newest]. *)
Theorem explore_sets_range_attained self limit w d entries :
  result (_make_request self (u"/sets") VNone) w = Returned (VDict d) ->
  truthy (VDict d) = true ->
  collection d = Some entries ->
  forallb set_entry_ok (slice_to entries limit) = true ->
  exists a o n,
    result (explore_sets self limit) w = Returned a /\
    field "date_range" a = Some (VDict [(u"oldest", o); (u"newest", n)]) /\
    ((forall e, In e (slice_to entries limit) -> dated e = false) ->
     o = VNone /\ n = VNone) /\
    ((exists e, In e (slice_to entries limit) /\ dated e = true) ->
     exists e1 e2 so sn,
       In e1 (slice_to entries limit) /\ In e2 (slice_to entries limit) /\
       entry_get "released_at" e1 = VStr so /\
       entry_get "released_at" e2 = VStr sn /\
       o = VStr so /\ n = VStr sn /\ str_leb so sn = true).
Proof.
  intros Hfetch Hd Hcoll Hok.
  destruct (sets_loop (slice_to entries limit)
              (SetsAcc [] [] VNone VNone) Hok)
    as (acc & infos & Hloop & _ & _ & _ & _ & Hwithin);
    [split; left; reflexivity |].
  destruct (sets_range_loop _ _ _ Hloop) as (Ho & Hn & Hto & Htn).
  cbn [oldest newest] in Ho, Hn, Hto, Htn.
  eexists. exists (oldest acc), (newest acc). split.
  { rewrite (explore_sets_loop self limit w d entries Hfetch Hd Hcoll).
    rewrite Hloop. reflexivity. }
  split; [reflexivity |]. split.
  - intros Hnone. split.
    + destruct Ho as [-> | (e & He & Hde & _)]; [reflexivity |].
      rewrite (Hnone e He) in Hde. discriminate.
    + destruct Hn as [-> | (e & He & Hde & _)]; [reflexivity |].
      rewrite (Hnone e He) in Hde. discriminate.
  - intros Hsome.
    specialize (Hto (or_intror Hsome)). specialize (Htn (or_intror Hsome)).
    destruct Ho as [Ho | (e1 & He1 & Hd1 & Ho)];
      [rewrite Ho in Hto; discriminate |].
    destruct Hn as [Hn | (e2 & He2 & Hd2 & Hn)];
      [rewrite Hn in Htn; discriminate |].
    assert (Hstr : forall e, In e (slice_to entries limit) ->
                   dated e = true ->
                   exists s, entry_get "released_at" e = VStr s /\ s <> []).
    { intros e He Hde. rewrite forallb_forall in Hok.
      specialize (Hok e He). unfold dated in Hde.
      destruct e as [| | | | | | fields]; try discriminate Hok.
      unfold set_entry_ok in Hok. apply andb_prop in Hok.
      destruct Hok as [_ Hdate]. rewrite Hde in Hdate.
      cbn [negb orb] in Hdate.
      destruct (entry_get "released_at" (VDict fields)) as [| | | | s | |];
        try discriminate Hdate.
      exists s. split; [reflexivity |]. intros ->. discriminate Hde. }
    destruct (Hstr e1 He1 Hd1) as (so & Hso & Hne1).
    destruct (Hstr e2 He2 Hd2) as (sn & Hsn & Hne2).
    exists e1, e2, so, sn.
    rewrite Ho, Hn, Hso, Hsn. repeat split; auto.
    destruct (Hwithin e1 so He1 Hso Hne1) as (so' & sn' & Eo & En & _ & Hle).
    rewrite Ho, Hso in Eo. rewrite Hn, Hsn in En.
    injection Eo as <-. injection En as <-. exact Hle.
Qed.

Lemma explore_sets_range_attained_witness :
  exists a o n,
    result (explore_sets explorer0 5)
           (serving insertion_order (VDict two_sets)) = Returned a /\
    field "date_range" a = Some (VDict [(u"oldest", o); (u"newest", n)]) /\
    ((forall e, In e (slice_to [set_inr; set_mh1] 5) -> dated e = false) ->
     o = VNone /\ n = VNone) /\
    ((exists e, In e (slice_to [set_inr; set_mh1] 5) /\ dated e = true) ->
     exists e1 e2 so sn,
       In e1 (slice_to [set_inr; set_mh1] 5) /\
       In e2 (slice_to [set_inr; set_mh1] 5) /\
       entry_get "released_at" e1 = VStr so /\
       entry_get "released_at" e2 = VStr sn /\
       o = VStr so /\ n = VStr sn /\ str_leb so sn = true).
Proof.
  apply (explore_sets_range_attained explorer0 5
           (serving insertion_order (VDict two_sets)) two_sets
           [set_inr; set_mh1]); reflexivity.
Defined.

(** *** [explore_cards]: sample, buckets, rarities, languages *)

Lemma set_add_all_simple l : forall s s',
  set_add_all s l = Returned s' ->
  all_simple l -> all_simple s -> NoDup s ->
  all_simple s' /\ NoDup s' /\ (forall x, In x s' <-> In x s \/ In x l).
Proof.
  induction l as [| v l IH]; intros s s' Hrun Hl Hs Hnd.
  - simpl in Hrun. injection Hrun as <-.
    split; [exact Hs |]. split; [exact Hnd |]. intros x. simpl. tauto.
  - simpl in Hrun. destruct (set_add s v) as [s1 |] eqn:Hadd;
      [| discriminate Hrun]. cbn [obind] in Hrun.
    inversion Hl as [| ? ? Hv Hl']; subst.
    destruct (set_add_simple s v s1 Hv Hs Hnd Hadd) as (Hs1 & Hnd1 & Hin1).
    destruct (IH s1 s' Hrun Hl' Hs1 Hnd1) as (Hs' & Hnd' & Hin').
    split; [exact Hs' |]. split; [exact Hnd' |].
    intros x. rewrite Hin', Hin1. simpl. split.
    + intros [[H | ->] | H]; auto.
    + intros [H | [<- | H]]; auto.
Qed.

(** A loop whose body adds to one of its sets what each item contributes
    ends with the set holding what it held and what the items
    contributed, each member once. *)
Lemma contributions_loop {S} (body : S -> value -> outcome S)
      (proj : S -> pyset) (contrib : value -> list value) :
  (forall acc c acc',
     body acc c = Returned acc' ->
     set_add_all (proj acc) (contrib c) = Returned (proj acc')) ->
  forall items acc acc',
    for_each body acc items = Returned acc' ->
    Forall (fun c => all_simple (contrib c)) items ->
    all_simple (proj acc) -> NoDup (proj acc) ->
    NoDup (proj acc') /\
    (forall x, In x (proj acc') <->
               In x (proj acc) \/ exists c, In c items /\ In x (contrib c)).
Proof.
  intros Hbody. induction items as [| c items IH];
    intros acc acc' Hrun Hitems Hs Hnd.
  - simpl in Hrun. injection Hrun as <-. split; [exact Hnd |].
    intros x. split; [auto |]. intros [H | (c & [] & _)]. exact H.
  - simpl in Hrun. destruct (body acc c) as [acc1 |] eqn:Hc;
      [| discriminate Hrun]. cbn [obind] in Hrun.
    inversion Hitems as [| ? ? Hcs Hrest]; subst.
    destruct (set_add_all_simple _ _ _ (Hbody _ _ _ Hc) Hcs Hs Hnd)
      as (Hs1 & Hnd1 & Hin1).
    destruct (IH acc1 acc' Hrun Hrest Hs1 Hnd1) as (Hnd' & Hin').
    split; [exact Hnd' |]. intros x. rewrite Hin', Hin1. split.
    + intros [[H | H] | (c' & Hc' & H)].
      * auto.
      * right. exists c. simpl. auto.
      * right. exists c'. simpl. auto.
    + intros [H | (c' & [<- | Hc'] & H)]; eauto.
Qed.

Lemma cards_body_dict acc c acc' :
  cards_body acc c = Returned acc' -> exists d, c = VDict d.
Proof. destruct c; try discriminate. eauto. Qed.

Lemma set_add_one (s : pyset) v :
  set_add_all s [v] = set_add s v.
Proof. simpl. destruct (set_add s v); reflexivity. Qed.

Lemma add_field_counted d k (s s' : pyset) :
  add_field (VDict d) (u k) s = Returned s' ->
  set_add_all s (counted k (VDict d)) = Returned s'.
Proof.
  unfold add_field, counted. rewrite !get_entry. cbn [obind].
  destruct (truthy (entry_get k (VDict d)));
    [rewrite set_add_one |]; auto.
Qed.

Lemma type_bucket_counted d (types types' : pyset) :
  (if truthy (entry_get "type_line" (VDict d)) then
     obind (get (VDict d) (u"type_line") VNone) (fun tl =>
     obind (split_first_strip tl hyphen) (set_add types))
   else Returned types) = Returned types' ->
  set_add_all types (type_buckets (VDict d)) = Returned types'.
Proof.
  unfold type_buckets. rewrite get_entry. cbn [obind].
  destruct (truthy (entry_get "type_line" (VDict d))) eqn:Htl.
  - destruct (entry_get "type_line" (VDict d)) as [| | | | tl | |];
      try discriminate.
    rewrite Htl. unfold split_first_strip, bucket_of.
    destruct (split_nonempty hyphen tl) as (p & ps & ->).
    cbn [obind hd]. rewrite set_add_one. auto.
  - intros H. destruct (entry_get "type_line" (VDict d));
      try exact H. rewrite Htl. exact H.
Qed.

(** What one turn of the loop of [explore_cards] does to the sample and
    to the three sets of single values. *)
Lemma cards_body_parts acc c acc' :
  cards_body acc c = Returned acc' ->
  (exists info, card_info_of c = Returned info /\
                sample_cards acc' = sample_cards acc ++ [info]) /\
  set_add_all (card_types acc) (type_buckets c)
    = Returned (card_types acc') /\
  set_add_all (rarities acc) (counted "rarity" c)
    = Returned (rarities acc') /\
  set_add_all (languages acc) (counted "lang" c)
    = Returned (languages acc').
Proof.
  intros H. destruct (cards_body_dict acc c acc' H) as [d ->].
  revert H. unfold cards_body.
  destruct (card_info_of_dict d) as [info ->]. cbn [obind].
  change (get (VDict d) (u"type_line") VNone)
    with (Returned (entry_get "type_line" (VDict d))) at 1.
  cbn [obind].
  match goal with
  | |- obind ?o _ = _ -> _ =>
      destruct o as [types |] eqn:Htypes; cbn [obind]; [| discriminate]
  end.
  destruct (add_field (VDict d) (u"rarity") (rarities acc))
    as [rars |] eqn:Hrars; cbn [obind]; [| discriminate].
  change (get (VDict d) (u"colors") VNone)
    with (Returned (entry_get "colors" (VDict d))) at 1.
  cbn [obind].
  match goal with
  | |- obind ?o _ = _ -> _ =>
      destruct o as [cols |]; cbn [obind]; [| discriminate]
  end.
  destruct (add_field (VDict d) (u"lang") (languages acc))
    as [langs |] eqn:Hlangs; cbn [obind]; [| discriminate].
  intros H. injection H as <-.
  cbn [sample_cards card_types rarities languages].
  split; [eexists; split; reflexivity |].
  split; [apply type_bucket_counted, Htypes |].
  split; [apply (add_field_counted d "rarity"), Hrars
         | apply (add_field_counted d "lang"), Hlangs].
Qed.

Lemma cards_sample_loop items : forall acc acc',
  for_each cards_body acc items = Returned acc' ->
  exists infos,
    sample_cards acc' = sample_cards acc ++ infos /\
    Forall2 (fun c info => card_info_of c = Returned info) items infos.
Proof.
  induction items as [| c items IH]; intros acc acc' Hrun.
  - simpl in Hrun. injection Hrun as <-. exists [].
    rewrite app_nil_r. split; [reflexivity | constructor].
  - simpl in Hrun. destruct (cards_body acc c) as [acc1 |] eqn:Hc;
      [| discriminate Hrun]. cbn [obind] in Hrun.
    destruct (cards_body_parts acc c acc1 Hc) as ((info & Hinfo & Hs) & _).
    destruct (IH acc1 acc' Hrun) as (infos & Hs' & Hall).
    exists (info :: infos). split; [| constructor; assumption].
    rewrite Hs', Hs, <- app_assoc. reflexivity.
Qed.

(** On a card payload [total_cards] and [has_more] are the payload's own
    fields ([0] and [False] when absent: nothing is counted),
    [structure_keys] lists the payload's keys in order, and
    [sample_cards] describes, in order, the cards of [data[:limit]]. *)
Theorem explore_cards_sample self set_core limit w d cards :
  result (_make_request self (u"/cards/search")
            (params_of (Cards set_core limit))) w = Returned (VDict d) ->
  truthy (VDict d) = true ->
  collection d = Some cards ->
  forallb card_ok (slice_to cards limit) = true ->
  exists a samples,
    result (explore_cards self set_core limit) w = Returned a /\
    field "total_cards" a = Some (entry_or (VInt 0) "total_cards" d) /\
    field "has_more" a = Some (entry_or (VBool false) "has_more" d) /\
    field "structure_keys" a = Some (VList (keys d)) /\
    field "sample_cards" a = Some (VList samples) /\
    Forall2 (fun c info => card_info_of c = Returned info)
            (firstn (List.length samples) cards) samples /\
    List.length samples = slice_stop (List.length cards) limit.
Proof.
  intros Hfetch Hd Hcoll Hok.
  destruct (cards_loop (slice_to cards limit) (CardsAcc [] [] [] [] []) Hok)
    as (acc & Hloop & _); [constructor | constructor |].
  destruct (cards_sample_loop _ _ _ Hloop) as (infos & Hs & Hall).
  cbn [sample_cards app] in Hs.
  assert (Hlen : List.length infos = slice_stop (List.length cards) limit).
  { rewrite <- (Forall2_length Hall). apply slice_to_length. }
  eexists. exists infos. split.
  { rewrite (explore_cards_loop self set_core limit w d cards
               Hfetch Hd Hcoll).
    rewrite Hloop. cbn [obind]. rewrite Hs. reflexivity. }
  repeat (split; [reflexivity |]).
  split; [| exact Hlen]. rewrite Hlen. exact Hall.
Qed.

Lemma explore_cards_sample_witness :
  exists a samples,
    result (explore_cards explorer0 (u"inr") 2)
           (serving insertion_order (VDict three_cards)) = Returned a /\
    field "total_cards" a
      = Some (entry_or (VInt 0) "total_cards" three_cards) /\
    field "has_more" a
      = Some (entry_or (VBool false) "has_more" three_cards) /\
    field "structure_keys" a = Some (VList (keys three_cards)) /\
    field "sample_cards" a = Some (VList samples) /\
    Forall2 (fun c info => card_info_of c = Returned info)
            (firstn (List.length samples)
                    [card_bolt; card_ring; card_charm]) samples /\
    List.length samples = slice_stop (List.length
                                        [card_bolt; card_ring; card_charm]) 2.
Proof.
  apply (explore_cards_sample explorer0 (u"inr") 2
           (serving insertion_order (VDict three_cards)) three_cards
           [card_bolt; card_ring; card_charm]); reflexivity.
Defined.

(** **** Splitting and stripping *)

Lemma split_head_no_sep sep s : ~ In sep (hd [] (split sep s)).
Proof.
  induction s as [| c s IH]; simpl; [tauto |].
  destruct (N.eqb_spec c sep) as [-> | Hne]; [simpl; tauto |].
  destruct (split sep s) as [| p ps]; simpl in *.
  - intros [H | []]. congruence.
  - intros [H | H]; [congruence | exact (IH H)].
Qed.

Lemma lstrip_incl s c : In c (lstrip s) -> In c s.
Proof.
  induction s as [| a s IH]; simpl; [tauto |].
  destruct (is_space a); simpl; tauto.
Qed.

Lemma strip_incl s c : In c (strip s) -> In c s.
Proof.
  unfold strip, rstrip. intros H.
  rewrite <- in_rev in H. apply lstrip_incl in H.
  rewrite <- in_rev in H. apply lstrip_incl. exact H.
Qed.

Lemma lstrip_head s :
  lstrip s = [] \/ exists c r, lstrip s = c :: r /\ is_space c = false.
Proof.
  induction s as [| a s IH]; simpl; [auto |].
  destruct (is_space a) eqn:E; [exact IH | eauto].
Qed.

Lemma lstrip_idem s : lstrip (lstrip s) = lstrip s.
Proof.
  destruct (lstrip_head s) as [-> | (c & r & -> & Hc)]; [reflexivity |].
  simpl. rewrite Hc. reflexivity.
Qed.

Lemma lstrip_snoc l c :
  is_space c = false -> lstrip (l ++ [c]) = lstrip l ++ [c].
Proof.
  intros Hc. induction l as [| a l IH]; simpl.
  - rewrite Hc. reflexivity.
  - destruct (is_space a); [exact IH | reflexivity].
Qed.

Lemma rstrip_cons c s :
  is_space c = false -> rstrip (c :: s) = c :: rstrip s.
Proof.
  intros Hc. unfold rstrip. simpl.
  rewrite (lstrip_snoc _ _ Hc), rev_app_distr. reflexivity.
Qed.

Lemma rstrip_idem s : rstrip (rstrip s) = rstrip s.
Proof.
  unfold rstrip. rewrite rev_involutive, lstrip_idem. reflexivity.
Qed.

(** A stripped string has nothing left to strip. *)
Lemma strip_idem s : strip (strip s) = strip s.
Proof.
  unfold strip.
  destruct (lstrip_head s) as [-> | (c & r & -> & Hc)]; [reflexivity |].
  rewrite (rstrip_cons _ _ Hc). simpl. rewrite Hc.
  rewrite (rstrip_cons _ _ Hc), rstrip_idem. reflexivity.
Qed.

Lemma type_buckets_simple c : all_simple (type_buckets c).
Proof.
  unfold type_buckets.
  destruct (entry_get "type_line" c) as [| | | | t | |]; try constructor.
  destruct (truthy (VStr t)); repeat constructor.
Qed.

Lemma bucket_clean t :
  ~ In hyphen (bucket_of t) /\ strip (bucket_of t) = bucket_of t.
Proof.
  unfold bucket_of. split; [| apply strip_idem].
  intros H. apply strip_incl in H. exact (split_head_no_sep _ _ H).
Qed.

Lemma enumerate_in (ord : set_order) s x : In x (enumerate ord s) <-> In x s.
Proof.
  split; intros H.
  - exact (Permutation_in x (enumerate_perm ord s) H).
  - exact (Permutation_in x (Permutation_sym (enumerate_perm ord s)) H).
Qed.

Lemma enumerate_nodup (ord : set_order) s : NoDup s -> NoDup (enumerate ord s).
Proof.
  apply (Permutation_NoDup (Permutation_sym (enumerate_perm ord s))).
Qed.

(** [card_types] lists, each once, the buckets of the sampled cards whose
    [type_line] counts: the text before the first hyphen-minus (U+002D),
    stripped.  No bucket contains a hyphen-minus, and none begins or ends
    with white space (stripping it again changes nothing). *)
Theorem explore_cards_buckets self set_core limit w d cards :
  result (_make_request self (u"/cards/search")
            (params_of (Cards set_core limit))) w = Returned (VDict d) ->
  truthy (VDict d) = true ->
  collection d = Some cards ->
  forallb card_ok (slice_to cards limit) = true ->
  exists a ts,
    result (explore_cards self set_core limit) w = Returned a /\
    field "card_types" a = Some (VList ts) /\
    NoDup ts /\
    (forall x, In x ts <->
               exists c, In c (slice_to cards limit) /\
                         In x (type_buckets c)) /\
    (forall x, In x ts ->
               exists b, x = VStr b /\ ~ In hyphen b /\ strip b = b).
Proof.
  intros Hfetch Hd Hcoll Hok.
  destruct (cards_loop (slice_to cards limit) (CardsAcc [] [] [] [] []) Hok)
    as (acc & Hloop & _); [constructor | constructor |].
  destruct (contributions_loop cards_body card_types type_buckets
              (fun a c a' H => proj1 (proj2 (cards_body_parts a c a' H)))
              _ _ _ Hloop) as (Hnd & Hin);
    [ apply Forall_forall; intros c _; apply type_buckets_simple
    | constructor | constructor |].
  assert (Hts : forall x,
             In x (enumerate (order w) (card_types acc)) <->
             exists c, In c (slice_to cards limit) /\ In x (type_buckets c)).
  { intros x. rewrite enumerate_in, Hin. cbn [card_types In]. tauto. }
  eexists. exists (enumerate (order w) (card_types acc)). split.
  { rewrite (explore_cards_loop self set_core limit w d cards
               Hfetch Hd Hcoll).
    rewrite Hloop. reflexivity. }
  split; [reflexivity |]. split; [apply enumerate_nodup, Hnd |].
  split; [exact Hts |].
  intros x Hx. apply Hts in Hx. destruct Hx as (c & _ & Hx).
  unfold type_buckets in Hx.
  destruct (entry_get "type_line" c) as [| | | | t | |];
    try contradiction.
  destruct (truthy (VStr t)); [| contradiction].
  destruct Hx as [<- | []]. exists (bucket_of t).
  split; [reflexivity | apply bucket_clean].
Qed.

Lemma explore_cards_buckets_witness :
  exists a ts,
    result (explore_cards explorer0 (u"inr") 5)
           (serving insertion_order (VDict three_cards)) = Returned a /\
    field "card_types" a = Some (VList ts) /\
    NoDup ts /\
    (forall x, In x ts <->
               exists c, In c (slice_to [card_bolt; card_ring; card_charm] 5)
                         /\ In x (type_buckets c)) /\
    (forall x, In x ts ->
               exists b, x = VStr b /\ ~ In hyphen b /\ strip b = b).
Proof.
  apply (explore_cards_buckets explorer0 (u"inr") 5
           (serving insertion_order (VDict three_cards)) three_cards
           [card_bolt; card_ring; card_charm]); reflexivity.
Defined.

Lemma counted_simple k c :
  negb (truthy (entry_get k c)) || is_str (entry_get k c) = true ->
  all_simple (counted k c).
Proof.
  unfold counted. destruct (truthy (entry_get k c)); [| constructor].
  cbn [negb orb]. intros H.
  destruct (entry_get k c); try discriminate H. repeat constructor.
Qed.

(** [rarities] and [languages] list, each once, the [rarity] and the
    [lang] of the sampled cards that have one that counts: a card
    without the field, or with [null] or the empty string there, adds
    nothing. *)
Theorem explore_cards_rarities_languages self set_core limit w d cards :
  result (_make_request self (u"/cards/search")
            (params_of (Cards set_core limit))) w = Returned (VDict d) ->
  truthy (VDict d) = true ->
  collection d = Some cards ->
  forallb card_plain (slice_to cards limit) = true ->
  exists a rs ls,
    result (explore_cards self set_core limit) w = Returned a /\
    field "rarities" a = Some (VList rs) /\
    field "languages" a = Some (VList ls) /\
    NoDup rs /\ NoDup ls /\
    (forall x, In x rs <->
               exists c, In c (slice_to cards limit) /\
                         In x (counted "rarity" c)) /\
    (forall x, In x ls <->
               exists c, In c (slice_to cards limit) /\
                         In x (counted "lang" c)).
Proof.
  intros Hfetch Hd Hcoll Hplain.
  assert (Hparts : forall c, In c (slice_to cards limit) ->
            card_ok c = true /\
            all_simple (counted "rarity" c) /\
            all_simple (counted "lang" c)).
  { intros c Hc. rewrite forallb_forall in Hplain.
    specialize (Hplain c Hc). unfold card_plain in Hplain.
    apply andb_prop in Hplain. destruct Hplain as [Hplain Hl].
    apply andb_prop in Hplain. destruct Hplain as [Hok Hr].
    auto using counted_simple. }
  assert (Hok : forallb card_ok (slice_to cards limit) = true).
  { apply forallb_forall. intros c Hc. apply (Hparts c Hc). }
  destruct (cards_loop (slice_to cards limit) (CardsAcc [] [] [] [] []) Hok)
    as (acc & Hloop & _); [constructor | constructor |].
  destruct (contributions_loop cards_body rarities (counted "rarity")
              (fun a c a' H =>
                 proj1 (proj2 (proj2 (cards_body_parts a c a' H))))
              _ _ _ Hloop) as (Hndr & Hinr);
    [ apply Forall_forall; intros c Hc; apply (Hparts c Hc)
    | constructor | constructor |].
  destruct (contributions_loop cards_body languages (counted "lang")
              (fun a c a' H =>
                 proj2 (proj2 (proj2 (cards_body_parts a c a' H))))
              _ _ _ Hloop) as (Hndl & Hinl);
    [ apply Forall_forall; intros c Hc; apply (Hparts c Hc)
    | constructor | constructor |].
  eexists. exists (enumerate (order w) (rarities acc)),
                  (enumerate (order w) (languages acc)). split.
  { rewrite (explore_cards_loop self set_core limit w d cards
               Hfetch Hd Hcoll).
    rewrite Hloop. reflexivity. }
  split; [reflexivity |]. split; [reflexivity |].
  split; [apply enumerate_nodup, Hndr |].
  split; [apply enumerate_nodup, Hndl |]. split.
  - intros x. rewrite enumerate_in, Hinr. cbn [rarities In]. tauto.
  - intros x. rewrite enumerate_in, Hinl. cbn [languages In]. tauto.
Qed.

Lemma explore_cards_rarities_languages_witness :
  exists a rs ls,
    result (explore_cards explorer0 (u"inr") 5)
           (serving insertion_order (VDict three_cards)) = Returned a /\
    field "rarities" a = Some (VList rs) /\
    field "languages" a = Some (VList ls) /\
    NoDup rs /\ NoDup ls /\
    (forall x, In x rs <->
               exists c, In c (slice_to [card_bolt; card_ring; card_charm] 5)
                         /\ In x (counted "rarity" c)) /\
    (forall x, In x ls <->
               exists c, In c (slice_to [card_bolt; card_ring; card_charm] 5)
                         /\ In x (counted "lang" c)).
Proof.
  apply (explore_cards_rarities_languages explorer0 (u"inr") 5
           (serving insertion_order (VDict three_cards)) three_cards
           [card_bolt; card_ring; card_charm]); reflexivity.
Defined.

(** *** [save_exploration_results]: what is written, and when *)

(** The whole run of the persister, case by case. *)
Lemma save_run self results filename w t :
  save_exploration_results self results filename w t =
  let dir := u"data/exploration" in
  let path := u"data/exploration/" ++ filename in
  match fs_mkdir w dir true true with
  | Some e => (Raised e, t ++ [Mkdir dir true true])
  | None =>
      match fs_open w path with
      | Some e =>
          if isinstance e BException then
            (Returned VNone,
             t ++ [Mkdir dir true true; OpenWrite path (u"utf-8");
                   Log ERROR [T (u"Erro ao salvar "); T path; T (u": ");
                              X e]])
          else
            (Raised e, t ++ [Mkdir dir true true; OpenWrite path (u"utf-8")])
      | None =>
          match fs_dump w path results with
          | Some e =>
              if isinstance e BException then
                (Returned VNone,
                 t ++ [Mkdir dir true true; OpenWrite path (u"utf-8");
                       JsonDump path results 2 false;
                       Log ERROR [T (u"Erro ao salvar "); T path;
                                  T (u": "); X e]])
              else
                (Raised e,
                 t ++ [Mkdir dir true true; OpenWrite path (u"utf-8");
                       JsonDump path results 2 false])
          | None =>
              (Returned VNone,
               t ++ [Mkdir dir true true; OpenWrite path (u"utf-8");
                     JsonDump path results 2 false;
                     Log SUCCESS [T (u"Resultados salvos em: "); T path]])
          end
      end
  end.
Proof.
  cbv zeta.
  unfold save_exploration_results, mkdir, open_write, json_dump,
    try_except, throw_if, log, bind, emit, ask, lift, ret.
  destruct (fs_mkdir w (u"data/exploration") true true) as [e |];
    [reflexivity |].
  destruct (fs_open w (u"data/exploration/" ++ filename)) as [e |].
  - destruct (isinstance e BException); cbn;
      repeat rewrite <- app_assoc; reflexivity.
  - destruct (fs_dump w (u"data/exploration/" ++ filename) results)
      as [e |].
    + destruct (isinstance e BException); cbn;
        repeat rewrite <- app_assoc; reflexivity.
    + cbn. repeat rewrite <- app_assoc. reflexivity.
Qed.

(** A write that meets no failure does four things and no more: it
    makes the directory, opens [data/exploration/<filename>] as UTF-8,
    dumps the results as they are with [indent=2] and
    [ensure_ascii=False], and logs at level SUCCESS. *)
Theorem save_results_written self results filename w t :
  fs_mkdir w (u"data/exploration") true true = None ->
  write_failure w (u"data/exploration/" ++ filename) results = None ->
  save_exploration_results self results filename w t =
    (Returned VNone,
     t ++ [Mkdir (u"data/exploration") true true;
           OpenWrite (u"data/exploration/" ++ filename) (u"utf-8");
           JsonDump (u"data/exploration/" ++ filename) results 2 false;
           Log SUCCESS [T (u"Resultados salvos em: ");
                        T (u"data/exploration/" ++ filename)]]).
Proof.
  intros Hmk Hw. rewrite save_run. cbv zeta. rewrite Hmk.
  unfold write_failure in Hw.
  destruct (fs_open w _); [discriminate Hw |]. rewrite Hw. reflexivity.
Qed.

Lemma save_results_written_witness :
  save_exploration_results explorer0 sets_error (u"sets_analysis.json")
    (disk None None None) [] =
    (Returned VNone,
     [] ++ [Mkdir (u"data/exploration") true true;
            OpenWrite (u"data/exploration/" ++ u"sets_analysis.json")
                      (u"utf-8");
            JsonDump (u"data/exploration/" ++ u"sets_analysis.json")
                     sets_error 2 false;
            Log SUCCESS [T (u"Resultados salvos em: ");
                         T (u"data/exploration/" ++ u"sets_analysis.json")]]).
Proof.
  apply (save_results_written explorer0 sets_error (u"sets_analysis.json")
           (disk None None None) []); reflexivity.
Defined.

(** When the directory cannot be made the persister raises that
    exception to its caller, having opened nothing and logged nothing. *)
Theorem save_results_mkdir_raises self results filename w t e :
  fs_mkdir w (u"data/exploration") true true = Some e ->
  save_exploration_results self results filename w t =
    (Raised e, t ++ [Mkdir (u"data/exploration") true true]).
Proof. intros Hmk. rewrite save_run. cbv zeta. rewrite Hmk. reflexivity. Qed.

Lemma save_results_mkdir_raises_witness :
  save_exploration_results explorer0 sets_error (u"sets_analysis.json")
    (disk (Some FileExistsError) None None) [] =
    (Raised FileExistsError, [] ++ [Mkdir (u"data/exploration") true true]).
Proof.
  apply (save_results_mkdir_raises explorer0 sets_error
           (u"sets_analysis.json") (disk (Some FileExistsError) None None)
           [] FileExistsError); reflexivity.
Defined.

(** In every world the persister dumps at most once, and it dumps only
    after the directory was made and the file was opened; what it opens
    and dumps to is [data/exploration/<filename>] and nothing else. *)
Theorem save_results_one_file self results filename w t :
  exists evs,
    snd (save_exploration_results self results filename w t) = t ++ evs /\
    Forall (writes_only (u"data/exploration/" ++ filename)) evs /\
    (filter is_dump evs = [] \/
     filter is_dump evs
       = [JsonDump (u"data/exploration/" ++ filename) results 2 false] /\
     fs_mkdir w (u"data/exploration") true true = None /\
     fs_open w (u"data/exploration/" ++ filename) = None).
Proof.
  rewrite save_run. cbv zeta.
  destruct (fs_mkdir w (u"data/exploration") true true) as [e |].
  { eexists. split; [reflexivity |]. split; [| left; reflexivity].
    repeat constructor. }
  destruct (fs_open w (u"data/exploration/" ++ filename)) as [e |].
  { destruct (isinstance e BException);
      (eexists; split; [reflexivity |]; split; [| left; reflexivity];
       repeat constructor). }
  destruct (fs_dump w (u"data/exploration/" ++ filename) results) as [e |];
    [destruct (isinstance e BException) |];
    (eexists; split; [reflexivity |]; split;
     [repeat constructor | right; repeat split; reflexivity]).
Qed.

(** *** [main]: what the script writes, and that it finishes *)



(** An analyzer touches no file, and what it returns does not depend on
    what happened before. *)
Lemma explore_pair self a w t :
  exists evs,
    explore self a w t = (result (explore self a) w, t ++ evs) /\
    Forall quiet evs.
Proof.
  destruct (explore_after_fetch self a w t) as (logs & Ht & Hlogs).
  rewrite make_request_run in Ht. cbv zeta in Ht. cbn [snd] in Ht.
  eexists. split.
  - rewrite (surjective_pairing (explore self a w t)). f_equal.
    + destruct a; cbn [explore]; unfold result, run;
        [rewrite !explore_sets_result | rewrite !explore_cards_result];
        reflexivity.
    + rewrite Ht, <- !app_assoc. reflexivity.
  - assert (Hq : forall evs, Forall (fun ev => is_log ev = true) evs ->
                             Forall quiet evs).
    { intros evs. apply Forall_impl. intros [] H; try discriminate H.
      exact I. }
    apply Forall_app. split; [repeat constructor |].
    apply Forall_app. split.
    { unfold prologue. destruct (truthy (params_of a)); repeat constructor. }
    apply Forall_app. split; [apply Hq, epilogue_logs | apply Hq, Hlogs].
Qed.

Lemma quiet_writes_only path ev : quiet ev -> writes_only path ev.
Proof. destruct ev; simpl; tauto. Qed.

Lemma save_emits self results filename :
  emits (writes_only (u"data/exploration/" ++ filename))
        (save_exploration_results self results filename).
Proof.
  intros w t. rewrite save_run. cbv zeta.
  destruct (fs_mkdir w (u"data/exploration") true true) as [e |];
    [| destruct (fs_open w (u"data/exploration/" ++ filename)) as [e |];
       [ destruct (isinstance e BException)
       | destruct (fs_dump w (u"data/exploration/" ++ filename) results)
           as [e |]; [destruct (isinstance e BException) |] ] ];
    (eexists; split; [reflexivity | repeat constructor]).
Qed.

(** In every world, every [open(..., 'w')] and every [json.dump] of
    [main] is on [data/exploration/sets_analysis.json]: no second file is
    opened or dumped for the cards analysis.  The log lines, which the
    logger appends to its own sinks, and the making of directories are
    other events, left aside here. *)
Theorem main_writes_one_file w t :
  exists evs,
    snd (main w t) = t ++ evs /\
    Forall (writes_only (u"data/exploration/" ++ u"sets_analysis.json"))
           evs.
Proof.
  revert w t. change (emits (writes_only sets_path) main).
  assert (Hx : forall self a,
             emits (writes_only sets_path) (explore self a)).
  { intros self a w t. destruct (explore_pair self a w t) as (evs & -> & Hq).
    exists evs. split; [reflexivity |].
    apply (Forall_impl _ (quiet_writes_only sets_path) Hq). }
  assert (Hs : forall self results,
             emits (writes_only sets_path)
                   (save_exploration_results self results
                                             (u"sets_analysis.json"))).
  { intros self results.
    exact (save_emits self results (u"sets_analysis.json")). }
  unfold main, __init__, mkdir, log, print.
  apply emits_bind; [apply emits_emit; exact I | intros _].
  apply emits_bind; [repeat emits_step; exact I | intros _].
  apply emits_bind; [repeat emits_step; exact I | intros explorer].
  apply emits_bind; [apply emits_emit; exact I | intros _].
  apply emits_bind; [exact (Hx explorer (Sets 20)) | intros sets_analysis].
  apply emits_bind; [apply Hs | intros _].
  apply emits_bind; [apply emits_emit; exact I | intros _].
  apply emits_bind;
    [exact (Hx explorer (Cards (u"inr") 5)) | intros cards_analysis].
  apply emits_bind; [apply emits_emit; exact I | intros _].
  apply emits_ret.
Qed.





(* ================================================================= *)
(** ** The environment checker *)

Module TestEnvironmentFacts.
Import TestEnvironment.
#[local] Open Scope io_scope.

(** *** Vocabulary *)

Definition major (mc : machine) : Z := fst (fst (version_info mc)).

Definition minor (mc : machine) : Z := snd (fst (version_info mc)).

(** The interpreter is 3.8 or later. *)
Definition version_ok (mc : machine) : bool :=
  negb ((major mc <? 3) || ((major mc =? 3) && (minor mc <? 8)))%Z.

Definition is_got (ef : effect) : bool :=
  match ef with Got _ _ => true | _ => false end.

Definition no_get (ef : effect) : Prop := is_got ef = false.

(** [m] adds only effects that satisfy [P], on every machine. *)
Definition adds {A} (P : effect -> Prop) (m : IO A) : Prop :=
  forall mc t, exists efs, snd (m mc t) = t ++ efs /\ Forall P efs.

(** On machine [mc], [m] sends a GET only if [Q] holds. *)
Definition gated {A} (Q : Prop) (m : IO A) (mc : machine) : Prop :=
  forall t g, is_got g = true -> In g (snd (m mc t)) -> In g t \/ Q.


(** *** [check_python_version] *)

Lemma check_python_version_run mc t :
  check_python_version mc t =
  (Done (VBool (version_ok mc)),
   t ++ [Printed [Txt (u"Python "); Num (major mc); Txt (u".");
                  Num (minor mc); Txt (u".");
                  Num (snd (version_info mc))];
         Printed [Txt (if version_ok mc then u"Versão Python OK"
                       else u"Python 3.8+ é requirido!")]]).
Proof.
  unfold check_python_version, version_ok, major, minor, bind, read, print,
    perform, ret.
  destruct (version_info mc) as [[ma mi] mic]. cbn [fst snd].
  destruct ((ma <? 3) || (ma =? 3) && (mi <? 8))%Z; cbn;
    rewrite <- app_assoc; reflexivity.
Qed.


(** *** [check_poetry] *)

Lemma check_poetry_run mc t :
  check_poetry mc t =
  match poetry_version mc with
  | Done (returncode, stdout) =>
      if (returncode =? 0)%Z then
        (Done (VBool true),
         t ++ [Ran [u"poetry"; u"--version"];
               Printed [Txt (Py.strip stdout)];
               Printed [Txt (u"Poetry instado corretamente")]])
      else
        (Done VNone,
         t ++ [Ran [u"poetry"; u"--version"];
               Printed [Txt (u"Poetry não encontrado no PATH")]])
  | Failed e =>
      if isinstance e BFileNotFoundError then
        (Done (VBool false),
         t ++ [Ran [u"poetry"; u"--version"];
               Printed [Txt (u"Poetry não encontrado no PATH")]])
      else (Failed e, t ++ [Ran [u"poetry"; u"--version"]])
  end.
Proof.
  unfold check_poetry, try_except, run_poetry, bind, query, print, perform,
    ret.
  destruct (poetry_version mc) as [[code out] | e].
  - destruct (code =? 0)%Z; cbn; repeat rewrite <- app_assoc; reflexivity.
  - destruct (isinstance e BFileNotFoundError); cbn;
      repeat rewrite <- app_assoc; reflexivity.
Qed.

(** [check_poetry] returns [True] exactly when poetry could be run and
    exited with code 0. *)
Theorem check_poetry_true_iff mc t :
  fst (check_poetry mc t) = Done (VBool true) <->
  exists stdout, poetry_version mc = Done (0%Z, stdout).
Proof.
  rewrite check_poetry_run.
  destruct (poetry_version mc) as [[code out] | e].
  - destruct (Z.eqb_spec code 0) as [-> | Hne]; cbn; split.
    + eauto.
    + reflexivity.
    + discriminate.
    + intros [s H]. injection H as Hc _. contradiction.
  - destruct (isinstance e BFileNotFoundError); cbn; split;
      try discriminate; intros [s H]; discriminate H.
Qed.




(** *** [test_api_connection] *)



(** *** What a function of the checker adds to its effects *)

Section Adding.
Context (P : effect -> Prop).

Lemma adds_ret {A} (a : A) : adds P (ret a).
Proof. intros mc t. exists []. rewrite app_nil_r. auto. Qed.

Lemma adds_read {A} (f : machine -> A) : adds P (read f).
Proof. intros mc t. exists []. rewrite app_nil_r. auto. Qed.

Lemma adds_query {A} (f : machine -> answer A) : adds P (query f).
Proof. intros mc t. exists []. rewrite app_nil_r. auto. Qed.

Lemma adds_perform ef : P ef -> adds P (perform ef).
Proof. intros H mc t. exists [ef]. auto. Qed.

Lemma adds_bind {A B} (m : IO A) (k : A -> IO B) :
  adds P m -> (forall a, adds P (k a)) -> adds P (bind m k).
Proof.
  intros Hm Hk mc t. unfold bind.
  destruct (Hm mc t) as (efs & Ht & Hefs).
  destruct (m mc t) as [[a | e] t1]; cbn [snd] in Ht; subst t1.
  - destruct (Hk a mc (t ++ efs)) as (efs' & Ht' & Hefs').
    exists (efs ++ efs'). rewrite Ht', app_assoc.
    split; [reflexivity | apply Forall_app; auto].
  - exists efs. auto.
Qed.

Lemma adds_try {A} (body : IO A) base (handler : error -> IO A) :
  adds P body -> (forall e, adds P (handler e)) ->
  adds P (try_except body base handler).
Proof.
  intros Hb Hh mc t. unfold try_except.
  destruct (Hb mc t) as (efs & Ht & Hefs).
  destruct (body mc t) as [[a | e] t1]; cbn [snd] in Ht; subst t1.
  - exists efs. auto.
  - destruct (isinstance e base); [| exists efs; auto].
    destruct (Hh e mc (t ++ efs)) as (efs' & Ht' & Hefs').
    exists (efs ++ efs'). rewrite Ht', app_assoc.
    split; [reflexivity | apply Forall_app; auto].
Qed.

Lemma adds_for_in xs (body : pystr -> IO unit) :
  (forall x, adds P (body x)) -> adds P (for_in xs body).
Proof.
  intros Hb. induction xs as [| x xs IH]; simpl.
  - apply adds_ret.
  - apply adds_bind; [apply Hb | intros _; exact IH].
Qed.

End Adding.

Ltac adds_step :=
  first
    [ apply adds_ret | apply adds_read | apply adds_query
    | apply adds_perform; reflexivity
    | apply adds_for_in; intros ?
    | apply adds_try; [| intros ?]
    | apply adds_bind; [| intros ?]
    | match goal with
      | |- adds _ (if ?c then _ else _) => destruct c
      | |- adds _ (match ?o with Some _ => _ | None => _ end) => destruct o
      | |- adds _ (let '(_, _) := ?p in _) => destruct p
      end ].

Lemma gated_of_adds {A} Q (m : IO A) mc : adds no_get m -> gated Q m mc.
Proof.
  intros Hm t g Hg Hin. destruct (Hm mc t) as (efs & Ht & Hefs).
  rewrite Ht in Hin. apply in_app_or in Hin. destruct Hin as [H | H]; auto.
  rewrite Forall_forall in Hefs. specialize (Hefs g H).
  unfold no_get in Hefs. congruence.
Qed.

Lemma gated_holds {A} (Q : Prop) (m : IO A) mc : Q -> gated Q m mc.
Proof. intros HQ t g _ _. auto. Qed.

Lemma gated_bind {A B} Q (m : IO A) (k : A -> IO B) mc :
  gated Q m mc ->
  (forall a t, fst (m mc t) = Done a -> gated Q (k a) mc) ->
  gated Q (bind m k) mc.
Proof.
  intros Hm Hk t g Hg. unfold bind.
  specialize (Hm t g Hg).
  assert (Hk' : forall a, fst (m mc t) = Done a -> gated Q (k a) mc)
    by (intros a; apply Hk).
  destruct (m mc t) as [[a | e] t1]; cbn [fst snd] in *.
  - intros Hin. destruct (Hk' a eq_refl t1 g Hg Hin); auto.
  - exact Hm.
Qed.

Lemma check_system_info_adds : adds no_get check_system_info.
Proof. unfold check_system_info, print. repeat adds_step. Qed.

Lemma check_project_structure_adds : adds no_get check_project_structure.
Proof.
  unfold check_project_structure, exists_, print. repeat adds_step.
Qed.

Lemma check_python_version_adds : adds no_get check_python_version.
Proof.
  intros mc t. rewrite check_python_version_run. eexists.
  split; [reflexivity | repeat constructor].
Qed.

Lemma check_poetry_adds : adds no_get check_poetry.
Proof.
  intros mc t. rewrite check_poetry_run.
  destruct (poetry_version mc) as [[code out] | e];
    [destruct (code =? 0)%Z | destruct (isinstance e BFileNotFoundError)];
    (eexists; split; [reflexivity | repeat constructor]).
Qed.

(** [main] tests the connection only when both checks passed: if it
    sends a GET, then the interpreter is 3.8 or later and poetry ran and
    exited with code 0. *)
Theorem main_connectivity_gate mc g :
  is_got g = true ->
  In g (effects_of main mc) ->
  version_ok mc = true /\
  exists stdout, poetry_version mc = Done (0%Z, stdout).
Proof.
  intros Hg Hin.
  set (Q := version_ok mc = true /\
            exists stdout, poetry_version mc = Done (0%Z, stdout)).
  assert (Hmain : gated Q main mc).
  { unfold main, print.
    do 3 (apply gated_bind;
          [apply gated_of_adds, adds_perform; reflexivity | intros _ _ _]).
    apply gated_bind;
      [apply gated_of_adds, check_system_info_adds | intros _ _ _].
    apply gated_bind;
      [apply gated_of_adds, adds_perform; reflexivity | intros _ _ _].
    apply gated_bind;
      [apply gated_of_adds, check_python_version_adds
      | intros python_ok t1 H1].
    rewrite check_python_version_run in H1. cbn [fst] in H1.
    injection H1 as <-.
    apply gated_bind;
      [apply gated_of_adds, check_poetry_adds | intros poetry_ok t2 H2].
    destruct (truthy (if truthy (VBool (version_ok mc)) then poetry_ok
                      else VBool (version_ok mc))) eqn:Hgate.
    - apply gated_holds. unfold Q.
      destruct (version_ok mc); [| discriminate Hgate].
      split; [reflexivity |]. cbn [truthy] in Hgate.
      rewrite check_poetry_run in H2.
      destruct (poetry_version mc) as [[code out] | e].
      + destruct (Z.eqb_spec code 0) as [-> | _]; [eauto |].
        cbn [fst] in H2. injection H2 as <-. discriminate Hgate.
      + destruct (isinstance e BFileNotFoundError); cbn [fst] in H2;
          [injection H2 as <-; discriminate Hgate | discriminate H2].
    - apply gated_of_adds. unfold print.
      apply adds_bind; [apply adds_ret | intros _].
      apply adds_bind; [apply check_project_structure_adds | intros _].
      repeat adds_step. }
  destruct (Hmain [] g Hg Hin) as [[] | HQ]. exact HQ.
Qed.

Lemma main_connectivity_gate_witness :
  version_ok (machine0 (Done (0%Z, u"Poetry 1.8")) (fun _ => None)
                       (Done 200%Z)) = true /\
  exists stdout,
    poetry_version (machine0 (Done (0%Z, u"Poetry 1.8")) (fun _ => None)
                             (Done 200%Z)) = Done (0%Z, stdout).
Proof.
  apply (main_connectivity_gate
           (machine0 (Done (0%Z, u"Poetry 1.8")) (fun _ => None)
                     (Done 200%Z))
           (Got (u"https://api.scryfall.com/sets") 10)).
  - reflexivity.
  - vm_compute. tauto.
Defined.

(** *** [check_dependencies] *)




End TestEnvironmentFacts.

(* ================================================================= *)
(** ** The JSON file, written and read back *)

Module JsonFacts.
Import Py Eff Explorer Json.
Unset Implicit Arguments.
#[local] Open Scope N_scope.
#[local] Open Scope list_scope.

(** *** Vocabulary of the proofs *)

(** What may follow a value in the text the encoder writes: a comma, a
    new line, or nothing. *)
Definition tail_ok (rest : pystr) : bool :=
  match rest with
  | [] => true
  | c :: _ => (c =? 44) || (c =? 10)
  end.

(** A character of the text of a number. *)
Definition number_char (c : N) : bool :=
  is_digit c || (c =? 45) || (c =? 43) || (c =? 46) || (c =? 101)
  || (c =? 69).

(** The digits of a number, as [int.__repr__] writes them: one digit at
    least, and no zero ahead of another digit. *)
Definition canonical (d : Decimal.uint) : Prop :=
  d = Decimal.zero
  \/ (d <> Decimal.Nil /\ forall d', d <> Decimal.D0 d').

(** A character that goes into the file and comes out of it as it is:
    one that UTF-8 encodes, and not the carriage return, which reading
    turns into a new line. *)
Definition clean (c : N) : bool := encodable c && negb (c =? 13).

(** [''.join(chunks)], or the exception the generator stops with. *)
Fixpoint joined (chunks : list (outcome pystr)) : outcome pystr :=
  match chunks with
  | [] => Returned []
  | c :: rest =>
      obind c (fun t => obind (joined rest) (fun r => Returned (t ++ r)))
  end.

(** A character a value can begin with: not white space, not a closing
    bracket or brace, not the byte order mark. *)
Definition starter (c : N) : bool :=
  negb (is_ws c) && negb (c =? 93) && negb (c =? 125)
  && negb (c =? 65279).

(** A text that begins with such a character. *)
Definition starts (s : pystr) : Prop :=
  exists c r, s = c :: r /\ starter c = true.

(** [k in d] *)
Definition has_key (k : pystr) (d : list (pystr * value)) : bool :=
  existsb (fun kv => str_eqb (fst kv) k) d.

(** [scan_once] reads the text of [o] back, whatever follows it. *)
Definition read_back (codec : float_text) (indent : nat) (o : value)
  : Prop :=
  forall level rest fuel,
    storable codec o = true -> tail_ok rest = true ->
    (List.length (text codec indent level o) < fuel)%nat ->
    scan_once codec fuel (text codec indent level o ++ rest)
    = Some (o, rest).

(** *** Characters *)

Lemma tail_ok_cases rest :
  tail_ok rest = true ->
  rest = [] \/ exists r, rest = 44 :: r \/ rest = 10 :: r.
Proof.
  destruct rest as [| c r]; [left; reflexivity |].
  simpl. intros H. right. exists r.
  apply orb_true_iff in H. destruct H as [H | H]; apply N.eqb_eq in H;
    subst; [left | right]; reflexivity.
Qed.

Ltac tail_cases H :=
  let r := fresh "r" in
  destruct (tail_ok_cases _ H) as [-> | (r & [-> | ->])].

(** *** Numbers *)

Lemma span_digits_ext s rest :
  tail_ok rest = true ->
  span_digits (s ++ rest)
  = (fst (span_digits s), snd (span_digits s) ++ rest).
Proof.
  intros H. induction s as [| c s IH]; simpl.
  - tail_cases H; reflexivity.
  - destruct (is_digit c); [| reflexivity].
    rewrite IH. reflexivity.
Qed.

Lemma scan_int_ext s rest ds r :
  tail_ok rest = true ->
  scan_int s = Some (ds, r) ->
  scan_int (s ++ rest) = Some (ds, r ++ rest).
Proof.
  intros H Hs. destruct s as [| c s]; [discriminate |].
  unfold scan_int in *. rewrite <- app_comm_cons.
  destruct (c =? 48).
  - injection Hs as <- <-. reflexivity.
  - destruct (is_digit c); [| discriminate].
    assert (E : span_digits (c :: s) = (ds, r)) by congruence.
    rewrite app_comm_cons, (span_digits_ext (c :: s) rest H), E.
    reflexivity.
Qed.

Lemma scan_frac_ext s rest :
  tail_ok rest = true ->
  scan_frac (s ++ rest) = (fst (scan_frac s), snd (scan_frac s) ++ rest).
Proof.
  intros H. destruct s as [| c [| d s]].
  - tail_cases H; try reflexivity; destruct r; reflexivity.
  - tail_cases H; try reflexivity; cbn [app scan_frac];
      rewrite andb_false_r; reflexivity.
  - cbn [app scan_frac].
    destruct ((c =? 46) && is_digit d); [| reflexivity].
    change (d :: s ++ rest) with ((d :: s) ++ rest).
    rewrite (span_digits_ext (d :: s) rest H). reflexivity.
Qed.

Lemma scan_exp_ext s rest :
  tail_ok rest = true ->
  scan_exp (s ++ rest) = (fst (scan_exp s), snd (scan_exp s) ++ rest).
Proof.
  intros H. destruct s as [| c s].
  - tail_cases H; reflexivity.
  - cbn [app scan_exp].
    destruct ((c =? 101) || (c =? 69)); [| reflexivity].
    destruct s as [| g s].
    + cbn [app snd fst span_digits].
      assert (E : span_digits rest = ([], rest)).
      { tail_cases H; reflexivity. }
      tail_cases H; reflexivity.
    + cbn [app]. destruct ((g =? 45) || (g =? 43)); cbn [fst snd].
      * rewrite (span_digits_ext s rest H).
        destruct (span_digits s) as [[| a ds] r]; reflexivity.
      * change (g :: s ++ rest) with ((g :: s) ++ rest).
        rewrite (span_digits_ext (g :: s) rest H).
        destruct (span_digits (g :: s)) as [[| a ds] r]; reflexivity.
Qed.

Lemma scan_number_ext s rest i f e r :
  tail_ok rest = true ->
  scan_number s = Some (i, f, e, r) ->
  scan_number (s ++ rest) = Some (i, f, e, r ++ rest).
Proof.
  intros H. unfold scan_number.
  assert (E : forall s1 sg,
             match scan_int s1 with
             | None => None
             | Some (digits, s2) =>
                 Some (sg ++ digits, fst (scan_frac s2),
                       fst (scan_exp (snd (scan_frac s2))),
                       snd (scan_exp (snd (scan_frac s2))))
             end = Some (i, f, e, r) ->
             match scan_int (s1 ++ rest) with
             | None => None
             | Some (digits, s2) =>
                 Some (sg ++ digits, fst (scan_frac s2),
                       fst (scan_exp (snd (scan_frac s2))),
                       snd (scan_exp (snd (scan_frac s2))))
             end = Some (i, f, e, r ++ rest)).
  { intros s1 sg. destruct (scan_int s1) as [[ds s2] |] eqn:Hi;
      [| discriminate].
    rewrite (scan_int_ext s1 rest ds s2 H Hi).
    rewrite (scan_frac_ext s2 rest H). cbn [fst snd].
    rewrite (scan_exp_ext _ rest H). cbn [fst snd].
    intros [= <- <- <- <-]. reflexivity. }
  destruct s as [| c s].
  - cbn [fst snd]. discriminate.
  - cbn [app]. destruct (c =? 45); cbn [fst snd].
    + apply E.
    + change (c :: s ++ rest) with ((c :: s) ++ rest). apply E.
Qed.

Lemma span_digits_split s :
  s = fst (span_digits s) ++ snd (span_digits s)
  /\ forallb is_digit (fst (span_digits s)) = true.
Proof.
  induction s as [| c s [IH1 IH2]]; [split; reflexivity |].
  cbn [span_digits]. destruct (is_digit c) eqn:Hc; cbn [fst snd app forallb].
  - rewrite Hc, IH2. split; [congruence | reflexivity].
  - split; reflexivity.
Qed.

Lemma digits_number_chars ds :
  forallb is_digit ds = true -> forallb number_char ds = true.
Proof.
  induction ds as [| c ds IH]; [reflexivity |].
  cbn [forallb]. intros H. apply andb_true_iff in H. destruct H as [Hc H].
  rewrite (IH H). unfold number_char. rewrite Hc. reflexivity.
Qed.

Lemma scan_int_split s ds r :
  scan_int s = Some (ds, r) ->
  s = ds ++ r /\ forallb number_char ds = true.
Proof.
  destruct s as [| c s]; [discriminate |]. unfold scan_int.
  destruct (N.eqb_spec c 48) as [-> | _].
  - intros [= <- <-]. split; reflexivity.
  - destruct (is_digit c); [| discriminate]. intros Hs.
    assert (E : span_digits (c :: s) = (ds, r)) by congruence.
    destruct (span_digits_split (c :: s)) as [H1 H2].
    rewrite E in H1, H2. cbn [fst snd] in H1, H2.
    split; [exact H1 | apply digits_number_chars, H2].
Qed.

Lemma scan_frac_split s :
  s = fst (scan_frac s) ++ snd (scan_frac s)
  /\ forallb number_char (fst (scan_frac s)) = true.
Proof.
  destruct s as [| c [| d s]]; try (split; reflexivity).
  unfold scan_frac.
  destruct (N.eqb_spec c 46) as [-> | _]; [| split; reflexivity].
  cbn [andb]. destruct (is_digit d) eqn:Hd; [| split; reflexivity].
  destruct (span_digits_split (d :: s)) as [H1 H2].
  cbn [fst snd app forallb]. rewrite <- H1.
  rewrite (digits_number_chars _ H2). split; reflexivity.
Qed.

Lemma scan_exp_split s :
  s = fst (scan_exp s) ++ snd (scan_exp s)
  /\ forallb number_char (fst (scan_exp s)) = true.
Proof.
  destruct s as [| c s]; [split; reflexivity |].
  unfold scan_exp.
  destruct ((c =? 101) || (c =? 69)) eqn:Hc; [| split; reflexivity].
  assert (Hn : number_char c = true).
  { unfold number_char. apply orb_true_iff in Hc.
    destruct Hc as [-> | ->]; rewrite ?orb_true_r; reflexivity. }
  set (signed := match s with
                 | g :: r' =>
                     if (g =? 45) || (g =? 43) then ([g], r') else ([], s)
                 | [] => ([], s)
                 end).
  assert (Hs : s = fst signed ++ snd signed
               /\ forallb number_char (fst signed) = true).
  { subst signed. destruct s as [| g s]; [split; reflexivity |].
    destruct ((g =? 45) || (g =? 43)) eqn:Hg; [| split; reflexivity].
    cbn [fst snd app forallb]. split; [reflexivity |].
    unfold number_char. apply orb_true_iff in Hg.
    destruct Hg as [-> | ->]; rewrite ?orb_true_r; reflexivity. }
  destruct Hs as [Hs1 Hs2].
  destruct (span_digits_split (snd signed)) as [H1 H2].
  destruct (fst (span_digits (snd signed))) as [| a ds] eqn:E;
    [split; reflexivity |].
  cbn [fst snd]. split.
  - rewrite <- app_comm_cons, <- app_assoc. f_equal.
    rewrite <- H1. exact Hs1.
  - cbn [forallb]. rewrite Hn, forallb_app, Hs2.
    apply digits_number_chars, H2.
Qed.

Lemma scan_number_split s i f e r :
  scan_number s = Some (i, f, e, r) ->
  s = i ++ f ++ e ++ r /\ forallb number_char (i ++ f ++ e) = true.
Proof.
  unfold scan_number.
  set (signed := match s with
                 | c :: r0 => if c =? 45 then ([45], r0) else ([], s)
                 | [] => ([], s)
                 end).
  assert (Hs : s = fst signed ++ snd signed
               /\ forallb number_char (fst signed) = true).
  { subst signed. destruct s as [| c s]; [split; reflexivity |].
    destruct (N.eqb_spec c 45) as [-> | _]; split; reflexivity. }
  destruct Hs as [Hs1 Hs2].
  destruct (scan_int (snd signed)) as [[ds s1] |] eqn:Hi; [| discriminate].
  destruct (scan_int_split _ _ _ Hi) as [Hi1 Hi2].
  destruct (scan_frac_split s1) as [Hf1 Hf2].
  destruct (scan_exp_split (snd (scan_frac s1))) as [He1 He2].
  intros [= <- <- <- <-]. split.
  - rewrite <- He1, <- Hf1, <- app_assoc, <- Hi1. exact Hs1.
  - rewrite !forallb_app, Hs2, Hi2, Hf2, He2. reflexivity.
Qed.

(** **** Integers *)

Lemma to_uint_head p d : Pos.to_uint p <> Decimal.D0 d.
Proof.
  intros E.
  assert (Hn : Pos.to_uint p = Decimal.unorm (Pos.to_uint p)).
  { rewrite <- DecimalPos.Unsigned.to_of, DecimalPos.Unsigned.of_to.
    reflexivity. }
  rewrite E, DecimalFacts.unorm_D0 in Hn.
  unfold Decimal.unorm in Hn.
  destruct (Decimal.nzhead d) eqn:Hd; try discriminate Hn.
  - injection Hn as ->.
    apply (DecimalPos.Unsigned.to_uint_nonzero p). exact E.
  - exact (DecimalFacts.nzhead_nonzero _ _ Hd).
Qed.

Lemma uint_text_digits d : forallb is_digit (uint_text d) = true.
Proof. induction d; cbn [uint_text forallb]; try rewrite IHd; reflexivity. Qed.

Lemma text_uint_text d : text_uint (uint_text d) = d.
Proof. induction d; cbn [uint_text text_uint]; try rewrite IHd; reflexivity. Qed.

Lemma span_all_digits ds :
  forallb is_digit ds = true -> span_digits ds = (ds, []).
Proof.
  induction ds as [| c ds IH]; [reflexivity |].
  cbn [forallb span_digits]. intros H. apply andb_true_iff in H.
  destruct H as [-> H]. rewrite (IH H). reflexivity.
Qed.

Lemma to_int_canonical z :
  match Z.to_int z with
  | Decimal.Pos d => canonical d
  | Decimal.Neg d => canonical d
  end.
Proof.
  destruct z as [| p | p]; cbn [Z.to_int].
  - left. reflexivity.
  - right. split; [apply DecimalPos.Unsigned.to_uint_nonnil |].
    intros d'. apply to_uint_head.
  - right. split; [apply DecimalPos.Unsigned.to_uint_nonnil |].
    intros d'. apply to_uint_head.
Qed.

Lemma scan_int_canonical d :
  canonical d -> scan_int (uint_text d) = Some (uint_text d, []).
Proof.
  intros [-> | [Hnil Hz]]; [reflexivity |].
  pose proof (span_all_digits _ (uint_text_digits d)) as Hs.
  destruct d; try (exfalso; apply Hnil; reflexivity);
    try (exfalso; exact (Hz _ eq_refl));
    cbn [uint_text] in *; unfold scan_int;
    cbn [N.eqb Pos.eqb is_digit N.leb N.compare Pos.compare Pos.compare_cont andb];
    rewrite Hs; reflexivity.
Qed.

Lemma uint_text_head d c r : uint_text d = c :: r -> is_digit c = true.
Proof.
  intros E. pose proof (uint_text_digits d) as H. rewrite E in H.
  cbn [forallb] in H. apply andb_true_iff in H. tauto.
Qed.

Lemma canonical_text d : canonical d -> uint_text d <> [].
Proof.
  intros [-> | [Hnil _]]; [discriminate |].
  destruct d; try discriminate. exfalso. apply Hnil. reflexivity.
Qed.

(** What [int.__repr__] writes is scanned as an integer, whole, and
    [int] reads the number back from it. *)
Lemma int_repr_read z t :
  int_repr z = Returned t ->
  scan_number t = Some (t, [], [], [])
  /\ int_of_text t = Some z
  /\ forallb number_char t = true
  /\ t <> [].
Proof.
  unfold int_repr. pose proof (to_int_canonical z) as Hc.
  pose proof (DecimalZ.of_to z) as Hz.
  destruct (Z.to_int z) as [d | d];
    destruct (max_str_digits <? List.length (uint_text d))%nat eqn:Hlen;
    try discriminate; intros [= <-].
  - pose proof (scan_int_canonical d Hc) as Hi.
    pose proof (canonical_text d Hc) as Hne.
    destruct (uint_text d) as [| c r] eqn:E; [congruence |].
    pose proof (uint_text_head d c r E) as Hd.
    assert (H45 : (c =? 45) = false).
    { unfold is_digit in Hd. apply andb_true_iff in Hd.
      destruct Hd as [Hd _]. apply N.leb_le in Hd. apply N.eqb_neq. lia. }
    repeat split.
    + unfold scan_number. rewrite H45. cbn [fst snd]. rewrite Hi.
      reflexivity.
    + unfold int_of_text. rewrite H45, Hlen, <- E, text_uint_text, Hz.
      reflexivity.
    + rewrite <- E. apply digits_number_chars, uint_text_digits.
    + discriminate.
  - pose proof (scan_int_canonical d Hc) as Hi.
    repeat split.
    + unfold scan_number. cbn [N.eqb Pos.eqb fst snd]. rewrite Hi.
      reflexivity.
    + unfold int_of_text. cbn [N.eqb Pos.eqb]. rewrite Hlen.
      rewrite text_uint_text, Hz. reflexivity.
    + cbn [forallb]. rewrite (digits_number_chars _ (uint_text_digits d)).
      reflexivity.
    + discriminate.
Qed.

(** *** Strings *)

(** Arithmetic with quotients and remainders by constants. *)
Ltac euclid := zify; Z.to_euclidean_division_equations; lia.

Lemma hex_value_digit d : d < 16 -> hex_value (hex_digit d) = Some d.
Proof.
  intros H. unfold hex_digit, hex_value, is_digit.
  destruct (N.ltb_spec d 10) as [Hd | Hd].
  - replace (48 <=? 48 + d) with true by (symmetry; apply N.leb_le; lia).
    replace (48 + d <=? 57) with true by (symmetry; apply N.leb_le; lia).
    cbn [andb]. f_equal. lia.
  - replace (87 + d <=? 57) with false by (symmetry; apply N.leb_gt; lia).
    rewrite andb_false_r.
    replace (97 <=? 87 + d) with true by (symmetry; apply N.leb_le; lia).
    replace (87 + d <=? 102) with true by (symmetry; apply N.leb_le; lia).
    cbn [andb]. f_equal. lia.
Qed.

Lemma hex4_digits n :
  n < 65536 ->
  hex4 (hex_digit (n / 4096)) (hex_digit ((n / 256) mod 16))
       (hex_digit ((n / 16) mod 16)) (hex_digit (n mod 16)) = Some n.
Proof.
  intros H. unfold hex4.
  rewrite !hex_value_digit by euclid. f_equal. euclid.
Qed.

Lemma escape_dct_raw c :
  escape_dct c = None ->
  (c =? 34) = false /\ (c =? 92) = false /\ (c <? 32) = false.
Proof.
  unfold escape_dct.
  destruct (c =? 92); [discriminate |].
  destruct (c =? 34); [discriminate |].
  destruct (c =? 8); [discriminate |].
  destruct (c =? 12); [discriminate |].
  destruct (c =? 10); [discriminate |].
  destruct (c =? 13); [discriminate |].
  destruct (c =? 9); [discriminate |].
  destruct (c <? 32); [discriminate |].
  intros _. repeat split.
Qed.

(** [scanstring] undoes the escape of one character. *)
Lemma scanstring_escape c s :
  scanstring (escape_char c ++ s)
  = match scanstring s with
    | Some (t, rest) => Some (c :: t, rest)
    | None => None
    end.
Proof.
  unfold escape_char. destruct (escape_dct c) as [e |] eqn:He.
  - unfold escape_dct in He.
    destruct (N.eqb_spec c 92) as [-> | _]; [injection He as <-; reflexivity |].
    destruct (N.eqb_spec c 34) as [-> | _]; [injection He as <-; reflexivity |].
    destruct (N.eqb_spec c 8) as [-> | _]; [injection He as <-; reflexivity |].
    destruct (N.eqb_spec c 12) as [-> | _]; [injection He as <-; reflexivity |].
    destruct (N.eqb_spec c 10) as [-> | _]; [injection He as <-; reflexivity |].
    destruct (N.eqb_spec c 13) as [-> | _]; [injection He as <-; reflexivity |].
    destruct (N.eqb_spec c 9) as [-> | _]; [injection He as <-; reflexivity |].
    destruct (N.ltb_spec c 32) as [Hc | _]; [| discriminate].
    injection He as <-. unfold u_escape.
    cbn [app scanstring N.eqb Pos.eqb].
    rewrite hex4_digits by lia.
    replace (high_surrogate c) with false; [reflexivity |].
    symmetry. unfold high_surrogate. apply andb_false_iff. left.
    apply N.leb_gt. lia.
  - destruct (escape_dct_raw c He) as (H34 & H92 & H32).
    cbn [app scanstring]. rewrite H34, H92, H32. reflexivity.
Qed.

Lemma scanstring_encoded s rest :
  scanstring (flat_map escape_char s ++ 34 :: rest) = Some (s, rest).
Proof.
  induction s as [| c s IH]; [reflexivity |].
  cbn [flat_map]. rewrite <- app_assoc, scanstring_escape, IH.
  reflexivity.
Qed.

Lemma number_char_clean c : number_char c = true -> clean c = true.
Proof.
  unfold number_char, is_digit, clean, encodable. intros H.
  repeat (apply orb_true_iff in H; destruct H as [H | H]);
    try (apply N.eqb_eq in H; subst; reflexivity).
  apply andb_true_iff in H. destruct H as [H1 H2].
  apply N.leb_le in H1, H2.
  replace (c <? 55296) with true by (symmetry; apply N.ltb_lt; lia).
  replace (c =? 13) with false by (symmetry; apply N.eqb_neq; lia).
  reflexivity.
Qed.

Lemma hex_digit_clean d : d < 16 -> clean (hex_digit d) = true.
Proof.
  intros H. unfold hex_digit, clean, encodable.
  destruct (d <? 10);
    match goal with
    | |- context [(?c <? 55296)] =>
        replace (c <? 55296) with true by (symmetry; apply N.ltb_lt; lia);
        replace (c =? 13) with false by (symmetry; apply N.eqb_neq; lia)
    end; reflexivity.
Qed.

Lemma escape_char_clean c :
  encodable c = true -> forallb clean (escape_char c) = true.
Proof.
  intros Hc. unfold escape_char, escape_dct.
  destruct (c =? 92); [reflexivity |].
  destruct (c =? 34); [reflexivity |].
  destruct (c =? 8); [reflexivity |].
  destruct (c =? 12); [reflexivity |].
  destruct (c =? 10); [reflexivity |].
  destruct (c =? 13) eqn:H13; [reflexivity |].
  destruct (c =? 9); [reflexivity |].
  destruct (N.ltb_spec c 32) as [H32 | _].
  - unfold u_escape. cbn [forallb].
    rewrite !hex_digit_clean by euclid. reflexivity.
  - cbn [forallb]. unfold clean. rewrite Hc, H13. reflexivity.
Qed.

Lemma encode_basestring_clean s :
  forallb encodable s = true -> forallb clean (encode_basestring s) = true.
Proof.
  intros H. unfold encode_basestring. cbn [forallb].
  rewrite forallb_app. cbn [forallb]. rewrite andb_true_r.
  change (clean 34) with true. cbn [andb].
  induction s as [| c s IH]; [reflexivity |].
  cbn [forallb] in H. apply andb_true_iff in H. destruct H as [Hc H].
  cbn [flat_map]. rewrite forallb_app, (escape_char_clean c Hc), (IH H).
  reflexivity.
Qed.

(** *** Values *)

Lemma value_induction (P : value -> Prop) :
  P VNone ->
  (forall b, P (VBool b)) ->
  (forall z, P (VInt z)) ->
  (forall f, P (VFloat f)) ->
  (forall s, P (VStr s)) ->
  (forall l, Forall P l -> P (VList l)) ->
  (forall d, Forall (fun kv => P (snd kv)) d -> P (VDict d)) ->
  forall v, P v.
Proof.
  intros HN HB HZ HF HS HL HD. fix IH 1.
  intros [| b | z | f | s | l | d];
    [apply HN | apply HB | apply HZ | apply HF | apply HS | |].
  - apply HL. induction l as [| x l IHl]; constructor;
      [apply IH | exact IHl].
  - apply HD. induction d as [| kv d IHd]; constructor;
      [apply IH | exact IHd].
Qed.

Lemma float_same_eq a b : float_same a b = true -> a = b.
Proof.
  destruct a as [s | s | | s m e], b as [t | t | | t n x];
    try discriminate; cbn [float_same]; intros H.
  - apply Bool.eqb_prop in H. congruence.
  - apply Bool.eqb_prop in H. congruence.
  - reflexivity.
  - apply andb_true_iff in H. destruct H as [H He].
    apply andb_true_iff in H. destruct H as [Hs Hm].
    apply Bool.eqb_prop in Hs. apply Pos.eqb_eq in Hm.
    apply Z.eqb_eq in He. congruence.
Qed.

(** What [float_ok] says of a float that [float.__repr__] writes. *)
Lemma float_ok_read codec f :
  float_ok codec f = true ->
  match f with S754_nan | S754_infinity _ => False | _ => True end ->
  exists i fr e,
    scan_number (float_repr codec f) = Some (i, fr, e, [])
    /\ (is_nil fr && is_nil e) = false
    /\ float_of codec (i ++ fr ++ e) = f
    /\ forallb number_char (float_repr codec f) = true
    /\ float_repr codec f <> [].
Proof.
  intros H Hrepr. unfold float_ok in H.
  assert (H' : match scan_number (float_repr codec f) with
               | Some (_, frac, exp, []) => negb (is_nil frac && is_nil exp)
               | _ => false
               end
               && float_same (float_of codec (float_repr codec f)) f
               = true).
  { destruct f as [s | s | | s m e]; try exact H; contradiction. }
  clear H. apply andb_true_iff in H'. destruct H' as [Hs Hf].
  destruct (scan_number (float_repr codec f)) as [[[[i fr] e] r] |] eqn:E;
    [| discriminate].
  destruct r; [| discriminate].
  destruct (scan_number_split _ _ _ _ _ E) as [Ht Hc].
  rewrite !app_nil_r in Ht.
  exists i, fr, e. split; [reflexivity |]. split.
  { apply negb_true_iff. exact Hs. }
  split. { rewrite <- Ht. apply float_same_eq, Hf. }
  split. { rewrite Ht. exact Hc. }
  intros E0. rewrite E0 in E. discriminate E.
Qed.

(** *** The chunks, joined *)

Lemma joined_app a b :
  joined (a ++ b)
  = obind (joined a)
          (fun ta => obind (joined b) (fun tb => Returned (ta ++ tb))).
Proof.
  induction a as [| [t | e] a IH]; cbn [app joined obind].
  - destruct (joined b); reflexivity.
  - rewrite IH. destruct (joined a) as [ta | e]; cbn [obind];
      [| reflexivity].
    destruct (joined b) as [tb | e]; cbn [obind]; [| reflexivity].
    rewrite app_assoc. reflexivity.
  - reflexivity.
Qed.

Lemma joined_app_returned a b ta tb :
  joined a = Returned ta -> joined b = Returned tb ->
  joined (a ++ b) = Returned (ta ++ tb).
Proof. intros Ha Hb. rewrite joined_app, Ha, Hb. reflexivity. Qed.

(** What is written when every chunk comes and every character can be
    encoded: the text, encoded. *)
Lemma write_chunks_joined chunks t :
  joined chunks = Returned t ->
  forallb encodable t = true ->
  write_chunks chunks = (flat_map utf8_char t, None).
Proof.
  revert t. induction chunks as [| [a | e] chunks IH]; intros t.
  - intros [= <-] _. reflexivity.
  - cbn [joined obind write_chunks].
    destruct (joined chunks) as [r | e]; [| discriminate].
    intros [= <-]. rewrite forallb_app. intros H.
    apply andb_true_iff in H. destruct H as [Ha Hr].
    unfold encode_utf8. rewrite Ha, (IH r eq_refl Hr), flat_map_app.
    reflexivity.
  - discriminate.
Qed.

Section Written.

Variable codec : float_text.
Variable indent : nat.

#[local] Abbreviation nl := (newline_indent indent).
#[local] Abbreviation chunks := (iterencode codec false indent).
#[local] Abbreviation txt := (text codec indent).
#[local] Abbreviation ok := (storable codec).
#[local] Abbreviation reads := (read_back codec indent).

Lemma atom_text level o c :
  ok o = true -> atom codec false o = Some c ->
  c = Returned (txt level o).
Proof.
  destruct o as [| [|] | z | f | s | l | d]; cbn [atom storable text];
    intros H [= <-]; try reflexivity.
  unfold int_text. destruct (int_repr z); [reflexivity | discriminate].
Qed.

Lemma chunks_atom level o c :
  atom codec false o = Some c -> chunks level o = [c].
Proof.
  destruct o as [| [|] | z | f | s | l | d]; cbn [atom iterencode];
    intros E; try discriminate; injection E as <-; reflexivity.
Qed.

Lemma atom_none_or o :
  atom codec false o = None \/ exists c, atom codec false o = Some c.
Proof. destruct (atom codec false o); eauto. Qed.

(** One item of a list, with what is yielded ahead of it. *)
Lemma item_joined level buf x :
  ok x = true ->
  joined (chunks level x) = Returned (txt level x) ->
  joined (match atom codec false x with
          | Some c => [prepend buf c]
          | None => Returned buf :: chunks level x
          end) = Returned (buf ++ txt level x).
Proof.
  intros Hok Hx. destruct (atom codec false x) as [c |] eqn:E.
  - rewrite (atom_text level x c Hok E). cbn [prepend joined obind].
    rewrite app_nil_r. reflexivity.
  - cbn [joined obind]. rewrite Hx. reflexivity.
Qed.

Lemma list_chunks_cons enc sep buf x xs :
  list_chunks codec false enc sep buf (x :: xs)
  = match atom codec false x with
    | Some c => [prepend buf c]
    | None => Returned buf :: enc x
    end ++ list_chunks codec false enc sep sep xs.
Proof. reflexivity. Qed.

Lemma list_chunks_joined level sep xs :
  Forall (fun x => ok x = true /\
                   joined (chunks level x) = Returned (txt level x)) xs ->
  forall buf x,
    ok x = true ->
    joined (chunks level x) = Returned (txt level x) ->
    joined (list_chunks codec false (chunks level) sep buf (x :: xs))
    = Returned (buf ++ txt level x
                ++ flat_map (fun y => sep ++ txt level y) xs).
Proof.
  induction 1 as [| y ys [Hy1 Hy2] _ IH]; intros buf x Hok Hx;
    rewrite list_chunks_cons; cbn [flat_map].
  - cbn [list_chunks]. rewrite !app_nil_r. apply item_joined; assumption.
  - rewrite (joined_app_returned _ _ _ _ (item_joined level buf x Hok Hx)
               (IH sep y Hy1 Hy2)).
    rewrite <- !app_assoc. reflexivity.
Qed.

Lemma dict_chunks_joined level sep d :
  Forall (fun kv => joined (chunks level (snd kv))
                    = Returned (txt level (snd kv))) d ->
  joined (dict_chunks false (chunks level) sep false d)
  = Returned (flat_map (fun kv => sep ++ encode_basestring (fst kv)
                                  ++ [58; 32] ++ txt level (snd kv)) d).
Proof.
  induction 1 as [| kv d Hkv _ IH]; [reflexivity |].
  cbn [dict_chunks flat_map app joined obind encoder].
  rewrite (joined_app_returned _ _ _ _ Hkv IH). cbn [obind].
  rewrite <- !app_assoc. reflexivity.
Qed.

(** The chunks of a storable object all come, and joined they are its
    text. *)
Lemma chunks_joined o :
  forall level, ok o = true -> joined (chunks level o) = Returned (txt level o).
Proof.
  revert o.
  assert (Hatom : forall o c level,
            atom codec false o = Some c -> ok o = true ->
            joined (chunks level o) = Returned (txt level o)).
  { intros o c level E Hok.
    rewrite (chunks_atom level o c E), (atom_text level o c Hok E).
    cbn [joined obind]. rewrite app_nil_r. reflexivity. }
  apply (value_induction
           (fun o => forall level, ok o = true ->
                     joined (chunks level o) = Returned (txt level o)));
    [ intros level Hok; eapply Hatom; [reflexivity | exact Hok]
    | intros [|] level Hok; (eapply Hatom; [reflexivity | exact Hok])
    | intros z level Hok; eapply Hatom; [reflexivity | exact Hok]
    | intros f level Hok; eapply Hatom; [reflexivity | exact Hok]
    | intros s level Hok; eapply Hatom; [reflexivity | exact Hok]
    | intros l IH level Hok
    | intros d IH level Hok ].
  - destruct l as [| x xs]; [reflexivity |].
    cbn [storable forallb] in Hok. apply andb_true_iff in Hok.
    destruct Hok as [Hx Hxs]. inversion IH as [| ? ? IHx IHxs]; subst.
    cbn [iterencode text].
    assert (Hall : Forall (fun y => ok y = true /\
                     joined (chunks (S level) y)
                     = Returned (txt (S level) y)) xs).
    { clear - IHxs Hxs. induction IHxs as [| y ys Hy _ IHys];
        constructor; cbn [forallb] in Hxs;
        apply andb_true_iff in Hxs; destruct Hxs as [H1 H2].
      - split; [exact H1 | apply Hy, H1].
      - apply IHys, H2. }
    rewrite (joined_app_returned _ [Returned (nl level); Returned [93]]
               _ (nl level ++ [93])
               (list_chunks_joined (S level) _ xs Hall _ x Hx
                                   (IHx (S level) Hx))).
    + rewrite <- !app_assoc. reflexivity.
    + cbn [joined obind]. rewrite app_nil_r. reflexivity.
  - destruct d as [| kv d]; [reflexivity |].
    cbn [storable forallb] in Hok. apply andb_true_iff in Hok.
    destruct Hok as [_ Hok]. apply andb_true_iff in Hok.
    destruct Hok as [Hkv Hd]. apply andb_true_iff in Hkv.
    destruct Hkv as [_ Hv]. inversion IH as [| ? ? IHv IHd]; subst.
    cbn [iterencode text dict_chunks app joined obind encoder].
    assert (Hall : Forall (fun kv' => joined (chunks (S level) (snd kv'))
                     = Returned (txt (S level) (snd kv'))) d).
    { clear - IHd Hd. induction IHd as [| y ys Hy _ IHys];
        constructor; cbn [forallb] in Hd;
        apply andb_true_iff in Hd; destruct Hd as [H1 H2].
      - apply andb_true_iff in H1. apply Hy, H1.
      - apply IHys, H2. }
    rewrite <- app_assoc.
    rewrite (joined_app_returned _ _ _ _ (IHv (S level) Hv)
               (joined_app_returned _
                  [Returned (nl level); Returned [125]] _ (nl level ++ [125])
                  (dict_chunks_joined (S level) _ d Hall) eq_refl)).
    cbn [obind]. rewrite <- ?app_assoc. reflexivity.
Qed.

(** **** The characters of the text *)

Lemma forallb_weaken (P Q : N -> bool) s :
  (forall c, P c = true -> Q c = true) ->
  forallb P s = true -> forallb Q s = true.
Proof.
  intros HPQ. induction s as [| c s IH]; [reflexivity |].
  cbn [forallb]. intros H. apply andb_true_iff in H. destruct H as [Hc H].
  rewrite (HPQ c Hc), (IH H). reflexivity.
Qed.

Lemma nl_clean level : forallb clean (nl level) = true.
Proof.
  unfold newline_indent. cbn [forallb]. change (clean 10) with true.
  cbn [andb]. induction (indent * level)%nat as [| n IH]; [reflexivity |].
  cbn [repeat forallb]. rewrite IH. reflexivity.
Qed.

Lemma atom_clean level o c :
  ok o = true -> atom codec false o = Some c ->
  forallb clean (txt level o) = true.
Proof.
  destruct o as [| [|] | z | f | s | l | d]; cbn [atom storable text];
    intros H E; try discriminate E; try reflexivity.
  - unfold int_text. destruct (int_repr z) as [t |] eqn:Ez; [| discriminate].
    destruct (int_repr_read z t Ez) as (_ & _ & Hc & _).
    exact (forallb_weaken _ _ t number_char_clean Hc).
  - destruct f as [sg | [|] | | sg m e]; try reflexivity;
      (destruct (float_ok_read codec _ H I) as (i & fr & ex & _ & _ & _ & Hc & _);
       exact (forallb_weaken _ _ _ number_char_clean Hc)).
  - apply encode_basestring_clean, H.
Qed.

Lemma flat_map_clean {A} (f : A -> pystr) l :
  Forall (fun a => forallb clean (f a) = true) l ->
  forallb clean (flat_map f l) = true.
Proof.
  induction 1 as [| a l Ha _ IH]; [reflexivity |].
  cbn [flat_map]. rewrite forallb_app, Ha, IH. reflexivity.
Qed.

Ltac conjuncts := repeat (apply andb_true_iff; split).

Lemma text_clean o :
  forall level, ok o = true -> forallb clean (txt level o) = true.
Proof.
  revert o.
  apply (value_induction
           (fun o => forall level, ok o = true ->
                     forallb clean (txt level o) = true));
    [ intros level Hok; eapply atom_clean; [exact Hok | reflexivity]
    | intros [|] level Hok; (eapply atom_clean; [exact Hok | reflexivity])
    | intros z level Hok; eapply atom_clean; [exact Hok | reflexivity]
    | intros f level Hok; eapply atom_clean; [exact Hok | reflexivity]
    | intros s level Hok; eapply atom_clean; [exact Hok | reflexivity]
    | intros l IH level Hok
    | intros d IH level Hok ].
  - destruct l as [| x xs]; [reflexivity |].
    cbn [storable forallb] in Hok. apply andb_true_iff in Hok.
    destruct Hok as [Hx Hxs]. inversion IH as [| ? ? IHx IHxs]; subst.
    cbn [text forallb]. rewrite !forallb_app.
    conjuncts; try reflexivity; try apply nl_clean.
    + apply IHx, Hx.
    + apply flat_map_clean.
      clear - IHxs Hxs. induction IHxs as [| y ys Hy _ IHys];
        constructor; cbn [forallb] in Hxs;
        apply andb_true_iff in Hxs; destruct Hxs as [H1 H2].
      * cbn [forallb]. rewrite forallb_app.
        conjuncts; try reflexivity; try apply nl_clean. apply Hy, H1.
      * apply IHys, H2.
  - destruct d as [| kv d]; [reflexivity |].
    cbn [storable forallb] in Hok. apply andb_true_iff in Hok.
    destruct Hok as [_ Hok]. apply andb_true_iff in Hok.
    destruct Hok as [Hkv Hd]. apply andb_true_iff in Hkv.
    destruct Hkv as [Hk Hv]. inversion IH as [| ? ? IHv IHd]; subst.
    cbn [text forallb]. rewrite !forallb_app.
    conjuncts; try reflexivity; try apply nl_clean.
    + apply encode_basestring_clean, Hk.
    + apply IHv, Hv.
    + apply flat_map_clean.
      clear - IHd Hd. induction IHd as [| y ys Hy _ IHys];
        constructor; cbn [forallb] in Hd;
        apply andb_true_iff in Hd; destruct Hd as [H1 H2].
      * apply andb_true_iff in H1. destruct H1 as [Hk Hv].
        cbn [forallb]. rewrite !forallb_app.
        conjuncts; try reflexivity; try apply nl_clean;
          [apply encode_basestring_clean, Hk | apply Hy, Hv].
      * apply IHys, H2.
Qed.

(** **** The first character of the text *)

Lemma number_char_starter c : number_char c = true -> starter c = true.
Proof.
  unfold number_char, is_digit. intros H.
  repeat (apply orb_true_iff in H; destruct H as [H | H]);
    try (apply N.eqb_eq in H; subst; reflexivity).
  apply andb_true_iff in H. destruct H as [H1 H2].
  apply N.leb_le in H1, H2. unfold starter, is_ws.
  repeat match goal with
         | |- context [c =? ?k] =>
             replace (c =? k) with false by (symmetry; apply N.eqb_neq; lia)
         end.
  reflexivity.
Qed.

Lemma number_text_starts t :
  forallb number_char t = true -> t <> [] -> starts t.
Proof.
  destruct t as [| c r]; [congruence |]. cbn [forallb]. intros H _.
  apply andb_true_iff in H. exists c, r.
  split; [reflexivity | apply number_char_starter; tauto].
Qed.

Lemma text_starts o level : ok o = true -> starts (txt level o).
Proof.
  destruct o as [| [|] | z | f | s | [| x xs] | [| kv d]];
    cbn [storable text]; intros H;
    try (eexists; eexists; split; reflexivity).
  - unfold int_text. destruct (int_repr z) as [t |] eqn:Ez; [| discriminate].
    destruct (int_repr_read z t Ez) as (_ & _ & Hc & Hne).
    apply number_text_starts; assumption.
  - destruct f as [sg | [|] | | sg m e];
      try (eexists; eexists; split; reflexivity);
      (destruct (float_ok_read codec _ H I)
         as (i & fr & ex & _ & _ & _ & Hc & Hne);
       apply number_text_starts; assumption).
Qed.

(** **** The text, scanned *)

Lemma starter_not_ws c : starter c = true -> is_ws c = false.
Proof.
  unfold starter. intros H. repeat (apply andb_true_iff in H; destruct H as [H ?]).
  apply negb_true_iff. exact H.
Qed.

Lemma starter_not_close c : starter c = true -> (c =? 93) = false.
Proof.
  unfold starter. intros H. repeat (apply andb_true_iff in H; destruct H as [H ?]).
  apply negb_true_iff. assumption.
Qed.

Lemma starter_not_bom c : starter c = true -> (c =? 65279) = false.
Proof.
  unfold starter. intros H. apply andb_true_iff in H. destruct H as [_ H].
  apply negb_true_iff. exact H.
Qed.

Lemma skip_ws_nl level s : skip_ws (nl level ++ s) = skip_ws s.
Proof.
  unfold newline_indent. cbn [app skip_ws]. change (is_ws 10) with true.
  cbn match. induction (indent * level)%nat as [| n IH]; [reflexivity |].
  cbn [repeat app skip_ws]. change (is_ws 32) with true. exact IH.
Qed.

Lemma skip_ws_starts s rest : starts s -> skip_ws (s ++ rest) = s ++ rest.
Proof.
  intros (c & r & -> & Hc). cbn [app skip_ws].
  rewrite (starter_not_ws c Hc). reflexivity.
Qed.

Lemma starts_with_head p ps c r :
  (c =? p) = false -> starts_with (p :: ps) (c :: r) = None.
Proof.
  intros H. unfold starts_with. cbn [List.length firstn str_eqb].
  rewrite H. reflexivity.
Qed.

Lemma scan_once_eq fuel c r :
  scan_once codec (S fuel) (c :: r)
  = if c =? 34 then
      match scanstring r with
      | Some (t, rest) => Some (VStr t, rest)
      | None => None
      end
    else if c =? 123 then
      match skip_ws r with
      | c1 :: r1 =>
          if c1 =? 125 then Some (VDict [], r1)
          else if c1 =? 34 then
            match json_object codec fuel r1 with
            | Some (pairs, rest) => Some (VDict (dict_of_pairs pairs), rest)
            | None => None
            end
          else None
      | [] => None
      end
    else if c =? 91 then
      match skip_ws r with
      | c1 :: r1 =>
          if c1 =? 93 then Some (VList [], r1)
          else
            match json_array codec fuel (c1 :: r1) with
            | Some (values, rest) => Some (VList values, rest)
            | None => None
            end
      | [] => None
      end
    else
      match starts_with [110; 117; 108; 108] (c :: r) with
      | Some rest => Some (VNone, rest)
      | None =>
      match starts_with [116; 114; 117; 101] (c :: r) with
      | Some rest => Some (VBool true, rest)
      | None =>
      match starts_with [102; 97; 108; 115; 101] (c :: r) with
      | Some rest => Some (VBool false, rest)
      | None => scan_numeric codec (c :: r)
      end end end.
Proof. reflexivity. Qed.

Lemma json_array_eq fuel s :
  json_array codec (S fuel) s
  = match scan_once codec fuel s with
    | None => None
    | Some (v, r) =>
        match skip_ws r with
        | c :: r1 =>
            if c =? 93 then Some ([v], r1)
            else if c =? 44 then
              match json_array codec fuel (skip_ws r1) with
              | Some (values, rest) => Some (v :: values, rest)
              | None => None
              end
            else None
        | [] => None
        end
    end.
Proof. reflexivity. Qed.

Lemma json_object_eq fuel s :
  json_object codec (S fuel) s
  = match scanstring s with
    | None => None
    | Some (key, r) =>
        match skip_ws r with
        | c :: r1 =>
            if c =? 58 then
              match scan_once codec fuel (skip_ws r1) with
              | None => None
              | Some (v, r2) =>
                  match skip_ws r2 with
                  | c2 :: r3 =>
                      if c2 =? 125 then Some ([(key, v)], r3)
                      else if c2 =? 44 then
                        match skip_ws r3 with
                        | c3 :: r4 =>
                            if c3 =? 34 then
                              match json_object codec fuel r4 with
                              | Some (pairs, rest) =>
                                  Some ((key, v) :: pairs, rest)
                              | None => None
                              end
                            else None
                        | [] => None
                        end
                      else None
                  | [] => None
                  end
              end
            else None
        | [] => None
        end
    end.
Proof. reflexivity. Qed.

(** At a character of a number, [scan_once] goes to the numbers. *)
Lemma scan_once_numeric fuel c r :
  number_char c = true ->
  scan_once codec (S fuel) (c :: r) = scan_numeric codec (c :: r).
Proof.
  intros H. rewrite scan_once_eq.
  assert (Hne : (c =? 34) = false /\ (c =? 123) = false
                /\ (c =? 91) = false /\ (c =? 110) = false
                /\ (c =? 116) = false /\ (c =? 102) = false).
  { unfold number_char, is_digit in H.
    repeat (apply orb_true_iff in H; destruct H as [H | H]);
      try (apply N.eqb_eq in H; subst; repeat split; reflexivity).
    apply andb_true_iff in H. destruct H as [H1 H2].
    apply N.leb_le in H1, H2.
    repeat split; apply N.eqb_neq; lia. }
  destruct Hne as (-> & -> & -> & H1 & H2 & H3).
  rewrite !starts_with_head by assumption. reflexivity.
Qed.

Lemma scan_numeric_int z t rest :
  int_repr z = Returned t -> tail_ok rest = true ->
  scan_numeric codec (t ++ rest) = Some (VInt z, rest).
Proof.
  intros Ez Hrest. destruct (int_repr_read z t Ez) as (Hs & Hi & _ & _).
  unfold scan_numeric.
  rewrite (scan_number_ext t rest _ _ _ _ Hrest Hs). cbn [is_nil andb app].
  rewrite Hi. reflexivity.
Qed.

Lemma scan_numeric_float f rest :
  float_ok codec f = true ->
  match f with S754_nan | S754_infinity _ => False | _ => True end ->
  tail_ok rest = true ->
  scan_numeric codec (float_repr codec f ++ rest) = Some (VFloat f, rest).
Proof.
  intros Hok Hfin Hrest.
  destruct (float_ok_read codec f Hok Hfin)
    as (i & fr & e & Hs & Hn & Hf & _ & _).
  unfold scan_numeric.
  rewrite (scan_number_ext _ rest _ _ _ _ Hrest Hs), Hn, Hf.
  reflexivity.
Qed.

Lemma scan_atom level o c rest fuel :
  ok o = true -> atom codec false o = Some c -> tail_ok rest = true ->
  scan_once codec (S fuel) (txt level o ++ rest) = Some (o, rest).
Proof.
  intros Hok E Hrest.
  destruct o as [| [|] | z | f | s | l | d]; try discriminate E;
    cbn [storable text] in *; try reflexivity.
  - unfold int_text. destruct (int_repr z) as [t |] eqn:Ez; [| discriminate].
    destruct (int_repr_read z t Ez) as (_ & _ & Hc & Hne).
    destruct t as [| a t]; [congruence |].
    cbn [forallb] in Hc. apply andb_true_iff in Hc. destruct Hc as [Ha _].
    cbn [app]. rewrite (scan_once_numeric fuel a _ Ha).
    exact (scan_numeric_int z (a :: t) rest Ez Hrest).
  - destruct f as [sg | [|] | | sg m e]; try reflexivity;
      (destruct (float_ok_read codec _ Hok I)
         as (i & fr & ex & _ & _ & _ & Hc & Hne);
       cbn [floatstr];
       pose proof (scan_numeric_float _ rest Hok I Hrest) as Hscan;
       destruct (float_repr codec _) as [| a t]; [congruence |];
       cbn [forallb] in Hc; apply andb_true_iff in Hc;
       destruct Hc as [Ha _];
       cbn [app]; rewrite (scan_once_numeric fuel a _ Ha);
       exact Hscan).
  - unfold encode_basestring. cbn [app]. rewrite scan_once_eq.
    cbn [N.eqb Pos.eqb]. rewrite <- app_assoc. cbn [app].
    rewrite scanstring_encoded. reflexivity.
Qed.

(** **** A dict, rebuilt from its pairs *)

Lemma str_eqb_sym s t : str_eqb s t = str_eqb t s.
Proof.
  destruct (str_eqb s t) eqn:E1, (str_eqb t s) eqn:E2; try reflexivity.
  - apply str_eqb_eq in E1. subst.
    rewrite (proj2 (str_eqb_eq t t) eq_refl) in E2. discriminate.
  - apply str_eqb_eq in E2. subst.
    rewrite (proj2 (str_eqb_eq s s) eq_refl) in E1. discriminate.
Qed.

Lemma dict_set_fresh acc k v :
  has_key k acc = false -> dict_set acc k v = acc ++ [(k, v)].
Proof.
  induction acc as [| [k' v'] acc IH]; [reflexivity |].
  unfold has_key. cbn [existsb dict_set fst app]. intros H.
  apply orb_false_iff in H. destruct H as [-> H].
  rewrite (IH H). reflexivity.
Qed.

Lemma fold_dict_set pairs :
  forall acc,
    distinct_keys pairs = true ->
    Forall (fun kv => has_key (fst kv) acc = false) pairs ->
    fold_left (fun d kv => dict_set d (fst kv) (snd kv)) pairs acc
    = acc ++ pairs.
Proof.
  induction pairs as [| kv pairs IH]; intros acc Hd Hacc.
  - rewrite app_nil_r. reflexivity.
  - cbn [distinct_keys] in Hd. apply andb_true_iff in Hd.
    destruct Hd as [Hkv Hd]. apply negb_true_iff in Hkv.
    inversion Hacc as [| ? ? Hk Hrest]; subst.
    cbn [fold_left]. rewrite (dict_set_fresh acc _ _ Hk).
    rewrite IH; [rewrite <- app_assoc; destruct kv; reflexivity | exact Hd |].
    clear - Hkv Hrest. induction Hrest as [| p ps Hp _ IHps];
      constructor; cbn [existsb] in Hkv; apply orb_false_iff in Hkv;
      destruct Hkv as [H1 H2].
    + unfold has_key in *. rewrite existsb_app, Hp. cbn [existsb fst].
      rewrite str_eqb_sym, H1. reflexivity.
    + apply IHps, H2.
Qed.

Lemma dict_of_pairs_distinct d :
  distinct_keys d = true -> dict_of_pairs d = d.
Proof.
  intros H. unfold dict_of_pairs. rewrite (fold_dict_set d [] H);
    [reflexivity |].
  clear. induction d; constructor; [reflexivity | assumption].
Qed.

(** **** Lists and dicts, scanned *)

Lemma tail_ok_nl level s : tail_ok (nl level ++ s) = true.
Proof. reflexivity. Qed.

Lemma tail_ok_comma s : tail_ok (44 :: s) = true.
Proof. reflexivity. Qed.

Lemma nl_length level : (1 <= List.length (nl level))%nat.
Proof. unfold newline_indent. cbn [List.length]. lia. Qed.

Lemma json_array_text level rest xs :
  Forall (fun y => ok y = true /\ reads y) xs ->
  forall x fuel,
    ok x = true -> reads x ->
    Nat.lt (List.length
              (txt (S level) x
               ++ flat_map (fun y => 44 :: nl (S level) ++ txt (S level) y)
                           xs
               ++ nl level ++ [93])) fuel ->
    json_array codec fuel
      (txt (S level) x
       ++ flat_map (fun y => 44 :: nl (S level) ++ txt (S level) y) xs
       ++ nl level ++ 93 :: rest)
    = Some (x :: xs, rest).
Proof.
  induction 1 as [| y ys [Hy Py] _ IH]; intros x fuel Hx Px Hlen;
    unfold Nat.lt in *;
    (destruct fuel as [| m]; [inversion Hlen |]);
    rewrite json_array_eq; cbn [flat_map] in *.
  - cbn [app] in *. rewrite !length_app in Hlen.
    cbn [List.length] in Hlen.
    rewrite (Px (S level) (nl level ++ 93 :: rest) m Hx (tail_ok_nl _ _))
      by lia.
    rewrite skip_ws_nl. reflexivity.
  - rewrite <- ?app_assoc in *. cbn [app] in *.
    rewrite !length_app in Hlen. cbn [List.length] in Hlen.
    rewrite !length_app in Hlen.
    rewrite (Px (S level) _ m Hx (tail_ok_comma _)) by lia.
    change (skip_ws (44 :: ?R)) with (44 :: R). cbn [N.eqb Pos.eqb].
    rewrite <- ?app_assoc.
    rewrite skip_ws_nl, (skip_ws_starts _ _ (text_starts y (S level) Hy)).
    rewrite (IH y m Hy Py); [reflexivity |].
    rewrite !length_app. lia.
Qed.

Ltac lengths_in H :=
  repeat first [rewrite length_app in H | progress cbn [List.length] in H].

Ltac lengths :=
  repeat first [rewrite length_app | progress cbn [List.length]].

Lemma member_text (k t : pystr) :
  encode_basestring k ++ [58; 32] ++ t
  = 34 :: flat_map escape_char k ++ 34 :: 58 :: 32 :: t.
Proof.
  unfold encode_basestring. cbn [app]. rewrite <- app_assoc. reflexivity.
Qed.

Lemma members_cons level (kv : pystr * value) (d : list (pystr * value))
      (r : pystr) :
  flat_map (fun kv' : pystr * value => 44 :: nl (S level)
                       ++ encode_basestring (fst kv')
                       ++ [58; 32]
                       ++ txt (S level) (snd kv')) (kv :: d) ++ r
  = 44 :: nl (S level)
    ++ 34 :: flat_map escape_char (fst kv)
    ++ 34 :: 58 :: 32 :: txt (S level) (snd kv)
    ++ flat_map (fun kv' : pystr * value => 44 :: nl (S level)
                            ++ encode_basestring (fst kv')
                            ++ [58; 32]
                            ++ txt (S level) (snd kv')) d ++ r.
Proof.
  cbn [flat_map]. rewrite member_text.
  rewrite <- ?app_assoc. cbn [app]. rewrite <- ?app_assoc. cbn [app].
  rewrite <- ?app_assoc. reflexivity.
Qed.

Lemma json_object_text level rest (d : list (pystr * value)) :
  Forall (fun kv : pystr * value => ok (snd kv) = true /\ reads (snd kv)) d ->
  forall (kv : pystr * value) fuel,
    ok (snd kv) = true -> reads (snd kv) ->
    Nat.lt (List.length
              (flat_map escape_char (fst kv)
               ++ 34 :: 58 :: 32 :: txt (S level) (snd kv)
               ++ flat_map (fun kv' : pystr * value => 44 :: nl (S level)
                                       ++ encode_basestring (fst kv')
                                       ++ [58; 32]
                                       ++ txt (S level) (snd kv')) d
               ++ nl level ++ [125])) fuel ->
    json_object codec fuel
      (flat_map escape_char (fst kv)
       ++ 34 :: 58 :: 32 :: txt (S level) (snd kv)
       ++ flat_map (fun kv' : pystr * value => 44 :: nl (S level)
                               ++ encode_basestring (fst kv')
                               ++ [58; 32]
                               ++ txt (S level) (snd kv')) d
       ++ nl level ++ 125 :: rest)
    = Some (kv :: d, rest).
Proof.
  induction 1 as [| kv' d' [Hv' Pv'] _ IH]; intros [k v] fuel Hv Pv Hlen;
    unfold Nat.lt in *; cbn [fst snd] in *;
    (destruct fuel as [| m]; [inversion Hlen |]);
    rewrite json_object_eq, scanstring_encoded;
    change (skip_ws (58 :: ?R)) with (58 :: R); cbn [N.eqb Pos.eqb];
    change (skip_ws (32 :: ?R)) with (skip_ws R);
    rewrite (skip_ws_starts _ _ (text_starts v (S level) Hv)).
  - cbn [flat_map app] in *. rewrite !length_app in Hlen.
    cbn [List.length] in Hlen. rewrite !length_app in Hlen.
    cbn [List.length] in Hlen.
    rewrite (Pv (S level) (nl level ++ 125 :: rest) m Hv (tail_ok_nl _ _))
      by lia.
    rewrite skip_ws_nl. reflexivity.
  - rewrite members_cons in Hlen |- *.
    rewrite (Pv (S level) _ m Hv (tail_ok_comma _)) by (lengths_in Hlen; lia).
    change (skip_ws (44 :: ?R)) with (44 :: R). cbn [N.eqb Pos.eqb].
    rewrite skip_ws_nl.
    change (skip_ws (34 :: ?R)) with (34 :: R). cbn [N.eqb Pos.eqb].
    rewrite (IH kv' m Hv' Pv'); [reflexivity |].
    lengths_in Hlen. lengths. lia.
Qed.

(** [scan_once] reads back the text of every storable object. *)
Lemma scan_text o : reads o.
Proof.
  revert o.
  assert (Hatom : forall o c, atom codec false o = Some c -> reads o).
  { intros o c E level rest fuel Hok Hrest Hlen.
    destruct fuel as [| m]; [inversion Hlen |].
    exact (scan_atom level o c rest m Hok E Hrest). }
  apply (value_induction reads);
    [ exact (Hatom VNone _ eq_refl)
    | intros [|]; eapply Hatom; reflexivity
    | intros z; eapply Hatom; reflexivity
    | intros f; eapply Hatom; reflexivity
    | intros s; eapply Hatom; reflexivity
    | intros l IH level rest fuel Hok Hrest Hlen
    | intros d IH level rest fuel Hok Hrest Hlen ];
    (destruct fuel as [| m]; [inversion Hlen |]).
  - destruct l as [| x xs]; [reflexivity |].
    cbn [storable forallb] in Hok. apply andb_true_iff in Hok.
    destruct Hok as [Hx Hxs]. inversion IH as [| ? ? Px Pxs]; subst.
    assert (Hall : Forall (fun y => ok y = true /\ reads y) xs).
    { clear - Pxs Hxs. induction Pxs as [| y ys Py _ IHys];
        constructor; cbn [forallb] in Hxs;
        apply andb_true_iff in Hxs; destruct Hxs as [H1 H2];
        [split; assumption | apply IHys, H2]. }
    cbn [text] in *.
    pose proof (json_array_text level rest xs Hall x m Hx Px) as HA.
    assert (Hb : Nat.lt (List.length
                (txt (S level) x
                 ++ flat_map (fun y => 44 :: nl (S level) ++ txt (S level) y)
                             xs
                 ++ nl level ++ [93])) m).
    { unfold Nat.lt. lengths_in Hlen. lengths. lia. }
    specialize (HA Hb).
    cbn [app]. rewrite <- ?app_assoc. cbn [app].
    rewrite scan_once_eq. cbn [N.eqb Pos.eqb].
    rewrite skip_ws_nl, (skip_ws_starts _ _ (text_starts x (S level) Hx)).
    destruct (text_starts x (S level) Hx) as (c1 & r1 & E & Hc1).
    rewrite E in HA |- *. cbn [app] in HA |- *.
    rewrite (starter_not_close c1 Hc1), HA. reflexivity.
  - destruct d as [| kv d]; [reflexivity |].
    cbn [storable forallb] in Hok. apply andb_true_iff in Hok.
    destruct Hok as [Hdist Hok]. apply andb_true_iff in Hok.
    destruct Hok as [Hkv Hd]. apply andb_true_iff in Hkv.
    destruct Hkv as [_ Hv]. inversion IH as [| ? ? Pv Pd]; subst.
    assert (Hall : Forall (fun kv' : pystr * value =>
                             ok (snd kv') = true /\ reads (snd kv')) d).
    { clear - Pd Hd. induction Pd as [| y ys Py _ IHys];
        constructor; cbn [forallb] in Hd;
        apply andb_true_iff in Hd; destruct Hd as [H1 H2];
        [apply andb_true_iff in H1; split; [apply H1 | assumption]
        | apply IHys, H2]. }
    cbn [text] in *.
    pose proof (json_object_text level rest d Hall kv m Hv Pv) as HO.
    rewrite member_text in Hlen |- *.
    cbn [app]. rewrite <- ?app_assoc. cbn [app]. rewrite <- ?app_assoc.
    cbn [app].
    rewrite scan_once_eq. cbn [N.eqb Pos.eqb].
    rewrite skip_ws_nl.
    change (skip_ws (34 :: ?R)) with (34 :: R). cbn [N.eqb Pos.eqb].
    rewrite <- ?app_assoc.
    match goal with
    | |- context [json_object codec m ?X] =>
        replace (json_object codec m X) with (Some (kv :: d, rest))
    end.
    + rewrite (dict_of_pairs_distinct (kv :: d) Hdist). reflexivity.
    + symmetry. apply HO.
      unfold Nat.lt. lengths_in Hlen. lengths. lia.
Qed.

End Written.

(** *** UTF-8 *)

Ltac settle :=
  repeat match goal with
    | |- context [(?a <? ?b)] =>
        first [ replace (a <? b) with true
                  by (symmetry; apply N.ltb_lt; euclid)
              | replace (a <? b) with false
                  by (symmetry; apply N.ltb_ge; euclid) ]
    | |- context [(?a <=? ?b)] =>
        first [ replace (a <=? b) with true
                  by (symmetry; apply N.leb_le; euclid)
              | replace (a <=? b) with false
                  by (symmetry; apply N.leb_gt; euclid) ]
    end.

Lemma decode_utf8_char c rest :
  encodable c = true ->
  decode_utf8 (utf8_char c ++ rest) = option_map (cons c) (decode_utf8 rest).
Proof.
  intros Hc.
  assert (Hmax : c < 1114112).
  { unfold encodable in Hc. apply orb_true_iff in Hc.
    destruct Hc as [H | H]; [apply N.ltb_lt in H; lia |].
    apply andb_true_iff in H. destruct H as [_ H]. apply N.ltb_lt in H.
    exact H. }
  unfold utf8_char.
  destruct (N.ltb_spec c 128) as [H1 | H1].
  { cbn [app decode_utf8]. settle. reflexivity. }
  destruct (N.ltb_spec c 2048) as [H2 | H2].
  { cbn [app decode_utf8]. unfold continuation.
    replace ((192 + c / 64 - 192) * 64 + (128 + c mod 64 - 128)) with c
      by euclid.
    settle. reflexivity. }
  destruct (N.ltb_spec c 65536) as [H3 | H3].
  { cbn [app decode_utf8]. unfold continuation.
    replace ((224 + c / 4096 - 224) * 4096
             + (128 + (c / 64) mod 64 - 128) * 64
             + (128 + c mod 64 - 128)) with c by euclid.
    rewrite Hc. settle. reflexivity. }
  cbn [app decode_utf8]. unfold continuation.
  replace ((240 + c / 262144 - 240) * 262144
           + (128 + (c / 4096) mod 64 - 128) * 4096
           + (128 + (c / 64) mod 64 - 128) * 64
           + (128 + c mod 64 - 128)) with c by euclid.
  settle. reflexivity.
Qed.

Lemma decode_encoded s :
  forallb encodable s = true -> decode_utf8 (flat_map utf8_char s) = Some s.
Proof.
  induction s as [| c s IH]; [reflexivity |].
  cbn [forallb flat_map]. intros H. apply andb_true_iff in H.
  destruct H as [Hc H]. rewrite (decode_utf8_char c _ Hc), (IH H).
  reflexivity.
Qed.

Lemma universal_newlines_clean s :
  forallb clean s = true -> universal_newlines s = s.
Proof.
  induction s as [| c s IH]; [reflexivity |].
  cbn [forallb universal_newlines]. intros H. apply andb_true_iff in H.
  destruct H as [Hc H]. unfold clean in Hc. apply andb_true_iff in Hc.
  destruct Hc as [_ Hc]. apply negb_true_iff in Hc.
  rewrite Hc, (IH H). reflexivity.
Qed.

Lemma clean_encodable s :
  forallb clean s = true -> forallb encodable s = true.
Proof.
  apply forallb_weaken. intros c H. unfold clean in H.
  apply andb_true_iff in H. tauto.
Qed.

(** *** Written, then read *)

(** What [json.dump] writes of a storable object is its text, encoded,
    and nothing is raised; [json.load] reads the object back from it. *)
Lemma dump_storable codec o indent :
  storable codec o = true ->
  dump codec o indent false
  = (flat_map utf8_char (text codec (Z.to_nat indent) 0 o), None).
Proof.
  intros Hok. unfold dump.
  apply write_chunks_joined; [apply chunks_joined, Hok |].
  apply clean_encodable, text_clean, Hok.
Qed.

Lemma loads_text codec indent o :
  storable codec o = true ->
  loads codec (text codec indent 0 o) = Some o.
Proof.
  intros Hok. unfold loads.
  destruct (text_starts codec indent o 0 Hok) as (c & r & E & Hc).
  pose proof (scan_text codec indent o 0%nat [] (S (List.length (c :: r)))
                Hok eq_refl) as Hscan.
  rewrite app_nil_r, E in Hscan. rewrite E.
  assert (Hbom : match c :: r with
                 | 65279 :: _ => true
                 | _ => false
                 end = false).
  { destruct (N.eqb_spec c 65279) as [-> | Hne]; [discriminate Hc |].
    destruct c as [| p]; [reflexivity |].
    repeat (destruct p as [p | p |]; try reflexivity).
    congruence. }
  change (skip_ws (c :: r)) with (if is_ws c then skip_ws r else c :: r).
  rewrite (starter_not_ws c Hc), Hscan by (unfold Nat.lt; lia).
  destruct c as [| p]; [reflexivity |].
  repeat (destruct p as [p | p |]; try reflexivity).
  discriminate Hc.
Qed.

Lemma load_dump codec o indent :
  storable codec o = true ->
  load codec (fst (dump codec o indent false)) = Some o.
Proof.
  intros Hok. rewrite (dump_storable codec o indent Hok). cbn [fst].
  unfold load, read_text.
  pose proof (text_clean codec (Z.to_nat indent) o 0 Hok) as Hclean.
  rewrite (decode_encoded _ (clean_encodable _ Hclean)).
  cbn [option_map]. rewrite (universal_newlines_clean _ Hclean).
  apply loads_text, Hok.
Qed.

(** *** The persister *)

Lemma str_eqb_refl s : str_eqb s s = true.
Proof. apply str_eqb_eq. reflexivity. Qed.

(** What the events of a successful save leave in the file. *)
Lemma file_after_saved codec w path obj t msg :
  fs_open w path = None ->
  fs_dump w path obj = None ->
  snd (dump codec obj 2 false) = None ->
  file_after codec w path
    (t ++ [Mkdir (u"data/exploration") true true;
           OpenWrite path (u"utf-8");
           JsonDump path obj 2 false;
           Log SUCCESS msg])
  = Some (fst (dump codec obj 2 false)).
Proof.
  intros Hopen Hdump Hlib. unfold file_after. rewrite fold_left_app.
  cbn [fold_left file_step].
  rewrite !str_eqb_refl, Hopen, Hdump, Hlib. reflexivity.
Qed.

(** C7, as the code has it.  When the directory can be made and opening
    and writing the file meet no failure, the persister leaves in
    [data/exploration/<filename>] a file from which [json.load] reads the
    summary back as it was, if the summary is storable: no string or key
    of it holds a surrogate, which UTF-8 does not encode.  (Its integers
    are within the digit limit of [int], as everything [json] has parsed
    is, and its floats are written by [float.__repr__] and read by
    [float], which agree.) *)
Theorem save_then_load codec self results filename w t :
  storable codec results = true ->
  fs_mkdir w (u"data/exploration") true true = None ->
  write_failure w (u"data/exploration/" ++ filename) results = None ->
  exists bytes,
    fst (save_exploration_results self results filename w t)
      = Returned VNone /\
    file_after codec w (u"data/exploration/" ++ filename)
      (snd (save_exploration_results self results filename w t))
      = Some bytes /\
    load codec bytes = Some results.
Proof.
  intros Hok Hmk Hw. unfold write_failure in Hw.
  rewrite save_run. cbv zeta. rewrite Hmk.
  destruct (fs_open w (u"data/exploration/" ++ filename)) eqn:Hopen;
    [discriminate |].
  rewrite Hw. cbn [fst snd].
  exists (fst (dump codec results 2 false)).
  split; [reflexivity |]. split.
  - apply file_after_saved; [exact Hopen | exact Hw |].
    rewrite (dump_storable codec results 2 Hok). reflexivity.
  - apply load_dump, Hok.
Qed.

Lemma save_then_load_witness :
  exists bytes,
    fst (save_exploration_results explorer0 small_summary
           (u"sets_analysis.json") (disk None None None) [])
      = Returned VNone /\
    file_after few_floats (disk None None None)
      (u"data/exploration/" ++ u"sets_analysis.json")
      (snd (save_exploration_results explorer0 small_summary
              (u"sets_analysis.json") (disk None None None) []))
      = Some bytes /\
    load few_floats bytes = Some small_summary.
Proof.
  apply (save_then_load few_floats explorer0 small_summary
           (u"sets_analysis.json") (disk None None None) []);
    vm_compute; reflexivity.
Defined.

(** C7 as stated fails on a set whose name holds a lone surrogate.
    [explore_sets] returns a summary, not an error record; [json.dump]
    writes it up to the name, which UTF-8 cannot encode, and raises
    [UnicodeEncodeError]; the persister logs that and returns; and the
    file is left with the text up to [name], from which [json.load]
    reads nothing.  It fails too, for any summary, on a disk that refuses
    the opening: no file is left to read. *)
Lemma save_lone_surrogate :
  exists summary head,
    result (explore_sets explorer0 20)
           (library_disk few_floats lone_surrogate) = Returned summary /\
    field "total_sets" summary = Some (VInt 1) /\
    dump few_floats summary 2 false
      = (head ++ 34 :: u"name" ++ [34; 58; 32], Some UnicodeEncodeError) /\
    save_exploration_results explorer0 summary (u"sets_analysis.json")
      (library_disk few_floats lone_surrogate) []
      = (Returned VNone,
         [Mkdir (u"data/exploration") true true;
          OpenWrite (u"data/exploration/" ++ u"sets_analysis.json")
                    (u"utf-8");
          JsonDump (u"data/exploration/" ++ u"sets_analysis.json")
                   summary 2 false;
          Log ERROR [T (u"Erro ao salvar ");
                     T (u"data/exploration/" ++ u"sets_analysis.json");
                     T (u": "); X UnicodeEncodeError]]) /\
    file_after few_floats (library_disk few_floats lone_surrogate)
      (u"data/exploration/" ++ u"sets_analysis.json")
      (snd (save_exploration_results explorer0 summary
              (u"sets_analysis.json")
              (library_disk few_floats lone_surrogate) []))
      = Some (fst (dump few_floats summary 2 false)) /\
    load few_floats (fst (dump few_floats summary 2 false)) = None /\
    file_after few_floats (disk None (Some PermissionError) None)
      (u"data/exploration/" ++ u"sets_analysis.json")
      (snd (save_exploration_results explorer0 small_summary
              (u"sets_analysis.json")
              (disk None (Some PermissionError) None) []))
      = None.
Proof.
  pose (summary :=
          match result (explore_sets explorer0 20)
                       (library_disk few_floats lone_surrogate) with
          | Returned a => a
          | Raised _ => VNone
          end).
  exists summary.
  exists (firstn (List.length (fst (dump few_floats summary 2 false)) - 8)
                 (fst (dump few_floats summary 2 false))).
  repeat split; vm_compute; reflexivity.
Qed.

End JsonFacts.
